(** * Strawberry synthetic dataset scripts: mask/annotation consistency checks

    A shallow embedding of the checking scripts under [Scripts/]:

    - [comprehensive_check.py]  (the mask scanner and the five verifications),
    - [test_dataset_functions.py] ([find_matching_pairs]),
    - [visualize_sample.py]     (the instance-id map of the second encoding),
    - [verify_incremental_metadata.py] (the metadata shard reconciler),
    - [split_dataset.py] / [verify_split.py] (the archive splitter and joiner).

    Python dictionaries are finite maps ([gmap]) together with the list of
    their keys in insertion order, which is what Python iterates over; the
    text printed by the scripts is kept as structured events and report
    fields; an uncaught Python exception is an explicit outcome. *)

From Stdlib Require Import ZArith List Ascii String Floats Lia DecimalString DecimalNat.
From stdpp Require Import gmap strings list fin_maps sorting.
From Equations Require Import Equations.

Open Scope string_scope.
Open Scope list_scope.
Open Scope Z_scope.

(** ** Python dictionaries: a finite map and the insertion order of its keys *)

Module PyDict.

Section Dict.
Context {K V : Type} `{Countable K}.

Record dict := Dict { d_map : gmap K V; d_keys : list K }.

Definition empty : dict := Dict ∅ [].

(** [d[k]], as an option ([None] is Python's [KeyError]). *)
Definition get (k : K) (d : dict) : option V := d_map d !! k.

(** [k in d] *)
Definition mem (k : K) (d : dict) : bool := bool_decide (is_Some (d_map d !! k)).

(** [d[k] = v]: a new key goes to the end of the iteration order, an
    existing key keeps its place. *)
Definition set (k : K) (v : V) (d : dict) : dict :=
  Dict (<[k := v]> (d_map d))
       (if mem k d then d_keys d else d_keys d ++ [k]).

(** [len(d)] *)
Definition len (d : dict) : nat := size (d_map d).

(** [list(d.keys())] and [list(d.items())] *)
Definition keys (d : dict) : list K := d_keys d.
Definition items (d : dict) : list (K * V) :=
  omap (fun k => pair k <$> d_map d !! k) (d_keys d).

(** [{k: v for (k, v) in l}]: later bindings overwrite earlier ones. *)
Definition of_list (l : list (K * V)) : dict :=
  fold_left (fun d kv => set kv.1 kv.2 d) l empty.

(** The invariant every dictionary built from [empty] by [set] satisfies. *)
Definition wf (d : dict) : Prop :=
  NoDup (d_keys d) ∧ ∀ k, k ∈ d_keys d ↔ is_Some (d_map d !! k).
End Dict.

Arguments dict K V {_ _}.

End PyDict.

Abbreviation dict := PyDict.dict.
Abbreviation d_map := PyDict.d_map.
Abbreviation d_keys := PyDict.d_keys.

(** ** The annotation records of [annotations.json]

    Only the fields the checks read are kept ([bbox] and
    [segmentation_color] are never read by them). *)

Module Coco.

Record annotation := Annotation {
  image_id : Z;
  instance_id : Z;
  category_id : Z;
  area : Z;
  parent_id : Z
}.

#[export] Instance annotation_eq_dec : EqDecision annotation.
Proof. solve_decision. Defined.

End Coco.

(** ** [comprehensive_check.py] *)

Module ComprehensiveCheck.
Import Coco.

(** A mask pixel as OpenCV returns it: the three 8-bit channels in the
    order [(b, g, r)].  Channel values are integers; [uint8] says they are
    in range. *)
Definition pixel : Type := Z * Z * Z.
Definition uint8 (v : Z) : Prop := 0 <= v < 256.
Definition pixel_ok (p : pixel) : Prop :=
  let '(b, g, r) := p in uint8 b ∧ uint8 g ∧ uint8 r.

(** [(obj_type, obj_id)], with [obj_type] one of the four strings of the
    script. *)
Definition object_key : Type := string * Z.

(** The mask array: [shape[0]] rows, [shape[1]] columns, [mask[y, x]]. *)
Record mask := Mask { rows : nat; cols : nat; at_ : nat -> nat -> pixel }.

Definition mask_of_rows (w : nat) (l : list (list pixel)) : mask :=
  Mask (length l) w (fun y x => nth x (nth y l []) (0, 0, 0)).

(** What the scan prints while it runs (lines 58 and 67). *)
Inductive scan_event :=
| InvalidCategory (b : Z) (x y : nat)
| BijectionViolation (color : pixel) (bound seen : object_key).

(** Lines 51-59: the category channel selects the type and the id channel.
    [None] is the [else] branch (invalid category). *)
Definition decode (b g r : Z) : option object_key :=
  if b =? 3 then Some ("peduncle", g)
  else if (b =? 0) || (b =? 1) || (b =? 2)
  then Some (nth (Z.to_nat b) ["ripe"; "unripe"; "half_ripe"] "", r)
  else None.

Inductive decoded :=
| Background
| Object (k : object_key)
| Fault (b : Z).

(** Lines 45-59 for one pixel. *)
Definition decode_pixel (p : pixel) : decoded :=
  let '(b, g, r) := p in
  if (b =? 0) && (g =? 0) && (r =? 0) then Background
  else match decode b g r with
       | Some k => Object k
       | None => Fault b
       end.

Record scan_state := ScanState {
  color_map : dict pixel object_key;
  object_pixels : dict object_key nat;
  printed : list scan_event
}.

Definition scan_init : scan_state := ScanState PyDict.empty PyDict.empty [].

(** One iteration of the inner loop body (lines 43-67) at column [x] of
    row [y]. *)
Definition scan_step (st : scan_state) (v : nat * nat * pixel) : scan_state :=
  let '(y, x, p) := v in
  match decode_pixel p with
  | Background => st
  | Fault b =>
      ScanState (color_map st) (object_pixels st)
                (printed st ++ [InvalidCategory b x y])
  | Object object_key =>
      let count := default 0%nat (PyDict.get object_key (object_pixels st)) in
      let object_pixels' := PyDict.set object_key (S count) (object_pixels st) in
      match PyDict.get p (color_map st) with
      | None =>
          ScanState (PyDict.set p object_key (color_map st)) object_pixels'
                    (printed st)
      | Some bound =>
          if decide (bound = object_key)
          then ScanState (color_map st) object_pixels' (printed st)
          else ScanState (color_map st) object_pixels'
                         (printed st ++ [BijectionViolation p bound object_key])
      end
  end.

(** The pixels in the order of the two nested [for] loops (lines 41-43). *)
Definition visits (m : mask) : list (nat * nat * pixel) :=
  flat_map (fun y => map (fun x => (y, x, at_ m y x)) (seq 0 (cols m)))
           (seq 0 (rows m)).

Definition scan_from (st : scan_state) (vs : list (nat * nat * pixel)) : scan_state :=
  fold_left scan_step vs st.

Definition scan (m : mask) : scan_state := scan_from scan_init (visits m).

(** Python's [l[i]] with an integer index: negative indices count from the
    end, [None] is [IndexError]. *)
Definition py_index {A} (l : list A) (i : Z) : option A :=
  if 0 <=? i then l !! Z.to_nat i
  else if - Z.of_nat (length l) <=? i then l !! Z.to_nat (Z.of_nat (length l) + i)
  else None.

(** Line 25: [anns = [a for a in coco["annotations"] if a["image_id"] == sample_id]] *)
Definition anns_of (annotations : list annotation) (sample_id : Z) : list annotation :=
  filter (fun a => image_id a = sample_id) annotations.

(** *** Verification 1, after the scan (lines 69-76) *)

Inductive bijection_line :=
| BijectionConfirmed
| BijectionBroken (n_colors n_objects : nat).

Definition bijection_check (st : scan_state) : bool :=
  bool_decide (PyDict.len (color_map st) = PyDict.len (object_pixels st)).

Definition bijection_report (st : scan_state) : bijection_line :=
  if bijection_check st then BijectionConfirmed
  else BijectionBroken (PyDict.len (color_map st)) (PyDict.len (object_pixels st)).

(** *** Verification 2 (lines 92-93 and the summary entry of line 233) *)

Definition is_strawberry_type (t : string) : bool :=
  bool_decide (t ∈ ["ripe"; "unripe"; "half_ripe"]).

Definition strawberry_colors (st : scan_state) : list pixel :=
  fst <$> filter (fun ck => is_strawberry_type (fst (snd ck)) = true)
                 (PyDict.items (color_map st)).

Definition peduncle_colors (st : scan_state) : list pixel :=
  fst <$> filter (fun ck => fst (snd ck) = "peduncle") (PyDict.items (color_map st)).

(** [max(l)] and [min(l)] of a list of integers; [None] is the
    [ValueError] Python raises on an empty list. *)
Definition py_max (l : list Z) : option Z :=
  match l with [] => None | x :: l' => Some (fold_left Z.max l' x) end.
Definition py_min (l : list Z) : option Z :=
  match l with [] => None | x :: l' => Some (fold_left Z.min l' x) end.

Definition channel_separation (st : scan_state) : bool :=
  let g_vals := (fun c : pixel => snd (fst c)) <$> strawberry_colors st in
  let r_vals := (fun c : pixel => snd c) <$> peduncle_colors st in
  bool_decide (default 0 (py_max (if strawberry_colors st is [] then [0] else g_vals)) = 0)
  && bool_decide (default 0 (py_max (if peduncle_colors st is [] then [0] else r_vals)) = 0).

(** *** Verification 3: pairing by shared instance id (lines 122-143) *)

Definition by_instance (anns : list annotation) : dict Z (list annotation) :=
  fold_left (fun d ann =>
               PyDict.set (instance_id ann)
                          (default [] (PyDict.get (instance_id ann) d) ++ [ann]) d)
            anns PyDict.empty.

Definition is_strawberry_cat (c : Z) : bool := bool_decide (c ∈ [0; 1; 2]).

Record pairing_counts := PairingCounts {
  paired_count : nat;
  strawberry_only : nat;
  peduncle_only : nat
}.

Definition pairing_step (acc : pairing_counts) (entry : Z * list annotation)
  : pairing_counts :=
  let cats := category_id <$> snd entry in
  let has_strawberry := existsb is_strawberry_cat cats in
  let has_peduncle := bool_decide (3 ∈ cats) in
  if has_strawberry && has_peduncle
  then PairingCounts (S (paired_count acc)) (strawberry_only acc) (peduncle_only acc)
  else if has_strawberry
  then PairingCounts (paired_count acc) (S (strawberry_only acc)) (peduncle_only acc)
  else if has_peduncle
  then PairingCounts (paired_count acc) (strawberry_only acc) (S (peduncle_only acc))
  else acc.

Definition pairing (anns : list annotation) : pairing_counts :=
  fold_left pairing_step (PyDict.items (by_instance anns)) (PairingCounts 0 0 0).

(** *** Verification 4: pixel threshold (lines 157-192) *)

(** Lines 157-163.  [None] is the [IndexError] of line 162 on a category
    id that does not index the three strawberry names. *)
Definition json_object (ann : annotation) : option object_key :=
  if category_id ann =? 3 then Some ("peduncle", instance_id ann)
  else cat_name ← py_index ["ripe"; "unripe"; "half_ripe"] (category_id ann);
       Some (cat_name, instance_id ann).

Definition json_objects (anns : list annotation) : option (gset object_key) :=
  list_to_set <$> mapM json_object anns.

(** Lines 170-174: [(instance_id, category_id, area)] of every record below
    the threshold. *)
Definition violations (anns : list annotation) : list (Z * Z * Z) :=
  (fun ann => (instance_id ann, category_id ann, area ann))
    <$> filter (fun ann => area ann < 15) anns.

(** The summary entry ["Threshold Applied"] (line 234). *)
Definition threshold_applied (anns : list annotation) : bool :=
  bool_decide (length (violations anns) = 0%nat).

(** Lines 176-181: at most five violations are printed. *)
Definition violations_shown (anns : list annotation) : list (Z * Z * Z) :=
  take 5 (violations anns).

(** [sorted(l, key=lambda x: x[1])]: a stable sort by pixel count. *)
Fixpoint insert_by_count (x : object_key * nat) (l : list (object_key * nat))
  : list (object_key * nat) :=
  match l with
  | [] => [x]
  | y :: l' => if (snd x <=? snd y)%nat then x :: l else y :: insert_by_count x l'
  end.
Definition sorted_by_count (l : list (object_key * nat)) : list (object_key * nat) :=
  foldr insert_by_count [] l.

(** Lines 184-187: among the ten mask objects with the fewest pixels, those
    that are not in the annotation file. *)
Definition missing (st : scan_state) (json : gset object_key)
  : list (string * Z * nat) :=
  (fun kc => (fst (fst kc), snd (fst kc), snd kc))
    <$> filter (fun kc => fst kc ∉ json)
               (take 10 (sorted_by_count (PyDict.items (object_pixels st)))).

(** *** Verification 5: id offset (lines 201-221) *)

Definition all_ids (st : scan_state) : list Z :=
  snd <$> PyDict.keys (object_pixels st).

Definition has_zero (st : scan_state) : bool :=
  existsb (fun k : object_key => snd k =? 0) (PyDict.keys (object_pixels st)).

Definition zero_objs (st : scan_state) : list object_key :=
  filter (fun k : object_key => snd k = 0) (PyDict.keys (object_pixels st)).

Inductive id_range_line :=
| FoundIdZero
| IdsStartFromOne
| IdsStartFrom (min_id : Z).

Inductive id_zero_line :=
| CriticalIdZero (objs : list object_key)
| NoIdZero.

Record id_offset := IdOffset {
  min_id : Z;
  max_id : Z;
  range_line : id_range_line;
  zero_line : id_zero_line;
  id_offset_passed : bool
}.

(** [None] is the [ValueError] of [min(all_ids)] (line 202) on an empty
    list. *)
Definition id_offset_check (st : scan_state) : option id_offset :=
  min_id ← py_min (all_ids st);
  max_id ← py_max (all_ids st);
  Some (IdOffset min_id max_id
          (if min_id =? 0 then FoundIdZero
           else if min_id =? 1 then IdsStartFromOne
           else IdsStartFrom min_id)
          (if has_zero st then CriticalIdZero (zero_objs st) else NoIdZero)
          ((1 <=? min_id) && negb (has_zero st))).

(** *** The whole run *)

Inductive exn := IndexError | ValueError.

Record report := Report {
  scan_printed : list scan_event;
  unique_colors : nat;
  unique_objects : nat;
  bijection : bijection_line;
  pairs : pairing_counts;
  objects_in_json : nat;
  threshold_violations : list (Z * Z * Z);
  filtered_sample : list (string * Z * nat);
  ids : id_offset;
  checks : list (string * bool);
  all_passed : bool
}.

Inductive outcome :=
| Raised (e : exn)
| Finished (r : report).

(** Lines 230-236 *)
Definition summary_checks (st : scan_state) (anns : list annotation) (io : id_offset)
  : list (string * bool) :=
  [ ("RGB Encoding", bijection_check st);
    ("Bijection", bijection_check st);
    ("Channel Separation", channel_separation st);
    ("Threshold Applied", threshold_applied anns);
    ("ID Offset", id_offset_passed io) ].

Definition verify_dataset (m : mask) (annotations : list annotation) (sample_id : Z)
  : outcome :=
  let anns := anns_of annotations sample_id in
  let st := scan m in
  match json_objects anns with
  | None => Raised IndexError
  | Some json =>
      match id_offset_check st with
      | None => Raised ValueError
      | Some io =>
          let checks := summary_checks st anns io in
          Finished
            (Report (printed st)
                    (PyDict.len (color_map st)) (PyDict.len (object_pixels st))
                    (bijection_report st)
                    (pairing anns)
                    (size json)
                    (violations_shown anns)
                    (missing st json)
                    io checks
                    (forallb snd checks))
      end
  end.

End ComprehensiveCheck.

(** ** [visualize_sample.py]: the instance-id map of the second encoding *)

Module VisualizeSample.
Import ComprehensiveCheck.

(** Line 56: [np.where(mask_b == 3, mask_g, mask_r)], for one pixel. *)
Definition instance_of (p : pixel) : Z :=
  let '(b, g, r) := p in if b =? 3 then g else r.

(** Lines 58-59: the distinct ids of the map, background (id 0) removed. *)
Definition unique_ids (m : mask) : gset Z :=
  list_to_set (filter (fun i => 0 < i) (instance_of ∘ snd <$> visits m)).

End VisualizeSample.

(** ** [test_dataset_functions.py]: pairing by [parent_id] *)

Module TestDatasetFunctions.
Import Coco.

Definition get_annotations_for_image (annotations : list annotation) (image_id : Z)
  : list annotation :=
  filter (fun ann => Coco.image_id ann = image_id) annotations.

Definition find_matching_pairs (annotations : list annotation) (image_id : Z)
  : list (annotation * annotation) :=
  let img_anns := get_annotations_for_image annotations image_id in
  let strawberries := filter (fun a => category_id a ∈ [0; 1; 2]) img_anns in
  let peduncles := filter (fun a => category_id a = 3) img_anns in
  let peduncle_map := PyDict.of_list ((fun p => (instance_id p, p)) <$> peduncles) in
  fold_left (fun pairs straw =>
               match PyDict.get (parent_id straw) peduncle_map with
               | Some p => pairs ++ [(straw, p)]
               | None => pairs
               end)
            strawberries [].

End TestDatasetFunctions.

(** ** Python string functions used by the scripts *)

Module PyStr.

(** [s.startswith(p)] *)
Fixpoint startswith (p s : string) : bool :=
  match p, s with
  | EmptyString, _ => true
  | String a p', String b s' => bool_decide (a = b) && startswith p' s'
  | String _ _, EmptyString => false
  end.

(** [s.endswith(p)] *)
Definition endswith (p s : string) : bool :=
  startswith (String.rev p) (String.rev s).

(** [s.replace(old, new)] for a non-empty [old]: every occurrence, found
    left to right without overlap, is replaced.  [skip] counts the
    characters of a matched occurrence that are still to be dropped. *)
Fixpoint replace_from (skip : nat) (old new s : string) : string :=
  match s with
  | EmptyString => EmptyString
  | String c s' =>
      match skip with
      | S k => replace_from k old new s'
      | O =>
          if startswith old s
          then new +:+ replace_from (pred (String.length old)) old new s'
          else String c (replace_from 0 old new s')
      end
  end.

Definition replace (old new s : string) : string := replace_from 0 old new s.

(** [f"{n:03d}"]: decimal digits, zero-padded on the left to width 3. *)
Fixpoint zeros (n : nat) : string :=
  match n with
  | O => ""
  | S n' => String "0"%char (zeros n')
  end.

Definition zfill (width : nat) (s : string) : string :=
  zeros (width - String.length s) +:+ s.

Definition format_03d (n : nat) : string :=
  zfill 3 (NilEmpty.string_of_uint (Nat.to_uint n)).

End PyStr.

(** ** [verify_incremental_metadata.py]: the metadata shard reconciler *)

Module VerifyIncrementalMetadata.

(** A value as [json.load] returns it: [None], [bool], [int] (of any
    size), [float] (binary64), [str], [list], [dict].  The members of an
    object are kept in document order; a name that occurs twice has the
    value of its last occurrence. *)
#[local] Set Warnings "-register-all".
Inductive json :=
| JNull
| JBool (b : bool)
| JInt (n : Z)
| JFloat (x : float)
| JString (s : string)
| JArray (items : list json)
| JObject (members : list (string * json)).
#[local] Set Warnings "register-all".

(** The exceptions the reconciler can end with, none of which it catches:
    what [open] or [json.load] raised on a shard file (by its class name:
    [JSONDecodeError], [PermissionError], ...), and the three that reading
    and subtracting the depths can raise. *)
Inductive exn :=
| LoadError (name : string)
| KeyError
| TypeError
| OverflowError.

#[export] Instance exn_ret : MRet (sum exn) := fun A a => inr a.
#[export] Instance exn_bind : MBind (sum exn) :=
  fun A B f r => match r with inl e => inl e | inr a => f a end.

(** The value of the last member named [key]. *)
Fixpoint last_member (key : string) (members : list (string * json)) : option json :=
  match members with
  | [] => None
  | (k, v) :: members' =>
      match last_member key members' with
      | Some v' => Some v'
      | None => if decide (k = key) then Some v else None
      end
  end.

(** [v[key]] with a string [key]: a dictionary looks the key up, every
    other value raises [TypeError] (a list or string wants an integer
    index, the rest is not subscriptable). *)
Definition getitem (v : json) (key : string) : exn + json :=
  match v with
  | JObject members =>
      match last_member key members with
      | Some x => inr x
      | None => inl KeyError
      end
  | _ => inl TypeError
  end.

(** [data['depth_range']['min_meters']] (lines 62 and 63) *)
Definition min_meters (data : json) : exn + json :=
  depth_range ← getitem data "depth_range"; getitem depth_range "min_meters".

(** A JSON file on disk, as the script distinguishes its states:
    [os.path.exists] false, [json.JSONDecodeError], or the parsed value. *)
Inductive json_file (A : Type) :=
| Missing
| Malformed
| Parsed (a : A).
Arguments Missing {A}.
Arguments Malformed {A}.
Arguments Parsed {A} a.

(** The dataset directory as the reconciler sees it:
    - the entries of [metadata_temp/] in the order the directory lists
      them, each with what [open] and [json.load] do on it (lines 56-57):
      raise, or return the parsed value;
    - [temp_exists name], the answer of
      [os.path.exists(os.path.join(metadata_temp_path, name))] (line 73):
      for the name of a file whether the directory holds it, for the empty
      name whether the directory itself exists, and so on for names with
      separators;
    - [depth_metadata.json], a JSON object from image name to record;
    - [annotations.json], its ["images"] array, one file name per image. *)
Record dataset := Dataset {
  metadata_temp : list (string * (exn + json));
  temp_exists : string → bool;
  master : json_file (dict string json);
  annotations : json_file (list string)
}.

Inductive error :=
| MasterNotFound
| MasterParseFailed
| AnnotationsNotFound
| AnnotationsParseFailed
| CountMismatch (n_images n_master : nat)
| TempNotInMaster (filename image_name : string)
| DataMismatch (image_name : string) (t_min m_min : json)
| TempMissing (image_name temp_filename : string).

(** [glob.glob(".../*_meta.json")]: the star matches any name that does not
    start with a dot. *)
Definition glob_meta {A} (dir : list (string * A)) : list (string * A) :=
  filter (fun f => PyStr.endswith "_meta.json" (fst f) = true
                   ∧ PyStr.startswith "." (fst f) = false) dir.

(** Line 65 on two floats: [abs(t_min - m_min) > 0.0001] *)
#[local] Set Warnings "-inexact-float".
Definition depth_differs (t_min m_min : float) : bool :=
  PrimFloat.ltb 0.0001%float (PrimFloat.abs (PrimFloat.sub t_min m_min)).
#[local] Set Warnings "inexact-float".

(** The numbers of Python that JSON values are: [bool] is a subclass of
    [int]. *)
Inductive number :=
| NInt (n : Z)
| NFloat (x : float).

Definition as_number (v : json) : option number :=
  match v with
  | JBool b => Some (NInt (if b then 1 else 0))
  | JInt n => Some (NInt n)
  | JFloat x => Some (NFloat x)
  | _ => None
  end.

(** The conversion of an [int] operand next to a [float] one: rounded to
    the nearest binary64 number, ties to even; [OverflowError] beyond the
    largest one. *)
Definition float_of_int (n : Z) : exn + float :=
  match SpecFloat.binary_normalize prec emax n 0 false with
  | S754_infinity _ => inl OverflowError
  | sf => inr (SF2Prim sf)
  end.

(** Line 65 on two values: [abs(t_min - m_min) > 0.0001].  Two integers
    subtract exactly, and an integer is above 0.0001 when it is at least
    1; an integer next to a float is converted first; a value that is no
    number makes the subtraction raise [TypeError]. *)
Definition min_differs (t_min m_min : json) : exn + bool :=
  match as_number t_min, as_number m_min with
  | Some (NInt t), Some (NInt m) => inr (1 <=? Z.abs (t - m))
  | Some (NInt t), Some (NFloat m) => t' ← float_of_int t; inr (depth_differs t' m)
  | Some (NFloat t), Some (NInt m) => m' ← float_of_int m; inr (depth_differs t m')
  | Some (NFloat t), Some (NFloat m) => inr (depth_differs t m)
  | _, _ => inl TypeError
  end.

(** Lines 47-66: the body of the loop over the shard files.  The shard is
    opened only when its image name is in the master file. *)
Definition check_temp_file (master_meta : dict string json)
    (errors : list error) (temp_file : string * (exn + json)) : exn + list error :=
  let filename := fst temp_file in
  let image_name := PyStr.replace "_meta.json" ".png" filename in
  match PyDict.get image_name master_meta with
  | None => inr (errors ++ [TempNotInMaster filename image_name])
  | Some m_data =>
      t_data ← snd temp_file;
      t_min ← min_meters t_data;
      m_min ← min_meters m_data;
      differs ← min_differs t_min m_min;
      inr (if differs : bool then errors ++ [DataMismatch image_name t_min m_min]
           else errors)
  end.

(** The loop of lines 47-66: the first exception ends it. *)
Fixpoint check_temp_files (master_meta : dict string json)
    (temp_files : list (string * (exn + json))) (errors : list error)
  : exn + list error :=
  match temp_files with
  | [] => inr errors
  | temp_file :: temp_files' =>
      errors' ← check_temp_file master_meta errors temp_file;
      check_temp_files master_meta temp_files' errors'
  end.

(** Lines 69-74: the body of the loop over the master entries. *)
Definition check_master_entry (temp_exists : string → bool)
    (errors : list error) (image_name : string) : list error :=
  let temp_filename := PyStr.replace ".png" "_meta.json" image_name in
  if temp_exists temp_filename then errors
  else errors ++ [TempMissing image_name temp_filename].

(** Lines 32-43 *)
Definition check_annotations (master_meta : dict string json)
    (annotations : json_file (list string)) (errors : list error) : list error :=
  match annotations with
  | Missing => errors ++ [AnnotationsNotFound]
  | Malformed => errors ++ [AnnotationsParseFailed]
  | Parsed images =>
      if bool_decide (length images ≠ PyDict.len master_meta)
      then errors ++ [CountMismatch (length images) (PyDict.len master_meta)]
      else errors
  end.

(** How the function ends: an early [return errors] (lines 21 and 29), an
    exception out of the loop over the shard files, or the end of the
    body, where the collected errors are printed. *)
Inductive outcome :=
| Returned (errors : list error)
| Raised (e : exn)
| Reported (errors : list error).

Definition verify_dataset (ds : dataset) : outcome :=
  let errors := [] in
  let temp_files := glob_meta (metadata_temp ds) in
  match master ds with
  | Missing => Returned (errors ++ [MasterNotFound])
  | Malformed => Returned (errors ++ [MasterParseFailed])
  | Parsed master_meta =>
      let errors := check_annotations master_meta (annotations ds) errors in
      match check_temp_files master_meta temp_files errors with
      | inl e => Raised e
      | inr errors =>
          let errors :=
            fold_left (check_master_entry (temp_exists ds))
                      (PyDict.keys master_meta) errors in
          Reported errors
      end
  end.

End VerifyIncrementalMetadata.

(** ** [split_dataset.py] and [verify_split.py] *)

Module SplitDataset.

(** The files of the working directory: name to content. *)
Abbreviation files := (gmap string (list Byte.byte)).

(** [f.read(size)] on the unread rest of a file: the bytes read and the
    rest left.  A negative size reads everything. *)
Definition f_read (size : Z) (rest : list Byte.byte) : list Byte.byte * list Byte.byte :=
  if size <? 0 then (rest, [])
  else (take (Z.to_nat size) rest, drop (Z.to_nat size) rest).

(** Line 18: [f"{file_path}.{part_num:03d}"] *)
Definition part_name (file_path : string) (part_num : nat) : string :=
  file_path +:+ "." +:+ PyStr.format_03d part_num.

Lemma f_read_shorter size rest b chunk rest' :
  f_read size rest = (b :: chunk, rest') → (length rest' < length rest)%nat.
Proof.
  unfold f_read. destruct (size <? 0) eqn:Hs; intros [= Hc Hr]; subst rest'.
  - subst rest. simpl. lia.
  - rewrite length_drop. destruct (Z.to_nat size); [done|].
    destruct rest; [done|]. simpl. lia.
Qed.

Definition inspect {A} (a : A) : {b | a = b} := exist _ a eq_refl.

(** Lines 13-23: the [while True] loop, from the unread rest of the input,
    the next part number and the files written so far. *)
Equations split_loop (chunk_size : Z) (file_path : string)
    (rest : list Byte.byte) (part_num : nat) (fs : files) : files
    by wf (length rest) lt :=
  split_loop chunk_size file_path rest part_num fs
    with inspect (f_read chunk_size rest) := {
    | exist _ ([], _) _ => fs
    | exist _ (b :: chunk, rest') Hread =>
        split_loop chunk_size file_path rest' (S part_num)
                   (<[part_name file_path part_num := b :: chunk]> fs) }.
Next Obligation. eapply f_read_shorter; eauto. Qed.

Definition default_chunk_size : Z := 2 * 1024 * 1024 * 1024 - 100 * 1024 * 1024.

Definition split_file (file_path : string) (chunk_size : Z) (fs : files) : files :=
  match fs !! file_path with
  | None => fs
  | Some data => split_loop chunk_size file_path data 1 fs
  end.

End SplitDataset.

Module VerifySplit.
Import SplitDataset.

(** Lines 5-13: the names of the parts found, counting up from [i] until a
    name does not exist.  Part names are pairwise distinct, so a directory
    of [n] files stops the loop after at most [n] parts: the fuel
    [S (size fs)] that [verify_split_files] gives is never used up. *)
Fixpoint find_parts (fuel : nat) (fs : files) (base_name : string) (i : nat)
  : list string :=
  match fuel with
  | O => []
  | S fuel' =>
      if decide (is_Some (fs !! part_name base_name i))
      then part_name base_name i :: find_parts fuel' fs base_name (S i)
      else []
  end.

(** Lines 24-29: the content written to the output file, the parts read
    one after the other. *)
Definition recombine (fs : files) (parts : list string) : list Byte.byte :=
  fold_left (fun out part => out ++ default [] (fs !! part)) parts [].

(** The content of the recombined file, or [None] when no part is found
    and the function returns before writing it (lines 15-17). *)
Definition verify_split_files (fs : files) (base_name : string) : option (list Byte.byte) :=
  let parts := find_parts (S (size fs)) fs base_name 1 in
  if parts is [] then None else Some (recombine fs parts).

End VerifySplit.

(** ** [update_notebooks.py]: rebuilding the master metadata file *)

Module UpdateNotebooks.
Import VerifyIncrementalMetadata.

(** [temp_dir.glob("*_meta.json")]: unlike [glob.glob], the star of
    [pathlib] also matches names that start with a dot. *)
Definition glob_meta_files {A} (dir : list (string * A)) : list (string * A) :=
  filter (fun f => PyStr.endswith "_meta.json" (fst f) = true) dir.

(** The loop body of [reconstruct_metadata] (lines 30-40): a shard that
    cannot be read is skipped with a warning, whatever was raised. *)
Definition add_shard (combined_metadata : dict string json)
    (json_file : string * (exn + json)) : dict string json :=
  let img_id := PyStr.replace "_meta.json" "" (fst json_file) in
  let img_name := img_id +:+ ".png" in
  match snd json_file with
  | inr data => PyDict.set img_name data combined_metadata
  | inl _ => combined_metadata
  end.

(** [reconstruct_metadata]: the content written to [depth_metadata.json],
    or [None] where the function returns [False] without writing (no
    [metadata_temp] directory, or no shard could be read). *)
Definition reconstruct_metadata (temp_dir : option (list (string * (exn + json))))
  : option (dict string json) :=
  match temp_dir with
  | None => None
  | Some dir =>
      let json_files := glob_meta_files dir in
      let combined_metadata := fold_left add_shard json_files PyDict.empty in
      if bool_decide (PyDict.len combined_metadata = 0%nat) then None
      else Some combined_metadata
  end.

End UpdateNotebooks.

(** ** [visualize_sample.py]: the pixels of one instance *)

Module VisualizeSampleLoop.
Import ComprehensiveCheck VisualizeSample.

(** Lines 79-80: [mask_bool = (instance_map == inst_id)] and
    [np.count_nonzero(mask_bool)]. *)
Definition pixel_count (m : mask) (inst_id : Z) : nat :=
  length (filter (fun v => instance_of (snd v) = inst_id) (visits m)).

End VisualizeSampleLoop.

(** ** [analyze_current_dataset.py]: image indices and duplicate ids *)

Module AnalyzeCurrentDataset.

(** Lines 28-37: the loop over the image files, inside [if existing_images:].
    Each file is given by what [int(filename)] returns for its stem, [None]
    for the [ValueError] of a name that is no number. *)
Definition indices (stems : list (option Z)) : list Z := omap id stems.

Definition max_index (stems : list (option Z)) : Z :=
  fold_left (fun max_index stem =>
               match stem with
               | Some index => Z.max max_index index
               | None => max_index
               end) stems 0.

(** Lines 43-45: [set(range(max_index + 1)) - set(indices)] *)
Definition gaps (stems : list (option Z)) : gset Z :=
  list_to_set (seqZ 0 (max_index stems + 1)) ∖ list_to_set (indices stems).

(** Lines 116-118 of the summary, again inside [if existing_images:]:
    [target = 1000], [current = len(existing_images)] and
    [remaining = target - max_index - 1]. *)
Definition target : Z := 1000.
Definition current (stems : list (option Z)) : nat := length stems.
Definition remaining (stems : list (option Z)) : Z :=
  target - max_index stems - 1.

(** Lines 78 and 84: [len(ids) != len(set(ids))] *)
Definition has_duplicates (ids : list Z) : bool :=
  bool_decide (length ids ≠ size (list_to_set ids : gset Z)).

End AnalyzeCurrentDataset.

(** ** [depth_utils.py]: the 16-bit depth of a pixel *)

Module DepthUtils.

(** Lines 25-27 of [load_depth_png]: the two channels are widened to
    [uint16], so the shift wraps at 16 bits. *)
Definition depth_mm (high low : Z) : Z :=
  Z.lor ((Z.shiftl high 8) mod 2 ^ 16) low.

End DepthUtils.

(** * Properties *)

(** ** Dictionaries *)

Module PyDictFacts.
Section Facts.
Context {K V : Type} `{Countable K}.
Implicit Types (d : dict K V) (k : K) (v : V).

Lemma mem_true k d : PyDict.mem k d = true ↔ is_Some (d_map d !! k).
Proof. unfold PyDict.mem. by rewrite bool_decide_eq_true. Qed.

Lemma mem_false k d : PyDict.mem k d = false ↔ d_map d !! k = None.
Proof. unfold PyDict.mem. rewrite bool_decide_eq_false. symmetry. apply eq_None_not_Some. Qed.

Lemma wf_empty : PyDict.wf (PyDict.empty : dict K V).
Proof.
  split; [constructor|]. intros k. simpl. rewrite lookup_empty.
  split; [by intros ?%elem_of_nil | by intros [? ?]].
Qed.

Lemma wf_set k v d : PyDict.wf d → PyDict.wf (PyDict.set k v d).
Proof.
  intros [Hnd Hdom]. unfold PyDict.set, PyDict.wf. destruct (PyDict.mem k d) eqn:Hm; simpl.
  - apply mem_true in Hm. split; [done|]. intros k'.
    rewrite lookup_insert_is_Some, Hdom.
    split; [intros ?; destruct (decide (k = k')); auto | intros [<-|[_ ?]]; done].
  - apply mem_false in Hm. split.
    + apply NoDup_app. split_and!; [done| |apply NoDup_singleton].
      intros k' Hk' ->%list_elem_of_singleton.
      apply Hdom in Hk'. rewrite Hm in Hk'. by destruct Hk'.
    + intros k'. rewrite elem_of_app, list_elem_of_singleton, lookup_insert_is_Some, Hdom.
      split.
      * intros [?| ->]; [|by left]. destruct (decide (k = k')); [by left|by right].
      * intros [<-|[_ ?]]; [by right|by left].
Qed.

Lemma wf_len d : PyDict.wf d → PyDict.len d = length (d_keys d).
Proof.
  intros [Hnd Hdom]. unfold PyDict.len.
  rewrite <- size_dom, <- (size_list_to_set (C:=gset K) (d_keys d)) by done.
  f_equal. apply set_eq. intros k. rewrite elem_of_dom, elem_of_list_to_set. by rewrite Hdom.
Qed.

Lemma wf_keys_dom d k : PyDict.wf d → k ∈ PyDict.keys d ↔ k ∈ dom (d_map d).
Proof. intros [_ Hdom]. by rewrite elem_of_dom, <- Hdom. Qed.
End Facts.
End PyDictFacts.

(** ** The mask scan of [comprehensive_check.py] *)

#[local] Set Warnings "-clear-no-such-hyp".

Module ScanFacts.
Import Coco ComprehensiveCheck PyDictFacts.

(** The object key a pixel contributes to, if any. *)
Definition key_of (p : pixel) : option object_key :=
  match decode_pixel p with
  | Object k => Some k
  | _ => None
  end.

(** The fault a visit prints, if any. *)
Definition fault_of (v : nat * nat * pixel) : option scan_event :=
  let '(y, x, p) := v in
  match decode_pixel p with
  | Fault b => Some (InvalidCategory b x y)
  | _ => None
  end.

(** How many of the visits contribute to [k]. *)
Definition count_key (k : object_key) (vs : list (nat * nat * pixel)) : nat :=
  length (filter (fun v => key_of (snd v) = Some k) vs).

Lemma scan_from_snoc st vs v :
  scan_from st (vs ++ [v]) = scan_step (scan_from st vs) v.
Proof. unfold scan_from. by rewrite fold_left_app. Qed.

Lemma scan_from_app st vs1 vs2 :
  scan_from st (vs1 ++ vs2) = scan_from (scan_from st vs1) vs2.
Proof. unfold scan_from. by rewrite fold_left_app. Qed.

(** What one step does to each component of the state. *)
Lemma scan_step_object_pixels st v :
  object_pixels (scan_step st v)
  = match key_of (snd v) with
    | Some k =>
        PyDict.set k (S (default 0%nat (PyDict.get k (object_pixels st))))
                   (object_pixels st)
    | None => object_pixels st
    end.
Proof.
  destruct v as [[y x] p]. unfold scan_step, key_of. simpl.
  destruct (decode_pixel p); [done| |done].
  destruct (PyDict.get p _); [case_decide|]; done.
Qed.

Lemma scan_step_color_map st v :
  color_map (scan_step st v)
  = match key_of (snd v), PyDict.get (snd v) (color_map st) with
    | Some k, None => PyDict.set (snd v) k (color_map st)
    | _, _ => color_map st
    end.
Proof.
  destruct v as [[y x] p]. unfold scan_step, key_of. simpl.
  destruct (decode_pixel p); [done| |by destruct (PyDict.get p (color_map st))].
  destruct (PyDict.get p _); [case_decide|]; done.
Qed.

Lemma color_map_lookup vs p :
  d_map (color_map (scan_from scan_init vs)) !! p
  = if decide (p ∈ snd <$> vs) then key_of p else None.
Proof.
  revert p. induction vs as [|v vs IH] using rev_ind; intros p; [|destruct v as [[y x] q]].
  { cbn. rewrite lookup_empty. by destruct (decide _) as [?%elem_of_nil|]. }
  rewrite scan_from_snoc, scan_step_color_map, fmap_app. simpl.
  assert (Hin : p ∈ (snd <$> vs) ++ [q] ↔ p ∈ snd <$> vs ∨ p = q).
  { by rewrite elem_of_app, list_elem_of_singleton. }
  assert (Hskip : key_of q = None →
            d_map (color_map (scan_from scan_init vs)) !! p
            = if decide (p ∈ (snd <$> vs) ++ [q]) then key_of p else None).
  { intros Hq. rewrite IH. destruct (decide (p = q)) as [->|Hne].
    - rewrite (decide_True (P := q ∈ _ ++ _)) by tauto. rewrite Hq. by destruct (decide _).
    - destruct (decide (p ∈ snd <$> vs));
        [rewrite decide_True by tauto | rewrite decide_False by tauto]; done. }
  pose proof (IH q) as IHq.
  destruct (key_of q) as [k|] eqn:Hdq; [|by apply Hskip].
  clear Hskip. unfold PyDict.get. rewrite IHq.
  destruct (decide (q ∈ snd <$> vs)) as [Hqvs|Hqvs]; simpl.
  - rewrite IH.
    destruct (decide (p = q)) as [->|Hne].
    + by rewrite !decide_True by tauto.
    + destruct (decide (p ∈ snd <$> vs));
        [rewrite decide_True by tauto | rewrite decide_False by tauto]; done.
  - destruct (decide (p = q)) as [->|Hne].
    + simpl. by rewrite lookup_insert_eq, decide_True by tauto.
    + simpl. rewrite lookup_insert_ne by done. rewrite IH.
      destruct (decide (p ∈ snd <$> vs));
        [rewrite decide_True by tauto | rewrite decide_False by tauto]; done.
Qed.

Lemma object_pixels_lookup vs k :
  d_map (object_pixels (scan_from scan_init vs)) !! k
  = if decide (count_key k vs = 0%nat) then None else Some (count_key k vs).
Proof.
  revert k. induction vs as [|v vs IH] using rev_ind; intros k.
  { cbn. by rewrite lookup_empty. }
  rewrite scan_from_snoc, scan_step_object_pixels.
  unfold count_key in *. rewrite filter_app, length_app.
  rewrite filter_cons, filter_nil.
  destruct (key_of (snd v)) as [k'|] eqn:Hkv; simpl.
  - unfold PyDict.get. destruct (decide (k' = k)) as [->|Hne].
    + rewrite lookup_insert_eq, IH. rewrite (decide_True (P := Some k = Some k)) by done. simpl.
      case_decide as Hz; simpl.
      * rewrite Hz. done.
      * rewrite decide_False by lia. f_equal. lia.
    + rewrite lookup_insert_ne by done. rewrite IH.
      rewrite (decide_False (P := Some k' = Some k)) by congruence. simpl. by rewrite Nat.add_0_r.
  - rewrite Nat.add_0_r. apply IH.
Qed.

(** The binding of a color is always the key it decodes to, so the test of
    line 66 never finds a different key and line 67 prints nothing. *)
Lemma scan_step_printed vs v :
  printed (scan_step (scan_from scan_init vs) v)
  = printed (scan_from scan_init vs) ++ option_list (fault_of v).
Proof.
  destruct v as [[y x] p]. unfold scan_step, fault_of.
  pose proof (color_map_lookup vs p) as Hp. unfold key_of in Hp.
  destruct (decode_pixel p) as [|k|b]; simpl; [by rewrite app_nil_r| |done].
  unfold PyDict.get. rewrite Hp.
  destruct (decide (p ∈ snd <$> vs)); simpl; [|by rewrite app_nil_r].
  rewrite decide_True by done. simpl. by rewrite app_nil_r.
Qed.

Lemma printed_scan vs :
  printed (scan_from scan_init vs) = omap fault_of vs.
Proof.
  induction vs as [|v vs IH] using rev_ind; [done|].
  rewrite scan_from_snoc, scan_step_printed, IH, omap_app. by f_equal.
Qed.

Lemma scan_wf st vs :
  PyDict.wf (color_map st) → PyDict.wf (object_pixels st) →
  PyDict.wf (color_map (scan_from st vs)) ∧ PyDict.wf (object_pixels (scan_from st vs)).
Proof.
  induction vs as [|v vs IH] using rev_ind; [done|]. intros Hc Ho.
  destruct (IH Hc Ho) as [IHc IHo].
  rewrite scan_from_snoc, scan_step_color_map, scan_step_object_pixels.
  split.
  - destruct (key_of (snd v)); [|done].
    destruct (PyDict.get _ _); [done|]. by apply wf_set.
  - destruct (key_of (snd v)); [|done]. by apply wf_set.
Qed.

Lemma scan_init_wf vs :
  PyDict.wf (color_map (scan_from scan_init vs))
  ∧ PyDict.wf (object_pixels (scan_from scan_init vs)).
Proof. apply scan_wf; apply wf_empty. Qed.

(** The distinct colors the scan records, and the distinct keys they
    decode to, read off the visited pixels. *)
Definition colors_seen (vs : list (nat * nat * pixel)) : gset pixel :=
  list_to_set (filter (fun p => is_Some (key_of p)) (snd <$> vs)).

Definition keys_seen (vs : list (nat * nat * pixel)) : gset object_key :=
  list_to_set (omap (key_of ∘ snd) vs).

Lemma elem_of_colors_seen vs p :
  p ∈ colors_seen vs ↔ p ∈ snd <$> vs ∧ is_Some (key_of p).
Proof.
  unfold colors_seen. rewrite elem_of_list_to_set, list_elem_of_filter. tauto.
Qed.

Lemma elem_of_keys_seen vs k :
  k ∈ keys_seen vs ↔ ∃ p, p ∈ snd <$> vs ∧ key_of p = Some k.
Proof.
  unfold keys_seen. rewrite elem_of_list_to_set, list_elem_of_omap. split.
  - intros (v & Hv & Hk). exists (snd v). split; [|done].
    apply list_elem_of_fmap. eauto.
  - intros (p & (v & -> & Hv)%list_elem_of_fmap & Hk). eauto.
Qed.

Lemma keys_seen_omap vs : keys_seen vs = set_omap key_of (colors_seen vs).
Proof.
  apply set_eq. intros k. rewrite elem_of_keys_seen, elem_of_set_omap.
  setoid_rewrite elem_of_colors_seen. split.
  - intros (p & ? & Hk). exists p. rewrite Hk. eauto.
  - intros (p & [? _] & ?). eauto.
Qed.

Lemma count_key_pos vs k : count_key k vs ≠ 0%nat ↔ k ∈ keys_seen vs.
Proof.
  rewrite elem_of_keys_seen. unfold count_key. split.
  - intros Hn. destruct (filter _ vs) as [|v l] eqn:Hf; [done|].
    assert (Hv : v ∈ filter (λ v, key_of v.2 = Some k) vs) by (rewrite Hf; left).
    apply list_elem_of_filter in Hv as [Hk Hv]. exists (snd v). split; [|done].
    apply list_elem_of_fmap. eauto.
  - intros (p & (v & -> & Hv)%list_elem_of_fmap & Hk).
    assert (Hin : v ∈ filter (λ v, key_of v.2 = Some k) vs)
      by (by apply list_elem_of_filter).
    destruct (filter _ vs); [by apply elem_of_nil in Hin | done].
Qed.

Lemma dom_color_map vs :
  dom (d_map (color_map (scan_from scan_init vs))) = colors_seen vs.
Proof.
  apply set_eq. intros p.
  rewrite elem_of_dom, color_map_lookup, elem_of_colors_seen.
  destruct (decide (p ∈ snd <$> vs)); [tauto|].
  split; [by intros [? ?] | tauto].
Qed.

Lemma dom_object_pixels vs :
  dom (d_map (object_pixels (scan_from scan_init vs))) = keys_seen vs.
Proof.
  apply set_eq. intros k.
  rewrite elem_of_dom, object_pixels_lookup, <- count_key_pos.
  destruct (decide (count_key k vs = 0%nat)); split; try done.
Qed.

Lemma len_color_map vs :
  PyDict.len (color_map (scan_from scan_init vs)) = size (colors_seen vs).
Proof. unfold PyDict.len. by rewrite <- size_dom, dom_color_map. Qed.

Lemma len_object_pixels vs :
  PyDict.len (object_pixels (scan_from scan_init vs)) = size (keys_seen vs).
Proof. unfold PyDict.len. by rewrite <- size_dom, dom_object_pixels. Qed.

(** Decoding never yields more keys than colors, and strictly fewer when
    two colors share a key. *)
Lemma size_set_omap_le (f : pixel → option object_key) (X : gset pixel) :
  (size (set_omap (D := gset object_key) f X) ≤ size X)%nat.
Proof.
  induction X as [|x X Hx IH] using set_ind_L.
  - by rewrite set_omap_empty, !size_empty.
  - rewrite set_omap_union_L, size_union_alt.
    assert (size (set_omap (D := gset object_key) f ({[x]} : gset pixel)) ≤ 1)%nat.
    { destruct (f x) eqn:Hfx.
      - by rewrite (set_omap_singleton_Some_L _ _ _ Hfx), size_singleton.
      - rewrite (set_omap_singleton_None_L _ _ Hfx), size_empty. lia. }
    assert (size (set_omap (D := gset object_key) f X ∖ set_omap f ({[x]} : gset pixel))
            ≤ size (set_omap (D := gset object_key) f X))%nat
      by (apply subseteq_size; set_solver).
    rewrite (size_union {[x]} X), size_singleton by set_solver. lia.
Qed.

Lemma size_set_omap_collision (f : pixel → option object_key) (X : gset pixel) c1 c2 :
  c1 ∈ X → c2 ∈ X → c1 ≠ c2 → f c1 = f c2 →
  (size (set_omap (D := gset object_key) f X) < size X)%nat.
Proof.
  intros H1 H2 Hne Hf.
  assert (HX : set_omap (D := gset object_key) f X = set_omap f (X ∖ {[c1]})).
  { apply set_eq. intros k. rewrite !elem_of_set_omap. split.
    - intros (p & Hp & Hk). destruct (decide (p = c1)) as [->|].
      + exists c2. split; [set_solver | congruence].
      + exists p. split; [set_solver | done].
    - intros (p & Hp & Hk). exists p. split; [set_solver | done]. }
  rewrite HX. eapply Nat.le_lt_trans; [apply size_set_omap_le|].
  apply subset_size. split; [set_solver|].
  intros Hsub. specialize (Hsub c1 H1). set_solver.
Qed.

Lemma keys_le_colors vs : (size (keys_seen vs) ≤ size (colors_seen vs))%nat.
Proof. rewrite keys_seen_omap. apply size_set_omap_le. Qed.

(** *** The order of the visits *)

Lemma count_key_perm k vs vs' : vs ≡ₚ vs' → count_key k vs = count_key k vs'.
Proof. intros Hp. unfold count_key. by rewrite Hp. Qed.

Lemma scan_perm_object_pixels vs vs' :
  vs ≡ₚ vs' →
  d_map (object_pixels (scan_from scan_init vs))
  = d_map (object_pixels (scan_from scan_init vs')).
Proof.
  intros Hp. apply map_eq. intros k.
  by rewrite !object_pixels_lookup, (count_key_perm k _ _ Hp).
Qed.

Lemma scan_perm_color_map vs vs' :
  vs ≡ₚ vs' →
  d_map (color_map (scan_from scan_init vs))
  = d_map (color_map (scan_from scan_init vs')).
Proof.
  intros Hp. apply map_eq. intros p. rewrite !color_map_lookup.
  destruct (decide (p ∈ snd <$> vs)) as [Hin|Hin];
    [rewrite decide_True | rewrite decide_False]; try done;
    by rewrite <- Hp.
Qed.

(** *** The two nested loops *)

Lemma elem_of_visits m y x p :
  (y, x, p) ∈ visits m ↔ (y < rows m)%nat ∧ (x < cols m)%nat ∧ p = at_ m y x.
Proof.
  unfold visits. rewrite list_elem_of_In, in_flat_map. split.
  - intros (y' & Hy & Hx). apply in_map_iff in Hx as (x' & [= <- <- <-] & Hx).
    apply in_seq in Hy, Hx. split_and!; [lia..|done].
  - intros (Hy & Hx & ->). exists y. split; [apply in_seq; lia|].
    apply in_map_iff. exists x. split; [done|]. apply in_seq. lia.
Qed.

Lemma visits_coords m :
  fst <$> visits m = y ← seq 0 (rows m); (fun x => (y, x)) <$> seq 0 (cols m).
Proof.
  unfold visits. induction (seq 0 (rows m)) as [|y l IH]; [done|].
  simpl. rewrite fmap_app, IH. f_equal.
  rewrite <- list_fmap_compose. by apply list_fmap_ext.
Qed.

Lemma visits_NoDup m : NoDup (fst <$> visits m).
Proof.
  rewrite visits_coords.
  assert (Hgen : ∀ l : list nat, NoDup l →
            NoDup (y ← l; (fun x => (y, x)) <$> seq 0 (cols m))).
  { induction l as [|y l IH]; intros Hnd; [constructor|].
    apply NoDup_cons in Hnd as [Hy Hnd]. simpl. apply NoDup_app. split_and!.
    - apply NoDup_fmap_2; [by intros ?? [=]|apply NoDup_seq].
    - intros [y' x'] (x & [= -> ->] & _)%list_elem_of_fmap
        (y'' & (x'' & [= -> ->] & _)%list_elem_of_fmap & Hin)%list_elem_of_bind.
      done.
    - by apply IH. }
  apply Hgen, NoDup_seq.
Qed.

Lemma visits_length m : length (visits m) = (rows m * cols m)%nat.
Proof.
  unfold visits.
  assert (Hgen : ∀ l : list nat,
            length (flat_map (λ y, map (λ x, (y, x, at_ m y x)) (seq 0 (cols m))) l)
            = (length l * cols m)%nat).
  { induction l as [|y l IH]; [done|].
    simpl. by rewrite length_app, length_map, length_seq, IH. }
  by rewrite Hgen, length_seq.
Qed.

Lemma elem_of_visits_pixels m p :
  p ∈ snd <$> visits m ↔ ∃ y x, (y < rows m)%nat ∧ (x < cols m)%nat ∧ at_ m y x = p.
Proof.
  rewrite list_elem_of_fmap. split.
  - intros ([[y x] q] & -> & Hv). apply elem_of_visits in Hv as (? & ? & ->). eauto.
  - intros (y & x & Hy & Hx & <-). exists (y, x, at_ m y x). split; [done|].
    by apply elem_of_visits.
Qed.

(** *** The keys of [object_pixels] and their minimum *)

Lemma elem_of_keys_object_pixels vs k :
  k ∈ PyDict.keys (object_pixels (scan_from scan_init vs)) ↔ k ∈ keys_seen vs.
Proof.
  rewrite wf_keys_dom by apply scan_init_wf. by rewrite dom_object_pixels.
Qed.

Lemma fold_left_min_spec l x :
  (fold_left Z.min l x = x ∨ fold_left Z.min l x ∈ l)
  ∧ fold_left Z.min l x ≤ x ∧ ∀ y, y ∈ l → fold_left Z.min l x ≤ y.
Proof.
  revert x. induction l as [|a l IH]; intros x; simpl.
  { split_and!; [by left|lia|by intros ? ?%elem_of_nil]. }
  destruct (IH (Z.min x a)) as (Hin & Hle & Hall). split_and!.
  - destruct Hin as [Hin|Hin]; [|right; by right].
    rewrite Hin. destruct (Z.min_spec x a) as [[_ ->]|[_ ->]]; [by left | right; left].
  - lia.
  - intros y [->|Hy]%elem_of_cons; [lia | by apply Hall].
Qed.

Lemma py_min_spec l mn :
  py_min l = Some mn ↔ mn ∈ l ∧ ∀ y, y ∈ l → mn ≤ y.
Proof.
  destruct l as [|x l]; simpl.
  { split; [done | by intros [?%elem_of_nil _]]. }
  destruct (fold_left_min_spec l x) as (Hin & Hle & Hall). split.
  - intros [= <-]. split.
    + destruct Hin as [->|Hin]; [left | by right].
    + intros y [->|Hy]%elem_of_cons; [done | by apply Hall].
  - intros [Hmn Hmin]. f_equal. apply Z.le_antisymm.
    + apply elem_of_cons in Hmn as [->|Hmn]; [done | by apply Hall].
    + apply Hmin. destruct Hin as [->|Hin]; [left | by right].
Qed.

Lemma py_min_is_Some l : is_Some (py_min l) ↔ l ≠ [].
Proof. destruct l; simpl; split; try done; by intros [? ?]. Qed.

Lemma py_max_is_Some l : is_Some (py_max l) ↔ l ≠ [].
Proof. destruct l; simpl; split; try done; by intros [? ?]. Qed.

End ScanFacts.

(** ** The checks of [comprehensive_check.py] *)

Module CheckerClaims.
Import Coco ComprehensiveCheck PyDictFacts ScanFacts.

Lemma bijection_report_confirmed st :
  bijection_report st = BijectionConfirmed ↔ bijection_check st = true.
Proof. unfold bijection_report. by destruct (bijection_check st). Qed.

(** C1.  After the scan of a mask, the bijection check confirms exactly
    when the number of distinct recorded colors equals the number of
    distinct decoded object keys; and whenever two different colors of the
    mask decode to the same key, the check fails and the report line
    "BIJECTION BROKEN" is produced with the two counts. *)
Theorem C1_bijection_check (m : mask) :
  (bijection_report (scan m) = BijectionConfirmed
   ↔ size (colors_seen (visits m)) = size (keys_seen (visits m)))
  ∧ (∀ y1 x1 y2 x2 k,
       (y1 < rows m)%nat → (x1 < cols m)%nat →
       (y2 < rows m)%nat → (x2 < cols m)%nat →
       at_ m y1 x1 ≠ at_ m y2 x2 →
       decode_pixel (at_ m y1 x1) = Object k →
       decode_pixel (at_ m y2 x2) = Object k →
       bijection_check (scan m) = false
       ∧ bijection_report (scan m)
         = BijectionBroken (size (colors_seen (visits m)))
                           (size (keys_seen (visits m)))
       ∧ (size (keys_seen (visits m)) < size (colors_seen (visits m)))%nat).
Proof.
  assert (Hcheck : bijection_check (scan m) = true
                   ↔ size (colors_seen (visits m)) = size (keys_seen (visits m))).
  { unfold bijection_check, scan.
    by rewrite bool_decide_eq_true, len_color_map, len_object_pixels. }
  split; [by rewrite bijection_report_confirmed|].
  intros y1 x1 y2 x2 k Hy1 Hx1 Hy2 Hx2 Hne Hd1 Hd2.
  assert (Hlt : (size (keys_seen (visits m)) < size (colors_seen (visits m)))%nat).
  { rewrite keys_seen_omap.
    apply (size_set_omap_collision _ _ (at_ m y1 x1) (at_ m y2 x2)); [| |done|].
    - apply elem_of_colors_seen. split; [apply elem_of_visits_pixels; eauto 6|].
      unfold key_of. by rewrite Hd1.
    - apply elem_of_colors_seen. split; [apply elem_of_visits_pixels; eauto 6|].
      unfold key_of. by rewrite Hd2.
    - unfold key_of. by rewrite Hd1, Hd2. }
  assert (Hfalse : bijection_check (scan m) = false).
  { apply not_true_is_false. rewrite Hcheck. lia. }
  split_and!; [done| |done].
  unfold bijection_report. rewrite Hfalse. unfold scan.
  by rewrite len_color_map, len_object_pixels.
Qed.

Definition two_colors_one_key : mask :=
  mask_of_rows 2 [[(1, 0, 5); (1, 7, 5)]].

Lemma C1_bijection_check_witness :
  bijection_check (scan two_colors_one_key) = false
  ∧ bijection_report (scan two_colors_one_key)
    = BijectionBroken (size (colors_seen (visits two_colors_one_key)))
                      (size (keys_seen (visits two_colors_one_key)))
  ∧ (size (keys_seen (visits two_colors_one_key))
     < size (colors_seen (visits two_colors_one_key)))%nat.
Proof.
  apply (proj2 (C1_bijection_check two_colors_one_key) 0%nat 0%nat 0%nat 1%nat ("unripe", 5));
    vm_compute; first [lia | done].
Defined.

(** The per-pixel message of line 67 is never printed by the scan: the key
    bound to a color is the key the color decodes to. *)
Lemma scan_prints_no_violation (m : mask) c bound seen :
  BijectionViolation c bound seen ∉ printed (scan m).
Proof.
  unfold scan. rewrite printed_scan, list_elem_of_omap.
  intros ([[y x] p] & _ & Hf). unfold fault_of in Hf.
  by destruct (decode_pixel p).
Qed.


(** *** Id offset *)

(** [mn] is the minimum instance id over the decoded object keys. *)
Definition is_min_id (vs : list (nat * nat * pixel)) (mn : Z) : Prop :=
  (∃ k, k ∈ keys_seen vs ∧ snd k = mn) ∧ ∀ k, k ∈ keys_seen vs → mn ≤ snd k.

Lemma all_ids_min vs mn :
  py_min (all_ids (scan_from scan_init vs)) = Some mn ↔ is_min_id vs mn.
Proof.
  rewrite py_min_spec. unfold all_ids, is_min_id.
  setoid_rewrite list_elem_of_fmap.
  setoid_rewrite elem_of_keys_object_pixels. split.
  - intros [(k & -> & Hk) Hmin]. split; [eauto|].
    intros k' Hk'. apply Hmin. eauto.
  - intros [(k & Hk & <-) Hmin]. split; [eauto|].
    intros y (k' & -> & Hk'). by apply Hmin.
Qed.

Lemma has_zero_true vs :
  has_zero (scan_from scan_init vs) = true ↔ ∃ t, (t, 0) ∈ keys_seen vs.
Proof.
  unfold has_zero. rewrite existsb_exists. split.
  - intros ([t i] & Hin & Heq). simpl in Heq. apply Z.eqb_eq in Heq as ->. exists t.
    by apply elem_of_keys_object_pixels, list_elem_of_In.
  - intros (t & Ht). exists (t, 0). split; [|done].
    by apply list_elem_of_In, elem_of_keys_object_pixels.
Qed.

Lemma id_offset_check_is_Some vs :
  is_Some (id_offset_check (scan_from scan_init vs)) ↔ ∃ k, k ∈ keys_seen vs.
Proof.
  unfold id_offset_check.
  assert (Hne : all_ids (scan_from scan_init vs) ≠ [] ↔ ∃ k, k ∈ keys_seen vs).
  { unfold all_ids. setoid_rewrite <- elem_of_keys_object_pixels.
    destruct (PyDict.keys _) as [|k l]; simpl; split; try done.
    - by intros [? ?%elem_of_nil].
    - intros _. exists k. left. }
  rewrite <- Hne. split.
  - intros [io Hio]. apply py_min_is_Some.
    destruct (py_min _); [done|discriminate].
  - intros Hl. pose proof Hl as Hl'.
    apply py_min_is_Some in Hl as [mn ->]. apply py_max_is_Some in Hl' as [mx ->].
    by eexists.
Qed.

(** C4.  For the scan of a mask, the id-offset check passes exactly when
    the minimum instance id over the decoded object keys exists and is at
    least 1 and no decoded key has instance id 0; a key decoded with
    instance id 0 makes the check fail with the "CRITICAL" line listing
    that key. *)
Theorem C4_id_offset_check (m : mask) :
  (id_offset_passed <$> id_offset_check (scan m) = Some true
   ↔ (∃ mn, is_min_id (visits m) mn ∧ 1 ≤ mn)
     ∧ ∀ k, k ∈ keys_seen (visits m) → snd k ≠ 0)
  ∧ (∀ t, (t, 0) ∈ keys_seen (visits m) →
       ∃ io objs, id_offset_check (scan m) = Some io
                  ∧ id_offset_passed io = false
                  ∧ zero_line io = CriticalIdZero objs
                  ∧ (t, 0) ∈ objs).
Proof.
  unfold scan. split.
  - unfold id_offset_check.
    destruct (py_min (all_ids (scan_from scan_init (visits m)))) as [mn|] eqn:Hmin;
      simpl.
    + assert (is_Some (py_max (all_ids (scan_from scan_init (visits m)))))
        as [mx ->].
      { apply py_max_is_Some. apply py_min_is_Some. by rewrite Hmin. }
      simpl. apply all_ids_min in Hmin.
      assert (Hz : has_zero (scan_from scan_init (visits m)) = false
                   ↔ ∀ k, k ∈ keys_seen (visits m) → snd k ≠ 0).
      { rewrite <- not_true_iff_false, has_zero_true. split.
        - intros Hno [t i] Hk Hi. simpl in Hi. subst i. eauto.
        - intros Hall [t Ht]. by apply (Hall _ Ht). }
      split.
      * intros [= [Hle Hnz]%andb_prop]. apply Z.leb_le in Hle.
        apply negb_true_iff in Hnz. split; [eauto|]. by apply Hz.
      * intros [(mn' & Hmin' & Hle) Hnz]. f_equal.
        assert (mn' = mn) as ->.
        { apply all_ids_min in Hmin, Hmin'. congruence. }
        apply andb_true_intro. split; [by apply Z.leb_le|].
        apply negb_true_iff. by apply Hz.
    + split; [done|]. intros [(mn & Hmn & _) _].
      apply all_ids_min in Hmn. congruence.
  - intros t Ht.
    destruct (proj2 (id_offset_check_is_Some (visits m))) as [io Hio]; [eauto|].
    assert (Hz : has_zero (scan_from scan_init (visits m)) = true)
      by (apply has_zero_true; eauto).
    exists io, (zero_objs (scan_from scan_init (visits m))).
    split; [done|]. unfold id_offset_check in Hio.
    destruct (py_min _) as [mn|]; [|done]. destruct (py_max _) as [mx|]; [|done].
    simpl in Hio. injection Hio as <-. simpl. rewrite Hz. split_and!.
    + by rewrite andb_false_r.
    + done.
    + unfold zero_objs. apply list_elem_of_filter. split; [done|].
      by apply elem_of_keys_object_pixels.
Qed.

Definition one_ripe_id0 : mask := mask_of_rows 2 [[(0, 4, 0); (1, 0, 3)]].

Lemma C4_id_offset_check_witness :
  ∃ io objs, id_offset_check (scan one_ripe_id0) = Some io
             ∧ id_offset_passed io = false
             ∧ zero_line io = CriticalIdZero objs
             ∧ ("ripe", 0) ∈ objs.
Proof.
  apply (proj2 (C4_id_offset_check one_ripe_id0) "ripe").
  apply elem_of_keys_seen. exists (0, 4, 0). split; [|done].
  apply elem_of_visits_pixels. exists 0%nat, 0%nat. vm_compute. auto.
Defined.


(** *** Decoding one pixel *)

Lemma decode_pixel_background p : decode_pixel p = Background ↔ p = (0, 0, 0).
Proof.
  destruct p as [[b g] r]. unfold decode_pixel, decode. split.
  - destruct (b =? 0) eqn:Hb, (g =? 0) eqn:Hg, (r =? 0) eqn:Hr; simpl;
      try (apply Z.eqb_eq in Hb, Hg, Hr; by subst);
      destruct (b =? 3), (b =? 1), (b =? 2); simpl; done.
  - by intros [= -> -> ->].
Qed.

(** C5.  The pixel (0,0,0) decodes to background under the category-in-B
    decoder of the checker, and to instance id 0, which is dropped as
    background, under the id-in-R/G instance map; every other pixel whose
    category channel is 0, 1, 2 or 3 decodes to an object key: the peduncle
    with the G channel as id when the category is 3, otherwise the
    strawberry type of that category with the R channel as id. *)
Theorem C5_background_reserved (b g r : Z) :
  decode_pixel (0, 0, 0) = Background
  ∧ VisualizeSample.instance_of (0, 0, 0) = 0
  ∧ (∀ m, 0 ∉ VisualizeSample.unique_ids m)
  ∧ (decode_pixel (b, g, r) = Background ↔ (b, g, r) = (0, 0, 0))
  ∧ ((b, g, r) ≠ (0, 0, 0) → b ∈ [0; 1; 2; 3] →
     ∃ k, decode_pixel (b, g, r) = Object k
          ∧ fst k ∈ ["ripe"; "unripe"; "half_ripe"; "peduncle"]
          ∧ snd k = if b =? 3 then g else r).
Proof.
  split_and!; [done|done| |apply decode_pixel_background|].
  - intros m. unfold VisualizeSample.unique_ids.
    rewrite elem_of_list_to_set, list_elem_of_filter. lia.
  - intros Hne Hb.
    destruct (decode_pixel (b, g, r)) as [|k|b'] eqn:Hd.
    + by apply decode_pixel_background in Hd.
    + exists k. split; [done|]. unfold decode_pixel, decode in Hd.
      destruct ((b =? 0) && (g =? 0) && (r =? 0)); [done|].
      set_unfold in Hb.
      destruct Hb as [->|[->|[->|[->|[]]]]]; simpl in Hd; injection Hd as <-;
        simpl; split; try done; set_solver.
    + unfold decode_pixel, decode in Hd.
      destruct ((b =? 0) && (g =? 0) && (r =? 0)); [done|].
      set_unfold in Hb. by destruct Hb as [->|[->|[->|[->|[]]]]].
Qed.

Lemma C5_background_reserved_witness :
  ∃ k, decode_pixel (3, 9, 0) = Object k
       ∧ fst k ∈ ["ripe"; "unripe"; "half_ripe"; "peduncle"]
       ∧ snd k = if 3 =? 3 then 9 else 0.
Proof.
  apply (proj2 (proj2 (proj2 (proj2 (C5_background_reserved 3 9 0))))); [done|].
  set_solver.
Defined.

(** *** Decode faults *)

Lemma scan_from_dicts st st' vs :
  color_map st = color_map st' → object_pixels st = object_pixels st' →
  color_map (scan_from st vs) = color_map (scan_from st' vs)
  ∧ object_pixels (scan_from st vs) = object_pixels (scan_from st' vs).
Proof.
  intros Hc Ho. induction vs as [|v vs [IHc IHo]] using rev_ind; [done|].
  rewrite !scan_from_snoc, !scan_step_color_map, !scan_step_object_pixels.
  by rewrite IHc, IHo.
Qed.

Lemma scan_from_cons st v vs :
  scan_from st (v :: vs) = scan_from (scan_step st v) vs.
Proof. done. Qed.

(** C6.  A pixel whose category channel is outside {0,1,2,3} is a decode
    fault: the scan prints one line with the channel value and the pixel's
    coordinates, leaves the color map and the pixel counts as they were,
    and goes on with the remaining pixels; the faults of a whole scan are
    the faults of its pixels, in scan order. *)
Theorem C6_decode_fault (y x : nat) (b g r : Z) :
  b ∉ [0; 1; 2; 3] →
  decode_pixel (b, g, r) = Fault b
  ∧ (∀ st, scan_step st (y, x, (b, g, r))
           = ScanState (color_map st) (object_pixels st)
                       (printed st ++ [InvalidCategory b x y]))
  ∧ (∀ pre post,
       let st := scan_from scan_init (pre ++ (y, x, (b, g, r)) :: post) in
       color_map st = color_map (scan_from scan_init (pre ++ post))
       ∧ object_pixels st = object_pixels (scan_from scan_init (pre ++ post))
       ∧ printed st = printed (scan_from scan_init pre)
                      ++ InvalidCategory b x y
                      :: omap fault_of post).
Proof.
  intros Hb.
  assert (Hd : decode_pixel (b, g, r) = Fault b).
  { unfold decode_pixel, decode. set_unfold in Hb.
    destruct (b =? 0) eqn:H0; [apply Z.eqb_eq in H0; tauto|].
    destruct (b =? 1) eqn:H1; [apply Z.eqb_eq in H1; tauto|].
    destruct (b =? 2) eqn:H2; [apply Z.eqb_eq in H2; tauto|].
    destruct (b =? 3) eqn:H3; [apply Z.eqb_eq in H3; tauto|]. done. }
  assert (Hstep : ∀ st, scan_step st (y, x, (b, g, r))
            = ScanState (color_map st) (object_pixels st)
                        (printed st ++ [InvalidCategory b x y])).
  { intros st. unfold scan_step. by rewrite Hd. }
  split_and!; [done|done|]. intros pre post st. subst st.
  rewrite !scan_from_app, scan_from_cons, Hstep.
  destruct (scan_from_dicts
              (ScanState (color_map (scan_from scan_init pre))
                         (object_pixels (scan_from scan_init pre))
                         (printed (scan_from scan_init pre) ++ [InvalidCategory b x y]))
              (scan_from scan_init pre) post) as [Hc Ho]; [done|done|].
  split_and!; [done|done|].
  rewrite <- Hstep, <- scan_from_snoc, <- scan_from_app, !printed_scan.
  rewrite !omap_app, <- app_assoc. f_equal.
  change (omap fault_of [(y, x, (b, g, r))])
    with (option_list (fault_of (y, x, (b, g, r)))).
  unfold fault_of. by rewrite Hd.
Qed.

Lemma C6_decode_fault_witness :
  decode_pixel (9, 1, 1) = Fault 9
  ∧ (∀ st, scan_step st (1%nat, 2%nat, (9, 1, 1))
           = ScanState (color_map st) (object_pixels st)
                       (printed st ++ [InvalidCategory 9 2 1]))
  ∧ (∀ pre post,
       let st := scan_from scan_init (pre ++ (1%nat, 2%nat, (9, 1, 1)) :: post) in
       color_map st = color_map (scan_from scan_init (pre ++ post))
       ∧ object_pixels st = object_pixels (scan_from scan_init (pre ++ post))
       ∧ printed st = printed (scan_from scan_init pre)
                      ++ InvalidCategory 9 2 1
                      :: omap fault_of post).
Proof. apply (C6_decode_fault 1 2 9 1 1). set_unfold. lia. Defined.


(** *** Scan order *)

(** C8.  The two loops visit each coordinate of the mask once, and for any
    other order of the same visits the scan ends with the same pixel count
    per object key, the same set of recorded colors and the same report
    line; the key bound to a color is the key the color decodes to, so the
    color map is the same mapping as well. *)
Theorem C8_scan_order (m : mask) :
  NoDup (fst <$> visits m)
  ∧ length (visits m) = (rows m * cols m)%nat
  ∧ (∀ y x p, (y, x, p) ∈ visits m
              ↔ (y < rows m)%nat ∧ (x < cols m)%nat ∧ p = at_ m y x)
  ∧ ∀ vs, vs ≡ₚ visits m →
      d_map (object_pixels (scan_from scan_init vs)) = d_map (object_pixels (scan m))
      ∧ dom (d_map (color_map (scan_from scan_init vs)))
        = dom (d_map (color_map (scan m)))
      ∧ d_map (color_map (scan_from scan_init vs)) = d_map (color_map (scan m))
      ∧ (∀ c k, d_map (color_map (scan_from scan_init vs)) !! c = Some k
                → key_of c = Some k)
      ∧ bijection_report (scan_from scan_init vs) = bijection_report (scan m)
      ∧ printed (scan_from scan_init vs) ≡ₚ printed (scan m).
Proof.
  split_and!; [apply visits_NoDup|apply visits_length|apply elem_of_visits|].
  intros vs Hp. unfold scan.
  pose proof (scan_perm_object_pixels _ _ Hp) as Ho.
  pose proof (scan_perm_color_map _ _ Hp) as Hc.
  split_and!; [done|by rewrite Hc|done| | |].
  - intros c k. rewrite color_map_lookup. by destruct (decide _).
  - unfold bijection_report, bijection_check, PyDict.len. by rewrite Ho, Hc.
  - rewrite !printed_scan. by rewrite Hp.
Qed.

Lemma C8_scan_order_witness :
  let vs := reverse (visits two_colors_one_key) in
  d_map (object_pixels (scan_from scan_init vs))
  = d_map (object_pixels (scan two_colors_one_key))
  ∧ dom (d_map (color_map (scan_from scan_init vs)))
    = dom (d_map (color_map (scan two_colors_one_key)))
  ∧ d_map (color_map (scan_from scan_init vs))
    = d_map (color_map (scan two_colors_one_key))
  ∧ (∀ c k, d_map (color_map (scan_from scan_init vs)) !! c = Some k
            → key_of c = Some k)
  ∧ bijection_report (scan_from scan_init vs)
    = bijection_report (scan two_colors_one_key)
  ∧ printed (scan_from scan_init vs) ≡ₚ printed (scan two_colors_one_key).
Proof.
  apply (proj2 (proj2 (proj2 (C8_scan_order two_colors_one_key)))).
  apply reverse_Permutation.
Defined.

(** The iteration order of the two dictionaries does follow the visits. *)
Example keys_follow_scan_order :
  PyDict.keys (color_map (scan two_colors_one_key)) = [(1, 0, 5); (1, 7, 5)]
  ∧ PyDict.keys (color_map (scan_from scan_init (reverse (visits two_colors_one_key))))
    = [(1, 7, 5); (1, 0, 5)].
Proof. by vm_compute. Qed.

(** *** A mask without objects *)

Lemma keys_seen_empty vs :
  (∀ v, v ∈ vs → key_of (snd v) = None) → keys_seen vs = ∅.
Proof.
  intros Hall. apply set_eq. intros k. rewrite elem_of_keys_seen. split; [|set_solver].
  intros (p & (v & -> & Hv)%list_elem_of_fmap & Hk). rewrite (Hall _ Hv) in Hk. done.
Qed.

(** C10.  On a mask all of whose pixels are (0,0,0) the list of decoded
    ids is empty, [min] raises, and the run ends in an exception without a
    summary (the [ValueError] of [min], unless an annotation record with a
    category id outside the category list has raised before); a run that
    reaches the summary has met an object pixel in the mask. *)
Theorem C10_empty_mask_raises (m : mask) (annotations : list annotation)
    (sample_id : Z) :
  ((∀ y x, (y < rows m)%nat → (x < cols m)%nat → at_ m y x = (0, 0, 0)) →
   all_ids (scan m) = []
   ∧ id_offset_check (scan m) = None
   ∧ (∀ r, verify_dataset m annotations sample_id ≠ Finished r)
   ∧ (is_Some (json_objects (anns_of annotations sample_id)) →
      verify_dataset m annotations sample_id = Raised ValueError))
  ∧ (∀ r, verify_dataset m annotations sample_id = Finished r →
       ∃ y x k, (y < rows m)%nat ∧ (x < cols m)%nat
                ∧ decode_pixel (at_ m y x) = Object k).
Proof.
  split.
  - intros Hbg.
    assert (Hk : keys_seen (visits m) = ∅).
    { apply keys_seen_empty. intros [[y x] p] (Hy & Hx & ->)%elem_of_visits.
      simpl. by rewrite Hbg. }
    assert (Hids : all_ids (scan m) = []).
    { unfold all_ids, scan.
      destruct (PyDict.keys _) as [|k l] eqn:Hkeys; [done|].
      assert (Hin : k ∈ keys_seen (visits m)).
      { apply elem_of_keys_object_pixels. rewrite Hkeys. left. }
      rewrite Hk in Hin. set_solver. }
    assert (Hio : id_offset_check (scan m) = None).
    { unfold id_offset_check. by rewrite Hids. }
    split_and!; [done|done| |].
    + intros r. unfold verify_dataset. rewrite Hio. by destruct (json_objects _).
    + intros [json Hjson]. unfold verify_dataset. by rewrite Hjson, Hio.
  - intros r Hrun. unfold verify_dataset in Hrun.
    destruct (json_objects _); [|done].
    destruct (id_offset_check (scan m)) as [io|] eqn:Hio; [|done].
    assert (His : is_Some (id_offset_check (scan m))) by (by rewrite Hio).
    apply id_offset_check_is_Some in His as (k & (p & Hp & Hk)%elem_of_keys_seen).
    apply elem_of_visits_pixels in Hp as (y & x & Hy & Hx & <-).
    exists y, x, k. split_and!; [done|done|].
    unfold key_of in Hk. destruct (decode_pixel _) as [|k'|]; [done| |done].
    by injection Hk as ->.
Qed.

Definition all_background : mask :=
  mask_of_rows 2 [[(0, 0, 0); (0, 0, 0)]; [(0, 0, 0); (0, 0, 0)]].

Lemma C10_empty_mask_raises_witness :
  all_ids (scan all_background) = []
  ∧ id_offset_check (scan all_background) = None
  ∧ (∀ r, verify_dataset all_background [Annotation 1 1 0 20 1] 1 ≠ Finished r)
  ∧ (is_Some (json_objects (anns_of [Annotation 1 1 0 20 1] 1)) →
     verify_dataset all_background [Annotation 1 1 0 20 1] 1 = Raised ValueError).
Proof.
  apply (proj1 (C10_empty_mask_raises all_background [Annotation 1 1 0 20 1] 1)).
  intros [|[|y]] [|[|x]] Hy Hx; vm_compute in Hy, Hx; first [done | lia].
Defined.

End CheckerClaims.

(** ** The pixel threshold check *)

Module ThresholdClaims.
Import Coco ComprehensiveCheck PyDictFacts ScanFacts.

(** One object of 20 pixels: ("ripe", 1). *)
Definition twenty_pixels : mask :=
  mask_of_rows 5 (replicate 4 (replicate 5 (0, 0, 1))).

Lemma elem_of_anns_of annotations sample_id ann :
  ann ∈ anns_of annotations sample_id ↔ ann ∈ annotations ∧ image_id ann = sample_id.
Proof. unfold anns_of. rewrite list_elem_of_filter. tauto. Qed.

Lemma elem_of_violations anns i c a :
  (i, c, a) ∈ violations anns
  ↔ a < 15 ∧ ∃ ann, ann ∈ anns ∧ instance_id ann = i ∧ category_id ann = c
                    ∧ area ann = a.
Proof.
  unfold violations. rewrite list_elem_of_fmap. split.
  - intros (ann & [= -> -> ->] & [Hlt Hann]%list_elem_of_filter). eauto 10.
  - intros (Hlt & ann & Hann & <- & <- & <-). exists ann. split; [done|].
    by apply list_elem_of_filter.
Qed.

Lemma threshold_applied_true anns :
  threshold_applied anns = true ↔ ∀ ann, ann ∈ anns → 15 ≤ area ann.
Proof.
  unfold threshold_applied. rewrite bool_decide_eq_true, length_zero_iff_nil. split.
  - intros Hnil ann Hin. destruct (decide (area ann < 15)) as [Hlt|]; [|lia].
    assert (Hv : (instance_id ann, category_id ann, area ann) ∈ violations anns)
      by (apply elem_of_violations; eauto 10).
    rewrite Hnil in Hv. by apply elem_of_nil in Hv.
  - intros Hall. destruct (violations anns) as [|[[i c] a] l] eqn:Hv; [done|].
    assert (Hin : (i, c, a) ∈ violations anns) by (rewrite Hv; left).
    apply elem_of_violations in Hin as (Hlt & ann & Hann & _ & _ & <-).
    specialize (Hall ann Hann). lia.
Qed.

(** The verdict of the threshold check reads the annotation areas alone:
    it passes exactly when every annotation record of the image has area
    at least 15, and the mask plays no part in it. *)
Lemma threshold_verdict_reads_areas_only (annotations : list annotation) (sample_id : Z) :
  threshold_applied (anns_of annotations sample_id) = true
  ↔ ∀ ann, ann ∈ annotations → image_id ann = sample_id → 15 ≤ area ann.
Proof.
  rewrite threshold_applied_true. setoid_rewrite elem_of_anns_of. naive_solver.
Qed.

(** C2, at an input where the code departs from it.  The mask holds one
    object, ("ripe", 1), of 20 pixels, and the annotation file has no
    record for the image.  The run finishes with every summary entry
    passed, "Threshold Applied" among them, and prints no violation; the
    object is printed in the sample of filtered objects, whose heading
    calls them below 15 pixels and correctly excluded. *)
Theorem C2_unannotated_object_passes :
  ∃ r, verify_dataset twenty_pixels [] 1 = Finished r
       ∧ ("Threshold Applied", true) ∈ checks r
       ∧ all_passed r = true
       ∧ threshold_violations r = []
       ∧ unique_objects r = 1%nat
       ∧ objects_in_json r = 0%nat
       ∧ filtered_sample r = [("ripe", 1, 20%nat)].
Proof.
  assert (Hio : ∃ io, id_offset_check (scan twenty_pixels) = Some io
                      ∧ id_offset_passed io = true) by (vm_compute; eauto).
  destruct Hio as (io & Hio & Hpassed).
  eexists. split.
  { unfold verify_dataset. simpl anns_of.
    change (json_objects (filter _ [])) with (Some (∅ : gset object_key)).
    rewrite Hio. reflexivity. }
  cbn [checks all_passed threshold_violations unique_objects objects_in_json
       filtered_sample].
  split_and!.
  - unfold summary_checks. change (threshold_applied []) with true. do 3 right. left.
  - unfold summary_checks. cbn [forallb snd]. rewrite Hpassed. by vm_compute.
  - done.
  - by vm_compute.
  - by vm_compute.
  - by vm_compute.
Qed.

End ThresholdClaims.

(** ** Pairing strawberries with peduncles *)

Module PairingClaims.
Import Coco TestDatasetFunctions PyDictFacts.

Section OfList.
Context {K V : Type} `{Countable K}.
Implicit Types (d : dict K V) (l : list (K * V)).

Lemma fold_set_lookup l d k v :
  d_map (fold_left (fun d kv => PyDict.set (fst kv) (snd kv) d) l d) !! k = Some v →
  (k, v) ∈ l ∨ d_map d !! k = Some v.
Proof.
  revert d. induction l as [|[k' v'] l IH]; intros d; simpl; [auto|].
  intros [Hin|Hd]%IH; [left; by right|].
  simpl in Hd. destruct (decide (k' = k)) as [->|Hne].
  - rewrite lookup_insert_eq in Hd. injection Hd as ->. left. left.
  - rewrite lookup_insert_ne in Hd by done. by right.
Qed.

Lemma fold_set_is_Some l d k :
  is_Some (d_map (fold_left (fun d kv => PyDict.set (fst kv) (snd kv) d) l d) !! k)
  ↔ k ∈ fst <$> l ∨ is_Some (d_map d !! k).
Proof.
  revert d. induction l as [|[k' v'] l IH]; intros d; simpl.
  { split; [auto|]. by intros [?%elem_of_nil|]. }
  rewrite IH. simpl. rewrite lookup_insert_is_Some, elem_of_cons.
  destruct (decide (k' = k)); naive_solver.
Qed.

Lemma of_list_lookup l k v :
  PyDict.get k (PyDict.of_list l) = Some v → (k, v) ∈ l.
Proof.
  unfold PyDict.get, PyDict.of_list. intros [?|Hd]%fold_set_lookup; [done|].
  simpl in Hd. by rewrite lookup_empty in Hd.
Qed.

Lemma of_list_is_Some l k :
  is_Some (PyDict.get k (PyDict.of_list l)) ↔ k ∈ fst <$> l.
Proof.
  unfold PyDict.get, PyDict.of_list. rewrite fold_set_is_Some. simpl.
  rewrite lookup_empty. split; [|auto]. by intros [?|[? ?]].
Qed.
End OfList.

(** The strawberry and peduncle records of an image, as
    [find_matching_pairs] selects them. *)
Definition strawberries (annotations : list annotation) (image_id : Z) :=
  filter (fun a => category_id a ∈ [0; 1; 2])
         (get_annotations_for_image annotations image_id).
Definition peduncles (annotations : list annotation) (image_id : Z) :=
  filter (fun a => category_id a = 3)
         (get_annotations_for_image annotations image_id).

Lemma elem_of_strawberries annotations img s :
  s ∈ strawberries annotations img
  ↔ s ∈ annotations ∧ Coco.image_id s = img ∧ category_id s ∈ [0; 1; 2].
Proof.
  unfold strawberries, get_annotations_for_image.
  rewrite !list_elem_of_filter. tauto.
Qed.

Lemma elem_of_peduncles annotations img p :
  p ∈ peduncles annotations img
  ↔ p ∈ annotations ∧ Coco.image_id p = img ∧ category_id p = 3.
Proof.
  unfold peduncles, get_annotations_for_image.
  rewrite !list_elem_of_filter. tauto.
Qed.

Definition peduncle_map (annotations : list annotation) (image_id : Z)
  : dict Z annotation :=
  PyDict.of_list ((fun p => (instance_id p, p)) <$> peduncles annotations image_id).

Lemma fold_pairs (pm : dict Z annotation) l acc :
  fold_left (fun pairs straw =>
               match PyDict.get (parent_id straw) pm with
               | Some p => pairs ++ [(straw, p)]
               | None => pairs
               end) l acc
  = acc ++ omap (fun straw => pair straw <$> PyDict.get (parent_id straw) pm) l.
Proof.
  revert acc. induction l as [|s l IH]; intros acc; simpl.
  { by rewrite app_nil_r. }
  rewrite IH. destruct (PyDict.get (parent_id s) pm); simpl; [|done].
  by rewrite <- app_assoc.
Qed.

Lemma find_matching_pairs_omap annotations img :
  find_matching_pairs annotations img
  = omap (fun straw =>
            pair straw <$> PyDict.get (parent_id straw) (peduncle_map annotations img))
         (strawberries annotations img).
Proof. unfold find_matching_pairs. by rewrite fold_pairs. Qed.

Lemma peduncle_map_lookup annotations img i p :
  PyDict.get i (peduncle_map annotations img) = Some p →
  p ∈ peduncles annotations img ∧ instance_id p = i.
Proof.
  intros Hget%of_list_lookup.
  apply list_elem_of_fmap in Hget as (p' & [= -> ->] & Hp). done.
Qed.

Lemma peduncle_map_is_Some annotations img i :
  is_Some (PyDict.get i (peduncle_map annotations img))
  ↔ ∃ p, p ∈ peduncles annotations img ∧ instance_id p = i.
Proof.
  unfold peduncle_map. rewrite of_list_is_Some, <- list_fmap_compose.
  rewrite list_elem_of_fmap. naive_solver.
Qed.

(** [find_matching_pairs] pairs a strawberry record of the image
    exactly when its [parent_id] is the [instance_id] of some peduncle
    record of the same image, and each pair it reports joins such a
    strawberry with such a peduncle, one pair per paired strawberry.  With
    one strawberry whose [parent_id] is 7 and one peduncle whose
    [instance_id] is 7 in the image, exactly that one pair is reported;
    without the peduncle record no pair is reported. *)
Theorem find_matching_pairs_by_parent_id (annotations : list annotation) (img : Z) :
  (∀ s, s ∈ annotations → Coco.image_id s = img → category_id s ∈ [0; 1; 2] →
     ((∃ p, (s, p) ∈ find_matching_pairs annotations img)
      ↔ ∃ p, p ∈ annotations ∧ Coco.image_id p = img ∧ category_id p = 3
             ∧ instance_id p = parent_id s))
  ∧ (∀ s p, (s, p) ∈ find_matching_pairs annotations img →
       s ∈ annotations ∧ Coco.image_id s = img ∧ category_id s ∈ [0; 1; 2]
       ∧ p ∈ annotations ∧ Coco.image_id p = img ∧ category_id p = 3
       ∧ instance_id p = parent_id s)
  ∧ length (find_matching_pairs annotations img)
    = length (filter (fun s => parent_id s ∈ instance_id <$> peduncles annotations img)
                     (strawberries annotations img))
  ∧ (∀ s p, category_id s ∈ [0; 1; 2] → parent_id s = 7 → Coco.image_id s = img →
       category_id p = 3 → instance_id p = 7 → Coco.image_id p = img →
       find_matching_pairs [s; p] img = [(s, p)]
       ∧ find_matching_pairs [s] img = []).
Proof.
  assert (Hmem : ∀ s p, (s, p) ∈ find_matching_pairs annotations img
            ↔ s ∈ strawberries annotations img
              ∧ PyDict.get (parent_id s) (peduncle_map annotations img) = Some p).
  { intros s p. rewrite find_matching_pairs_omap, list_elem_of_omap. split.
    - intros (s' & Hs' & Heq).
      destruct (PyDict.get (parent_id s') _) as [p'|] eqn:Hget; [|done].
      simpl in Heq. by injection Heq as -> ->.
    - intros [Hs Hget]. exists s. by rewrite Hget. }
  split_and!.
  - intros s Hs Himg Hcat. setoid_rewrite Hmem. split.
    + intros (p & _ & [Hp Hid]%peduncle_map_lookup).
      apply elem_of_peduncles in Hp. naive_solver.
    + intros (p & Hp & Hpi & Hpc & Hid).
      destruct (proj2 (peduncle_map_is_Some annotations img (parent_id s)))
        as [p' Hp'].
      { exists p. split; [by apply elem_of_peduncles|done]. }
      exists p'. split; [by apply elem_of_strawberries|done].
  - intros s p [Hs [Hp Hid]%peduncle_map_lookup]%Hmem.
    apply elem_of_strawberries in Hs. apply elem_of_peduncles in Hp. naive_solver.
  - clear Hmem. rewrite find_matching_pairs_omap.
    induction (strawberries annotations img) as [|s l IH]; [done|].
    rewrite filter_cons.
    change (omap ?f (s :: l))
      with (match f s with Some y => y :: omap f l | None => omap f l end).
    destruct (decide (parent_id s ∈ instance_id <$> peduncles annotations img))
      as [Hin|Hin].
    + destruct (proj2 (peduncle_map_is_Some annotations img (parent_id s)))
        as [p' Hp'].
      { apply list_elem_of_fmap in Hin as (p & -> & Hp). eauto. }
      rewrite Hp'. cbn [fmap option_fmap option_map length]. by rewrite IH.
    + destruct (PyDict.get (parent_id s) _) as [p'|] eqn:Hget; [|done].
      apply peduncle_map_lookup in Hget as [Hp Hid]. destruct Hin.
      apply list_elem_of_fmap. eauto.
  - intros s p Hcs Hps His Hcp Hip Hpi.
    unfold find_matching_pairs, get_annotations_for_image.
    assert (Hnot3 : category_id s ≠ 3) by (set_unfold; lia).
    assert (Hnot : category_id p ∉ [0; 1; 2]) by (rewrite Hcp; set_unfold; lia).
    rewrite !filter_cons, !filter_nil.
    rewrite !(decide_True (P := Coco.image_id s = img)) by done.
    rewrite !(decide_True (P := Coco.image_id p = img)) by done.
    rewrite !filter_cons, !filter_nil.
    rewrite !(decide_True (P := category_id s ∈ [0; 1; 2])) by done.
    rewrite !(decide_False (P := category_id s = 3)) by done.
    rewrite !(decide_False (P := category_id p ∈ [0; 1; 2])) by done.
    rewrite !(decide_True (P := category_id p = 3)) by done.
    simpl. unfold PyDict.get, PyDict.of_list. simpl.
    rewrite Hps, Hip, lookup_insert_eq, lookup_empty. done.
Qed.

Lemma find_matching_pairs_by_parent_id_witness :
  find_matching_pairs [Annotation 1 4 0 120 7; Annotation 1 7 3 40 0] 1
  = [(Annotation 1 4 0 120 7, Annotation 1 7 3 40 0)]
  ∧ find_matching_pairs [Annotation 1 4 0 120 7] 1 = [].
Proof.
  apply (proj2 (proj2 (proj2 (find_matching_pairs_by_parent_id [] 1)))); simpl; try done;
    set_unfold; lia.
Defined.


End PairingClaims.

(** ** The metadata shard reconciler *)

Module ReconcilerClaims.
Import VerifyIncrementalMetadata PyDictFacts.

(** A metadata record with its depth range, both depths floats. *)
Definition depth_record (min_meters max_meters : float) : json :=
  JObject [("depth_range",
            JObject [("min_meters", JFloat min_meters);
                     ("max_meters", JFloat max_meters)])].

(** One shard and its master entry: the same minimum depth, maximum depths
    5 m and 9 m. *)
Definition max_depth_differs : dataset :=
  Dataset [("00001_meta.json", inr (depth_record 0.5 5))]
          (fun name => bool_decide (name = "00001_meta.json"))
          (Parsed (PyDict.of_list [("00001.png", depth_record 0.5 9)]))
          (Parsed ["00001.png"]).

(** C7, at an input where the code departs from it.  The shard and the
    master entry of image 00001.png differ in their maximum depth by 4 m,
    far beyond the tolerance, and the reconciler reports no error: only
    [min_meters] is compared. *)
Theorem C7_max_depth_not_compared :
  verify_dataset max_depth_differs = Reported []
  ∧ depth_differs 5 9 = true.
Proof. by vm_compute. Qed.

End ReconcilerClaims.

(** ** Splitting and joining the archive *)

Module SplitClaims.
Import SplitDataset VerifySplit.

(** *** Part names *)

(** Reading a decimal string back (leading zeros allowed). *)
Definition parse_nat (s : string) : option nat :=
  Nat.of_uint <$> NilEmpty.uint_of_string s.

Lemma uint_of_string_zeros k s :
  NilEmpty.uint_of_string (PyStr.zeros k +:+ s)
  = Nat.iter k Decimal.D0 <$> NilEmpty.uint_of_string s.
Proof.
  induction k as [|k IH].
  - change (PyStr.zeros 0 +:+ s) with s.
    by destruct (NilEmpty.uint_of_string s).
  - change (PyStr.zeros (S k) +:+ s) with (String "0" (PyStr.zeros k +:+ s)).
    cbn [NilEmpty.uint_of_string]. rewrite IH.
    by destruct (NilEmpty.uint_of_string s).
Qed.

Lemma of_uint_zeros k d : Nat.of_uint (Nat.iter k Decimal.D0 d) = Nat.of_uint d.
Proof. induction k as [|k IH]; [done|]. simpl. exact IH. Qed.

Lemma parse_format_03d n : parse_nat (PyStr.format_03d n) = Some n.
Proof.
  unfold parse_nat, PyStr.format_03d, PyStr.zfill.
  rewrite uint_of_string_zeros, NilEmpty.usu. simpl.
  by rewrite of_uint_zeros, Unsigned.of_to.
Qed.

Lemma format_03d_inj i j : PyStr.format_03d i = PyStr.format_03d j → i = j.
Proof.
  intros Heq. pose proof (parse_format_03d i) as Hi.
  rewrite Heq, parse_format_03d in Hi. by injection Hi.
Qed.

Lemma part_name_inj file_path i j :
  part_name file_path i = part_name file_path j → i = j.
Proof.
  unfold part_name. intros Heq.
  apply String.app_inj, String.app_inj in Heq. by apply format_03d_inj.
Qed.

Lemma string_length_app (s1 s2 : string) :
  String.length (s1 +:+ s2) = (String.length s1 + String.length s2)%nat.
Proof.
  induction s1 as [|c s1 IH]; [done|].
  change (String c s1 +:+ s2) with (String c (s1 +:+ s2)). simpl. by rewrite IH.
Qed.

Lemma part_name_not_file file_path i : part_name file_path i ≠ file_path.
Proof.
  unfold part_name. intros Heq.
  assert (Hlen : String.length (file_path +:+ "." +:+ PyStr.format_03d i)
                 = String.length file_path) by (by rewrite Heq).
  rewrite !string_length_app in Hlen. simpl in Hlen. lia.
Qed.


(** *** The splitting loop *)

Lemma split_loop_unfold chunk_size file_path rest part_num fs :
  split_loop chunk_size file_path rest part_num fs
  = match f_read chunk_size rest with
    | ([], _) => fs
    | (b :: chunk, rest') =>
        split_loop chunk_size file_path rest' (S part_num)
                   (<[part_name file_path part_num := b :: chunk]> fs)
    end.
Proof.
  funelim (split_loop chunk_size file_path rest part_num fs).
  - by rewrite e.
  - by rewrite Hread.
Qed.

(** Writing a list of parts under consecutive part numbers. *)
Fixpoint write_parts (file_path : string) (part_num : nat)
    (parts : list (list Byte.byte)) (fs : files) : files :=
  match parts with
  | [] => fs
  | chunk :: parts' =>
      write_parts file_path (S part_num) parts'
                  (<[part_name file_path part_num := chunk]> fs)
  end.

(** What the parts of a split into chunks of [n] bytes look like. *)
Definition chunked (n : nat) (parts : list (list Byte.byte)) : Prop :=
  (∀ c, c ∈ parts → (0 < length c ≤ n)%nat)
  ∧ ∀ i c, parts !! i = Some c → (S i < length parts)%nat → length c = n.

Lemma split_loop_spec chunk_size file_path rest part_num fs :
  0 < chunk_size →
  ∃ parts, split_loop chunk_size file_path rest part_num fs
           = write_parts file_path part_num parts fs
           ∧ concat parts = rest
           ∧ chunked (Z.to_nat chunk_size) parts.
Proof.
  intros Hpos. remember (length rest) as len eqn:Hlen.
  revert rest part_num fs Hlen.
  induction len as [len IH] using lt_wf_ind. intros rest part_num fs ->.
  rewrite split_loop_unfold. unfold f_read.
  destruct (chunk_size <? 0) eqn:Hneg; [apply Z.ltb_lt in Hneg; lia|].
  set (n := Z.to_nat chunk_size). assert (Hn : (0 < n)%nat) by lia.
  destruct (take n rest) as [|b chunk] eqn:Htake.
  - exists []. split_and!; [done| |split; [by intros ? ?%elem_of_nil|done]].
    destruct rest as [|x rest]; [done|]. destruct n; [lia|done].
  - destruct (IH (length (drop n rest))) with (rest := drop n rest)
        (part_num := S part_num)
        (fs := <[part_name file_path part_num := b :: chunk]> fs)
      as (parts & Hloop & Hcat & Hsize & Hfull); [|done|].
    { rewrite length_drop. destruct rest; [by rewrite take_nil in Htake|]. simpl. lia. }
    exists ((b :: chunk) :: parts). split_and!.
    + by rewrite Hloop.
    + cbn [concat]. by rewrite Hcat, <- Htake, take_drop.
    + split.
      * intros c [->|Hc]%elem_of_cons; [|by apply Hsize].
        rewrite <- Htake, length_take. split; [|lia].
        assert (length (take n rest) ≠ 0%nat) by (by rewrite Htake). 
        rewrite length_take in *. lia.
      * intros [|i] c Hi Hlt; simpl in *.
        -- injection Hi as <-. rewrite <- Htake, length_take.
           destruct parts as [|c' parts]; [simpl in Hlt; lia|].
           assert (Hc' : (0 < length c')%nat) by (apply Hsize; left).
           assert (Hd : (length (drop n rest) ≠ 0)%nat).
           { rewrite <- Hcat. simpl. rewrite length_app. lia. }
           rewrite length_drop in Hd. lia.
        -- apply (Hfull i c Hi). lia.
Qed.

Lemma write_parts_lookup_part file_path part_num parts fs j :
  write_parts file_path part_num parts fs !! part_name file_path j
  = if decide (part_num ≤ j < part_num + length parts)%nat
    then parts !! (j - part_num)%nat
    else fs !! part_name file_path j.
Proof.
  revert part_num fs. induction parts as [|c parts IH]; intros part_num fs; simpl.
  { rewrite decide_False by lia. done. }
  rewrite IH. destruct (decide (j = part_num)) as [->|Hne].
  - rewrite decide_False by lia. rewrite decide_True by lia.
    by rewrite lookup_insert_eq, Nat.sub_diag.
  - rewrite lookup_insert_ne by (intros ?%part_name_inj; done).
    destruct (decide (S part_num ≤ j < S part_num + length parts)%nat).
    + rewrite decide_True by lia.
      replace (j - part_num)%nat with (S (j - S part_num)) by lia. done.
    + rewrite decide_False by lia. done.
Qed.

Lemma write_parts_lookup_other file_path part_num parts fs name :
  (∀ j, name ≠ part_name file_path j) →
  write_parts file_path part_num parts fs !! name = fs !! name.
Proof.
  intros Hname. revert part_num fs.
  induction parts as [|c parts IH]; intros part_num fs; simpl; [done|].
  rewrite IH. by rewrite lookup_insert_ne.
Qed.


(** *** Finding and joining the parts *)

Lemma find_parts_run fuel (fs : files) base_name i k :
  (∀ j, (i ≤ j < i + k)%nat → is_Some (fs !! part_name base_name j)) →
  fs !! part_name base_name (i + k) = None →
  (k < fuel)%nat →
  find_parts fuel fs base_name i = part_name base_name <$> seq i k.
Proof.
  revert fuel i. induction k as [|k IH]; intros fuel i Hsome Hnone Hfuel.
  - destruct fuel as [|fuel]; [lia|]. simpl. rewrite Nat.add_0_r in Hnone.
    rewrite decide_False; [done|]. rewrite Hnone. by intros [? ?].
  - destruct fuel as [|fuel]; [lia|]. simpl.
    rewrite decide_True by (apply Hsome; lia). f_equal.
    apply IH; [intros j Hj; apply Hsome; lia| |lia].
    by replace (S i + k)%nat with (i + S k)%nat by lia.
Qed.

(** The parts present are pairwise distinct files, so there are no more of
    them than files in the directory. *)
Lemma parts_le_size (fs : files) base_name i k :
  (∀ j, (i ≤ j < i + k)%nat → is_Some (fs !! part_name base_name j)) →
  (k ≤ size fs)%nat.
Proof.
  intros Hsome.
  assert (Hnd : NoDup (part_name base_name <$> seq i k)).
  { apply NoDup_fmap_2; [intros ???; by eapply part_name_inj | apply NoDup_seq]. }
  transitivity (length (part_name base_name <$> seq i k));
    [by rewrite length_fmap, length_seq|].
  rewrite <- (size_list_to_set (C := gset string)) by done.
  rewrite <- size_dom. apply subseteq_size. intros name.
  rewrite elem_of_list_to_set, list_elem_of_fmap, elem_of_dom.
  intros (j & -> & Hj%elem_of_seq). by apply Hsome.
Qed.

Lemma recombine_concat (fs : files) parts :
  recombine fs parts = concat ((fun part => default [] (fs !! part)) <$> parts).
Proof.
  unfold recombine.
  assert (Hgen : ∀ out,
            fold_left (fun out part => out ++ default [] (fs !! part)) parts out
            = out ++ concat ((fun part => default [] (fs !! part)) <$> parts)).
  { induction parts as [|p parts IH]; intros out; simpl.
    - by rewrite app_nil_r.
    - by rewrite IH, app_assoc. }
  by rewrite Hgen.
Qed.

(** C9.  Splitting a file of the working directory into parts of
    [chunk_size] bytes (a positive size; no older part files of that name
    around) writes parts numbered 1, 2, ... without a gap, each of them of
    exactly [chunk_size] bytes except possibly the last, which is not
    empty; the joiner then finds exactly these parts and the bytes it
    writes, the parts one after the other in ascending number, are the
    bytes of the input.  (For an empty input there is no part and the
    joiner stops before writing.) *)
Theorem C9_split_join_roundtrip (fs : files) (file_path : string)
    (chunk_size : Z) (data : list Byte.byte) :
  0 < chunk_size →
  fs !! file_path = Some data →
  (∀ i, fs !! part_name file_path i = None) →
  let fs' := split_file file_path chunk_size fs in
  ∃ parts : list (list Byte.byte),
    concat parts = data
    ∧ (∀ i, fs' !! part_name file_path (S i) = parts !! i)
    ∧ fs' !! part_name file_path 0 = None
    ∧ (∀ c, c ∈ parts → (0 < length c ≤ Z.to_nat chunk_size)%nat)
    ∧ (∀ i c, parts !! i = Some c → (S i < length parts)%nat →
         length c = Z.to_nat chunk_size)
    ∧ find_parts (S (size fs')) fs' file_path 1
      = part_name file_path <$> seq 1 (length parts)
    ∧ recombine fs' (find_parts (S (size fs')) fs' file_path 1) = data
    ∧ verify_split_files fs' file_path
      = (if data is [] then None else Some data)
    ∧ fs' !! file_path = Some data.
Proof.
  intros Hpos Hfile Hfresh fs'. subst fs'. unfold split_file. rewrite Hfile.
  destruct (split_loop_spec chunk_size file_path data 1 fs Hpos)
    as (parts & -> & Hcat & Hsize & Hfull).
  set (fs' := write_parts file_path 1 parts fs).
  assert (Hpart : ∀ i, fs' !! part_name file_path (S i) = parts !! i).
  { intros i. unfold fs'. rewrite write_parts_lookup_part.
    destruct (decide (1 ≤ S i < 1 + length parts)%nat).
    - by replace (S i - 1)%nat with i by lia.
    - rewrite Hfresh. symmetry. apply lookup_ge_None. lia. }
  assert (Hzero : fs' !! part_name file_path 0 = None).
  { unfold fs'. rewrite write_parts_lookup_part, decide_False by lia. apply Hfresh. }
  assert (Hsome : ∀ j, (1 ≤ j < 1 + length parts)%nat
                       → is_Some (fs' !! part_name file_path j)).
  { intros [|j] Hj; [lia|]. rewrite Hpart. apply lookup_lt_is_Some. lia. }
  assert (Hfind : find_parts (S (size fs')) fs' file_path 1
                  = part_name file_path <$> seq 1 (length parts)).
  { apply find_parts_run; [done| |].
    - replace (1 + length parts)%nat with (S (length parts)) by lia.
      rewrite Hpart. apply lookup_ge_None. lia.
    - pose proof (parts_le_size fs' file_path 1 (length parts) Hsome). lia. }
  assert (Hjoin : recombine fs' (part_name file_path <$> seq 1 (length parts)) = data).
  { rewrite recombine_concat, <- list_fmap_compose, <- Hcat. f_equal.
    apply list_eq. intros i. rewrite list_lookup_fmap.
    destruct (decide (i < length parts)%nat) as [Hi|Hi].
    - rewrite lookup_seq_lt by done. simpl. rewrite Hpart.
      destruct (lookup_lt_is_Some_2 parts i Hi) as [c ->]. done.
    - rewrite lookup_seq_ge by lia. simpl. symmetry. apply lookup_ge_None. lia. }
  exists parts. split_and!; try done.
  - by rewrite Hfind.
  - unfold verify_split_files. rewrite Hfind.
    destruct parts as [|c parts]; simpl.
    + by rewrite <- Hcat.
    + assert (Hc : (0 < length c)%nat) by (apply Hsize; left).
      destruct data as [|x data].
      * destruct c; [simpl in Hc; lia | done].
      * by rewrite <- Hjoin.
  - unfold fs'. rewrite write_parts_lookup_other; [done|].
    intros j Heq. by apply (part_name_not_file file_path j).
Qed.

Lemma C9_split_join_roundtrip_witness :
  let fs : files := {[ "a.zip" := [Byte.x01; Byte.x02; Byte.x03; Byte.x04; Byte.x05] ]} in
  let fs' := split_file "a.zip" 2 fs in
  ∃ parts : list (list Byte.byte),
    concat parts = [Byte.x01; Byte.x02; Byte.x03; Byte.x04; Byte.x05]
    ∧ (∀ i, fs' !! part_name "a.zip" (S i) = parts !! i)
    ∧ fs' !! part_name "a.zip" 0 = None
    ∧ (∀ c, c ∈ parts → (0 < length c ≤ Z.to_nat 2)%nat)
    ∧ (∀ i c, parts !! i = Some c → (S i < length parts)%nat →
         length c = Z.to_nat 2)
    ∧ find_parts (S (size fs')) fs' "a.zip" 1
      = part_name "a.zip" <$> seq 1 (length parts)
    ∧ recombine fs' (find_parts (S (size fs')) fs' "a.zip" 1)
      = [Byte.x01; Byte.x02; Byte.x03; Byte.x04; Byte.x05]
    ∧ verify_split_files fs' "a.zip"
      = Some [Byte.x01; Byte.x02; Byte.x03; Byte.x04; Byte.x05]
    ∧ fs' !! "a.zip" = Some [Byte.x01; Byte.x02; Byte.x03; Byte.x04; Byte.x05].
Proof.
  intros fs.
  apply (C9_split_join_roundtrip fs "a.zip" 2
           [Byte.x01; Byte.x02; Byte.x03; Byte.x04; Byte.x05]).
  - lia.
  - done.
  - intros i. subst fs. apply lookup_singleton_ne.
    intros Heq. symmetry in Heq. by apply part_name_not_file in Heq.
Defined.

End SplitClaims.

(** ** Accounting of the scanned pixels *)

Module ScanAccounting.
Import Coco ComprehensiveCheck PyDictFacts ScanFacts.

(** [sum(d.values())] *)
Definition sum_values (d : dict object_key nat) : nat :=
  map_fold (fun _ n acc => (n + acc)%nat) 0%nat (d_map d).

Definition is_background (v : nat * nat * pixel) : Prop :=
  decode_pixel (snd v) = Background.

#[export] Instance decoded_eq_dec : EqDecision decoded.
Proof. solve_decision. Defined.

Lemma sum_values_incr (d : dict object_key nat) k :
  sum_values (PyDict.set k (S (default 0%nat (PyDict.get k d))) d)
  = S (sum_values d).
Proof.
  unfold sum_values, PyDict.get. simpl.
  assert (Hcomm : ∀ (m : gmap object_key nat) (j1 j2 : object_key) (z1 z2 y : nat),
            j1 ≠ j2 → m !! j1 = Some z1 → m !! j2 = Some z2 →
            (z1 + (z2 + y) = z2 + (z1 + y))%nat) by (intros; lia).
  destruct (d_map d !! k) as [n|] eqn:Hk; simpl.
  - rewrite <- insert_delete_eq.
    rewrite map_fold_insert_L; [|by eauto|by rewrite lookup_delete_eq].
    rewrite (map_fold_delete_L _ _ k n (d_map d)); [lia|by eauto|done].
  - rewrite map_fold_insert_L; [lia|by eauto|done].
Qed.

(** Every visit is accounted for once: it is background, a decode fault
    (one printed line), or one more pixel of exactly one object. *)
Lemma scan_accounts vs :
  (sum_values (object_pixels (scan_from scan_init vs))
   + length (printed (scan_from scan_init vs))
   + length (filter is_background vs))%nat
  = length vs.
Proof.
  induction vs as [|v vs IH] using rev_ind; [done|].
  rewrite scan_from_snoc, scan_step_printed, scan_step_object_pixels.
  rewrite filter_app, !length_app, filter_cons, filter_nil.
  destruct v as [[y x] p].
  destruct (decide (is_background (y, x, p))) as [Hbg|Hbg];
    unfold is_background, key_of, fault_of in *; simpl in *.
  - rewrite Hbg. simpl. lia.
  - destruct (decode_pixel p) as [|k|b] eqn:Hd; [done| |]; simpl.
    + rewrite sum_values_incr. lia.
    + lia.
Qed.

(** The scan accounts for every pixel of the mask exactly once: the pixel
    counts of all objects, the decode faults printed and the background
    pixels add up to the number of pixels of the mask. *)
Theorem scan_counts_every_pixel_once (m : mask) :
  (sum_values (object_pixels (scan m))
   + length (printed (scan m))
   + length (filter is_background (visits m)))%nat
  = (rows m * cols m)%nat.
Proof. unfold scan. by rewrite scan_accounts, visits_length. Qed.

(** The scan never records more objects than colors, so when the
    bijection is reported broken the color count is the larger one: an
    object may have several colors, a color never several objects. *)
Theorem objects_never_exceed_colors (m : mask) :
  (PyDict.len (object_pixels (scan m)) ≤ PyDict.len (color_map (scan m)))%nat
  ∧ ∀ n_colors n_objects,
      bijection_report (scan m) = BijectionBroken n_colors n_objects →
      (n_objects < n_colors)%nat.
Proof.
  assert (Hle : (PyDict.len (object_pixels (scan m))
                 ≤ PyDict.len (color_map (scan m)))%nat).
  { unfold scan. rewrite len_color_map, len_object_pixels. apply keys_le_colors. }
  split; [done|]. intros n k. unfold bijection_report, bijection_check.
  case_bool_decide as Hne; [done|]. intros [= <- <-]. lia.
Qed.

End ScanAccounting.

(** ** Channel separation *)

Module ChannelSeparation.
Import Coco ComprehensiveCheck PyDictFacts ScanFacts.

(** Every pixel of the mask holds 8-bit channel values. *)
Definition mask_ok (m : mask) : Prop :=
  ∀ y x, (y < rows m)%nat → (x < cols m)%nat → pixel_ok (at_ m y x).

Lemma mask_of_rows_ok w (l : list (list pixel)) :
  Forall (Forall pixel_ok) l → mask_ok (mask_of_rows w l).
Proof.
  intros Hl y x Hy _. simpl in *.
  assert (Hzero : pixel_ok (0, 0, 0)) by (unfold pixel_ok, uint8; lia).
  destruct (nth_in_or_default y l []) as [Hin | ->]; [|by destruct x].
  apply list_elem_of_In in Hin. rewrite Forall_forall in Hl. specialize (Hl _ Hin).
  destruct (nth_in_or_default x (nth y l []) (0, 0, 0)) as [Hin' | ->]; [|done].
  apply list_elem_of_In in Hin'. rewrite Forall_forall in Hl. by apply Hl.
Qed.

Lemma elem_of_items {K V} `{Countable K} (d : dict K V) k v :
  PyDict.wf d → (k, v) ∈ PyDict.items d ↔ d_map d !! k = Some v.
Proof.
  intros [_ Hdom]. unfold PyDict.items. rewrite list_elem_of_omap. split.
  - intros (k' & _ & Hk'). destruct (d_map d !! k') eqn:Hl; [|done].
    simpl in Hk'. by injection Hk' as -> ->.
  - intros Hl. exists k. split; [apply Hdom; by rewrite Hl|]. by rewrite Hl.
Qed.

Lemma fold_left_max_spec l x :
  (fold_left Z.max l x = x ∨ fold_left Z.max l x ∈ l)
  ∧ x ≤ fold_left Z.max l x ∧ ∀ y, y ∈ l → y ≤ fold_left Z.max l x.
Proof.
  revert x. induction l as [|a l IH]; intros x; simpl.
  { split_and!; [by left|lia|by intros ? ?%elem_of_nil]. }
  destruct (IH (Z.max x a)) as (Hin & Hle & Hall). split_and!.
  - destruct Hin as [Hin|Hin]; [|right; by right].
    rewrite Hin. destruct (Z.max_spec x a) as [[_ ->]|[_ ->]]; [right; left | by left].
  - lia.
  - intros y [->|Hy]%elem_of_cons; [lia | by apply Hall].
Qed.

Lemma py_max_spec l mx :
  py_max l = Some mx ↔ mx ∈ l ∧ ∀ y, y ∈ l → y ≤ mx.
Proof.
  destruct l as [|x l]; simpl.
  { split; [done | by intros [?%elem_of_nil _]]. }
  destruct (fold_left_max_spec l x) as (Hin & Hle & Hall). split.
  - intros [= <-]. split.
    + destruct Hin as [->|Hin]; [left | by right].
    + intros y [->|Hy]%elem_of_cons; [done | by apply Hall].
  - intros [Hmx Hmax]. f_equal. apply Z.le_antisymm.
    + apply Hmax. destruct Hin as [->|Hin]; [left | by right].
    + apply elem_of_cons in Hmx as [->|Hmx]; [done | by apply Hall].
Qed.

Lemma nil_iff_fmap_nil {A B} (f : A → B) (l : list A) : l = [] ↔ f <$> l = [].
Proof. by destruct l. Qed.

(** [max(vals if colors else [0]) == 0] on non-negative values. *)
Lemma max_or_zero_is_zero {A} (colors : list A) (vals : list Z) :
  (colors = [] ↔ vals = []) →
  (∀ v, v ∈ vals → 0 ≤ v) →
  default 0 (py_max (if colors is [] then [0] else vals)) = 0
  ↔ ∀ v, v ∈ vals → v = 0.
Proof.
  intros Hnil Hpos. destruct colors as [|c colors].
  { rewrite (proj1 Hnil eq_refl). simpl. split; [by intros _ ? ?%elem_of_nil|done]. }
  destruct vals as [|v0 vals]; [discriminate (proj2 Hnil eq_refl)|].
  destruct (py_max (v0 :: vals)) as [mx|] eqn:Hmx; [|done].
  apply py_max_spec in Hmx as [Hin Hmax]. simpl. split.
  - intros -> v Hv. specialize (Hmax v Hv). specialize (Hpos v Hv). lia.
  - intros Hall. by apply Hall.
Qed.

Lemma elem_of_strawberry_colors vs c :
  c ∈ strawberry_colors (scan_from scan_init vs)
  ↔ c ∈ snd <$> vs ∧ ∃ k, key_of c = Some k ∧ is_strawberry_type (fst k) = true.
Proof.
  unfold strawberry_colors. rewrite list_elem_of_fmap. split.
  - intros ([c' k] & -> & [Hs Hin]%list_elem_of_filter). simpl in *.
    apply elem_of_items in Hin; [|apply scan_init_wf].
    rewrite color_map_lookup in Hin. destruct (decide _); [eauto|done].
  - intros (Hc & k & Hk & Hs). exists (c, k). split; [done|].
    apply list_elem_of_filter. split; [done|].
    apply elem_of_items; [apply scan_init_wf|].
    by rewrite color_map_lookup, decide_True.
Qed.

Lemma elem_of_peduncle_colors vs c :
  c ∈ peduncle_colors (scan_from scan_init vs)
  ↔ c ∈ snd <$> vs ∧ ∃ k, key_of c = Some k ∧ fst k = "peduncle".
Proof.
  unfold peduncle_colors. rewrite list_elem_of_fmap. split.
  - intros ([c' k] & -> & [Hs Hin]%list_elem_of_filter). simpl in *.
    apply elem_of_items in Hin; [|apply scan_init_wf].
    rewrite color_map_lookup in Hin. destruct (decide _); [eauto|done].
  - intros (Hc & k & Hk & Hs). exists (c, k). split; [done|].
    apply list_elem_of_filter. split; [done|].
    apply elem_of_items; [apply scan_init_wf|].
    by rewrite color_map_lookup, decide_True.
Qed.

(** The colors of the mask that decode to a strawberry use only the B and
    R channels, those that decode to a peduncle only B and G. *)
Definition channels_separate (m : mask) : Prop :=
  ∀ y x b g r k,
    (y < rows m)%nat → (x < cols m)%nat → at_ m y x = (b, g, r) →
    decode_pixel (b, g, r) = Object k →
    (is_strawberry_type (fst k) = true → g = 0)
    ∧ (fst k = "peduncle" → r = 0).

Lemma key_of_Some p k : key_of p = Some k ↔ decode_pixel p = Object k.
Proof.
  unfold key_of. destruct (decode_pixel p); split; try done; by intros [= ->].
Qed.

Lemma channel_separation_iff (m : mask) :
  mask_ok m →
  channel_separation (scan m) = true ↔ channels_separate m.
Proof.
  intros Hok. unfold channel_separation, scan.
  rewrite andb_true_iff, !bool_decide_eq_true.
  rewrite !max_or_zero_is_zero.
  - split.
    + intros [Hs Hp] y x b g r k Hy Hx Hat Hd. split; intros Hk.
      * apply (Hs g). apply list_elem_of_fmap. exists (b, g, r). split; [done|].
        apply elem_of_strawberry_colors. split.
        -- apply elem_of_visits_pixels. eauto.
        -- exists k. by rewrite key_of_Some.
      * apply (Hp r). apply list_elem_of_fmap. exists (b, g, r). split; [done|].
        apply elem_of_peduncle_colors. split.
        -- apply elem_of_visits_pixels. eauto.
        -- exists k. by rewrite key_of_Some.
    + intros Hsep. split.
      * intros v ([[b g] r] & -> & [Hin (k & Hk & Hs)]%elem_of_strawberry_colors)%list_elem_of_fmap.
        apply elem_of_visits_pixels in Hin as (y & x & Hy & Hx & Hat).
        apply key_of_Some in Hk. by apply (Hsep y x b g r k).
      * intros v ([[b g] r] & -> & [Hin (k & Hk & Hs)]%elem_of_peduncle_colors)%list_elem_of_fmap.
        apply elem_of_visits_pixels in Hin as (y & x & Hy & Hx & Hat).
        apply key_of_Some in Hk. by apply (Hsep y x b g r k).
  - apply nil_iff_fmap_nil.
  - intros v ([[b g] r] & -> & [Hin _]%elem_of_peduncle_colors)%list_elem_of_fmap.
    apply elem_of_visits_pixels in Hin as (y & x & Hy & Hx & Hat).
    specialize (Hok y x Hy Hx). rewrite Hat in Hok. simpl in *. unfold uint8 in Hok. lia.
  - apply nil_iff_fmap_nil.
  - intros v ([[b g] r] & -> & [Hin _]%elem_of_strawberry_colors)%list_elem_of_fmap.
    apply elem_of_visits_pixels in Hin as (y & x & Hy & Hx & Hat).
    specialize (Hok y x Hy Hx). rewrite Hat in Hok. simpl in *. unfold uint8 in Hok. lia.
Qed.


Lemma size_set_omap_inj (f : pixel → option object_key) (X : gset pixel) :
  (∀ x, x ∈ X → is_Some (f x)) →
  (∀ x1 x2, x1 ∈ X → x2 ∈ X → f x1 = f x2 → x1 = x2) →
  size (set_omap (D := gset object_key) f X) = size X.
Proof.
  induction X as [|x X Hx IH] using set_ind_L; intros Hsome Hinj.
  - by rewrite set_omap_empty, !size_empty.
  - destruct (Hsome x) as [k Hk]; [set_solver|].
    rewrite set_omap_union_L, (set_omap_singleton_Some_L _ _ _ Hk).
    rewrite !size_union, !size_singleton.
    + rewrite IH; [done| |]; intros; [apply Hsome|apply Hinj]; set_solver.
    + set_solver.
    + intros k' ->%elem_of_singleton (x' & Hx' & Hk')%elem_of_set_omap.
      assert (x = x') by (apply Hinj; [set_solver|set_solver|congruence]).
      by subst.
Qed.

Lemma strawberry_type_or_peduncle p k :
  decode_pixel p = Object k →
  (is_strawberry_type (fst k) = true ∧ fst k ≠ "peduncle"
   ∧ snd k = snd p ∧ fst k = nth (Z.to_nat (fst (fst p))) ["ripe"; "unripe"; "half_ripe"] ""
   ∧ fst (fst p) ∈ [0; 1; 2])
  ∨ (fst k = "peduncle" ∧ snd k = snd (fst p) ∧ fst (fst p) = 3).
Proof.
  destruct p as [[b g] r]. unfold decode_pixel, decode. simpl.
  destruct ((b =? 0) && (g =? 0) && (r =? 0)); [done|].
  destruct (b =? 3) eqn:H3.
  { intros [= <-]. right. apply Z.eqb_eq in H3. done. }
  destruct (b =? 0) eqn:H0; [apply Z.eqb_eq in H0 as ->|].
  { intros [= <-]. left. simpl. split_and!; try done. set_solver. }
  destruct (b =? 1) eqn:H1; [apply Z.eqb_eq in H1 as ->|].
  { intros [= <-]. left. simpl. split_and!; try done. set_solver. }
  destruct (b =? 2) eqn:H2; [apply Z.eqb_eq in H2 as ->|]; [|done].
  intros [= <-]. left. simpl. split_and!; try done. set_solver.
Qed.

Lemma separate_channels_give_bijection (m : mask) :
  channels_separate m → bijection_report (scan m) = BijectionConfirmed.
Proof.
  intros Hsep. unfold bijection_report, bijection_check, scan.
  rewrite len_color_map, len_object_pixels, keys_seen_omap.
  rewrite bool_decide_true; [done|]. symmetry. apply size_set_omap_inj.
  - by intros c [_ ?]%elem_of_colors_seen.
  - intros [[b1 g1] r1] [[b2 g2] r2]
      [(y1 & x1 & Hy1 & Hx1 & Hat1)%elem_of_visits_pixels [k1 Hk1]]%elem_of_colors_seen
      [(y2 & x2 & Hy2 & Hx2 & Hat2)%elem_of_visits_pixels [k2 Hk2]]%elem_of_colors_seen
      Heq.
    rewrite Hk1, Hk2 in Heq. injection Heq as <-.
    apply key_of_Some in Hk1, Hk2.
    destruct (Hsep _ _ _ _ _ _ Hy1 Hx1 Hat1 Hk1) as [Hs1 Hp1].
    destruct (Hsep _ _ _ _ _ _ Hy2 Hx2 Hat2 Hk2) as [Hs2 Hp2].
    destruct (strawberry_type_or_peduncle _ _ Hk1)
      as [(Ht1 & Hn1 & Hi1 & Hname1 & Hb1)|(Ht1 & Hi1 & Hb1)];
    destruct (strawberry_type_or_peduncle _ _ Hk2)
      as [(Ht2 & Hn2 & Hi2 & Hname2 & Hb2)|(Ht2 & Hi2 & Hb2)];
      simpl in *; try congruence.
    + rewrite (Hs1 Ht1), (Hs2 Ht2). rewrite Hi1 in Hi2. subst r2.
      f_equal. f_equal. rewrite Hname1 in Hname2. clear -Hname2 Hb1 Hb2.
      set_unfold in Hb1. set_unfold in Hb2.
      destruct Hb1 as [->|[->|[->|[]]]], Hb2 as [->|[->|[->|[]]]];
        simpl in Hname2; congruence.
    + rewrite (Hp1 Ht1), (Hp2 Ht2). congruence.
Qed.


(** Two colors, one strawberry and one peduncle, each on its own channels. *)
Definition separate_mask : mask := mask_of_rows 2 [[(1, 0, 5); (3, 2, 0)]].

Lemma separate_mask_ok : mask_ok separate_mask.
Proof. apply mask_of_rows_ok. repeat constructor; unfold uint8; lia. Qed.

(** On a mask of 8-bit pixels, the summary entry "Channel Separation" is
    true exactly when every color of the mask that decodes to a strawberry
    has G = 0 and every color that decodes to a peduncle has R = 0. *)
Theorem channel_separation_characterised (m : mask) :
  mask_ok m →
  channel_separation (scan m) = true ↔ channels_separate m.
Proof. apply channel_separation_iff. Qed.

Lemma channel_separation_characterised_witness :
  channel_separation (scan separate_mask) = true ↔ channels_separate separate_mask.
Proof.
  apply (channel_separation_characterised separate_mask), separate_mask_ok.
Defined.

(** On a mask of 8-bit pixels, a run whose "Channel Separation" entry is
    true also confirms the bijection: with the unused id channel at 0, two
    different colors cannot decode to the same object key. *)
Theorem channel_separation_implies_bijection (m : mask) :
  mask_ok m →
  channel_separation (scan m) = true →
  bijection_check (scan m) = true
  ∧ bijection_report (scan m) = BijectionConfirmed.
Proof.
  intros Hok Hsep%channel_separation_iff; [|done].
  apply separate_channels_give_bijection in Hsep. split; [|done].
  unfold bijection_report in Hsep. by destruct (bijection_check (scan m)).
Qed.

Lemma channel_separation_implies_bijection_witness :
  bijection_check (scan separate_mask) = true
  ∧ bijection_report (scan separate_mask) = BijectionConfirmed.
Proof.
  apply (channel_separation_implies_bijection separate_mask);
    [apply separate_mask_ok | by vm_compute].
Defined.

End ChannelSeparation.

(** ** How a run ends, and the id offset on 8-bit masks *)

Module RunOutcome.
Import Coco ComprehensiveCheck PyDictFacts ScanFacts CheckerClaims ThresholdClaims ChannelSeparation.

Lemma json_object_None ann :
  json_object ann = None ↔ category_id ann < -3 ∨ 3 < category_id ann.
Proof.
  unfold json_object, py_index. simpl length.
  destruct (category_id ann =? 3) eqn:H3.
  { apply Z.eqb_eq in H3. split; [done|lia]. }
  apply Z.eqb_neq in H3.
  destruct (0 <=? category_id ann) eqn:H0.
  - apply Z.leb_le in H0.
    destruct (decide (category_id ann < 3)) as [Hlt|Hge].
    + assert (Hc : category_id ann = 0 ∨ category_id ann = 1 ∨ category_id ann = 2)
        by lia.
      destruct Hc as [Hc | [Hc | Hc]]; rewrite Hc; simpl; split; (done || lia).
    + rewrite (proj2 (lookup_ge_None _ _)); [simpl; split; [lia|done]|].
      simpl. lia.
  - apply Z.leb_gt in H0.
    destruct (- Z.of_nat 3 <=? category_id ann) eqn:Hm.
    + apply Z.leb_le in Hm.
      assert (Hc : category_id ann = -1 ∨ category_id ann = -2 ∨ category_id ann = -3)
        by lia.
      destruct Hc as [Hc | [Hc | Hc]]; rewrite Hc; simpl; split; (done || lia).
    + apply Z.leb_gt in Hm. simpl. split; [lia|done].
Qed.

Lemma json_objects_None anns :
  json_objects anns = None
  ↔ ∃ ann, ann ∈ anns ∧ (category_id ann < -3 ∨ 3 < category_id ann).
Proof.
  unfold json_objects. rewrite fmap_None, mapM_None, Exists_exists.
  by setoid_rewrite json_object_None.
Qed.

(** How a run of the checker ends, for every mask and annotation file: it
    raises [IndexError] exactly when some annotation record of the image
    has a category id below -3 or above 3 (ids -3, -2, -1 index the name
    list from its end); otherwise it raises [ValueError] exactly when the
    mask has no object pixel; otherwise it reaches the final summary. *)
Theorem verify_dataset_outcome (m : mask) (annotations : list annotation)
    (sample_id : Z) :
  let bad_category :=
    ∃ ann, ann ∈ annotations ∧ image_id ann = sample_id
           ∧ (category_id ann < -3 ∨ 3 < category_id ann) in
  let object_pixel :=
    ∃ y x k, (y < rows m)%nat ∧ (x < cols m)%nat
             ∧ decode_pixel (at_ m y x) = Object k in
  (verify_dataset m annotations sample_id = Raised IndexError ↔ bad_category)
  ∧ (verify_dataset m annotations sample_id = Raised ValueError
     ↔ ¬ bad_category ∧ ¬ object_pixel)
  ∧ ((∃ r, verify_dataset m annotations sample_id = Finished r)
     ↔ ¬ bad_category ∧ object_pixel).
Proof.
  intros bad_category object_pixel.
  assert (Hbad : json_objects (anns_of annotations sample_id) = None ↔ bad_category).
  { rewrite json_objects_None. unfold bad_category.
    setoid_rewrite elem_of_anns_of. naive_solver. }
  assert (Hobj : is_Some (id_offset_check (scan m)) ↔ object_pixel).
  { unfold scan. rewrite id_offset_check_is_Some. unfold object_pixel.
    setoid_rewrite elem_of_keys_seen. setoid_rewrite elem_of_visits_pixels.
    setoid_rewrite key_of_Some. split.
    - intros (k & p & (y & x & Hy & Hx & <-) & Hk). eauto 10.
    - intros (y & x & k & Hy & Hx & Hk). eauto 10. }
  unfold verify_dataset.
  destruct (json_objects (anns_of annotations sample_id)) as [json|] eqn:Hjson.
  - assert (Hnb : ¬ bad_category) by (rewrite <- Hbad; done).
    destruct (id_offset_check (scan m)) as [io|] eqn:Hio.
    + assert (Ho : object_pixel) by (apply Hobj; eauto).
      split_and!; [split; [done|tauto]|split; [done|tauto]|split; [done|eauto]].
    + assert (Ho : ¬ object_pixel) by (rewrite <- Hobj; by intros [? ?]).
      split_and!; [split; [done|tauto]|split; [done|tauto]|].
      split; [by intros [? ?]|tauto].
  - assert (Hb : bad_category) by (by apply Hbad).
    split_and!; [done|split; [done|tauto]|split; [by intros [? ?]|tauto]].
Qed.


Lemma key_id_uint8 p k : pixel_ok p → key_of p = Some k → 0 ≤ snd k ≤ 255.
Proof.
  destruct p as [[b g] r]. intros (Hb & Hg & Hr) Hk%key_of_Some.
  unfold uint8 in *.
  destruct (strawberry_type_or_peduncle _ _ Hk)
    as [(_ & _ & -> & _)|(_ & -> & _)]; simpl; lia.
Qed.

Lemma keys_seen_uint8 m k :
  mask_ok m → k ∈ keys_seen (visits m) → 0 ≤ snd k ≤ 255.
Proof.
  intros Hok (p & (y & x & Hy & Hx & <-)%elem_of_visits_pixels & Hk)%elem_of_keys_seen.
  eapply key_id_uint8; [by apply Hok|done].
Qed.

(** On a mask of 8-bit pixels that has an object pixel, the ids found lie
    between 0 and 255, the line "FOUND ID=0" is printed exactly when the
    line "CRITICAL: Found objects with ID=0" is, and the id-offset check
    passes exactly when the smallest id is at least 1. *)
Theorem id_offset_on_uint8_mask (m : mask) (io : id_offset) :
  mask_ok m →
  id_offset_check (scan m) = Some io →
  0 ≤ min_id io ∧ min_id io ≤ max_id io ∧ max_id io ≤ 255
  ∧ (range_line io = FoundIdZero ↔ zero_line io ≠ NoIdZero)
  ∧ (id_offset_passed io = true ↔ 1 ≤ min_id io).
Proof.
  intros Hok Hio. unfold id_offset_check, scan in Hio.
  destruct (py_min _) as [mn|] eqn:Hmin; [|done].
  destruct (py_max _) as [mx|] eqn:Hmax; [|done].
  simpl in Hio. injection Hio as <-. simpl.
  pose proof Hmin as Hmin'. apply all_ids_min in Hmin' as [(kmin & Hkmin & <-) Hle].
  apply py_min_spec in Hmin as [Hmn_in Hmn_le].
  apply py_max_spec in Hmax as [Hmx_in Hmx_le].
  assert (Hmx : ∃ k, k ∈ keys_seen (visits m) ∧ snd k = mx).
  { unfold all_ids in Hmx_in. apply list_elem_of_fmap in Hmx_in as (k & -> & Hk).
    apply elem_of_keys_object_pixels in Hk. eauto. }
  destruct Hmx as (kmax & Hkmax & <-).
  pose proof (keys_seen_uint8 m kmin Hok Hkmin) as Hrmin.
  pose proof (keys_seen_uint8 m kmax Hok Hkmax) as Hrmax.
  assert (Hz : has_zero (scan_from scan_init (visits m)) = true ↔ snd kmin = 0).
  { rewrite has_zero_true. split.
    - intros [t Ht]. specialize (Hle _ Ht). simpl in Hle. lia.
    - intros Hz. exists (fst kmin). by rewrite <- Hz, <- surjective_pairing. }
  split_and!; [lia|by apply Hle|lia| |].
  - destruct (has_zero _) eqn:Hhz.
    + rewrite (proj1 Hz eq_refl). simpl. done.
    + assert (snd kmin ≠ 0) by (intros Heq%Hz; congruence).
      destruct (snd kmin =? 0) eqn:H0; [apply Z.eqb_eq in H0; done|].
      destruct (snd kmin =? 1); split; congruence.
  - rewrite andb_true_iff, Z.leb_le, negb_true_iff. split; [tauto|].
    intros H1. split; [done|]. apply not_true_is_false. rewrite Hz. lia.
Qed.

Lemma id_offset_on_uint8_mask_witness :
  let io := IdOffset 2 5 (IdsStartFrom 2) NoIdZero true in
  0 ≤ min_id io ∧ min_id io ≤ max_id io ∧ max_id io ≤ 255
  ∧ (range_line io = FoundIdZero ↔ zero_line io ≠ NoIdZero)
  ∧ (id_offset_passed io = true ↔ 1 ≤ min_id io).
Proof.
  apply (id_offset_on_uint8_mask separate_mask);
    [apply separate_mask_ok | by vm_compute].
Defined.

End RunOutcome.

(** ** The pair counter of the checker *)

Module InstancePairing.
Import Coco ComprehensiveCheck PyDictFacts ChannelSeparation.

Lemma by_instance_snoc anns ann :
  by_instance (anns ++ [ann])
  = PyDict.set (instance_id ann)
      (default [] (PyDict.get (instance_id ann) (by_instance anns)) ++ [ann])
      (by_instance anns).
Proof. unfold by_instance. by rewrite fold_left_app. Qed.

Lemma by_instance_wf anns : PyDict.wf (by_instance anns).
Proof.
  induction anns as [|ann anns IH] using rev_ind; [apply wf_empty|].
  rewrite by_instance_snoc. by apply wf_set.
Qed.

Lemma by_instance_lookup anns i :
  d_map (by_instance anns) !! i
  = match filter (fun ann => instance_id ann = i) anns with
    | [] => None
    | l => Some l
    end.
Proof.
  induction anns as [|ann anns IH] using rev_ind; [cbn; by rewrite lookup_empty|].
  rewrite by_instance_snoc, filter_app, filter_cons, filter_nil. simpl.
  unfold PyDict.get. destruct (decide (instance_id ann = i)) as [->|Hne].
  - rewrite lookup_insert_eq, IH.
    by destruct (filter (λ ann0, instance_id ann0 = i) anns).
  - rewrite lookup_insert_ne, IH, app_nil_r by done. done.
Qed.

(** The ids that carry a strawberry record, and those that carry a
    peduncle record. *)
Definition strawberry_ids (anns : list annotation) : gset Z :=
  list_to_set (instance_id <$> filter (fun a => is_strawberry_cat (category_id a) = true) anns).
Definition peduncle_ids (anns : list annotation) : gset Z :=
  list_to_set (instance_id <$> filter (fun a => category_id a = 3) anns).

Definition has_strawberry (entry : Z * list annotation) : bool :=
  existsb is_strawberry_cat (category_id <$> snd entry).
Definition has_peduncle (entry : Z * list annotation) : bool :=
  bool_decide (3 ∈ category_id <$> snd entry).

Lemma fold_pairing_step l acc :
  fold_left pairing_step l acc
  = PairingCounts
      (paired_count acc
       + length (filter (fun e => has_strawberry e && has_peduncle e = true) l))
      (strawberry_only acc
       + length (filter (fun e => has_strawberry e && negb (has_peduncle e) = true) l))
      (peduncle_only acc
       + length (filter (fun e => negb (has_strawberry e) && has_peduncle e = true) l)).
Proof.
  revert acc. induction l as [|e l IH]; intros acc; simpl.
  { destruct acc. simpl. f_equal; lia. }
  rewrite IH. unfold pairing_step. rewrite !filter_cons.
  fold (has_strawberry e). fold (has_peduncle e).
  destruct (has_strawberry e), (has_peduncle e); simpl; f_equal; lia.
Qed.

Lemma by_instance_items anns :
  PyDict.items (by_instance anns)
  = (fun i => (i, filter (fun ann => instance_id ann = i) anns))
      <$> PyDict.keys (by_instance anns).
Proof.
  unfold PyDict.items, PyDict.keys.
  pose proof (by_instance_wf anns) as [_ Hdom].
  assert (Hgen : ∀ l : list Z,
            (∀ i, i ∈ l → is_Some (d_map (by_instance anns) !! i)) →
            omap (fun k => pair k <$> d_map (by_instance anns) !! k) l
            = (fun i => (i, filter (fun ann => instance_id ann = i) anns)) <$> l).
  { induction l as [|i l IH]; intros Hl; [done|].
    destruct (Hl i) as [v Hv]; [left|].
    cbn [omap list_omap fmap list_fmap]. rewrite Hv. simpl.
    rewrite IH by (intros k Hk; apply Hl; by right). f_equal. f_equal.
    rewrite by_instance_lookup in Hv.
    destruct (filter _ anns); [done|]. by injection Hv. }
  apply Hgen. intros i Hi. by apply Hdom.
Qed.

Lemma elem_of_by_instance_keys anns i :
  i ∈ PyDict.keys (by_instance anns) ↔ i ∈ instance_id <$> anns.
Proof.
  pose proof (by_instance_wf anns) as [_ Hdom]. unfold PyDict.keys.
  rewrite Hdom, by_instance_lookup, list_elem_of_fmap. split.
  - destruct (filter _ anns) as [|a l] eqn:Hf; [by intros [? ?]|]. intros _.
    assert (Ha : a ∈ filter (λ ann, instance_id ann = i) anns) by (rewrite Hf; left).
    apply list_elem_of_filter in Ha as [<- Ha]. eauto.
  - intros (a & -> & Ha).
    assert (Hin : a ∈ filter (λ ann, instance_id ann = instance_id a) anns)
      by (by apply list_elem_of_filter).
    destruct (filter _ anns); [by apply elem_of_nil in Hin | eauto].
Qed.

Lemma has_strawberry_true anns i :
  has_strawberry (i, filter (fun ann => instance_id ann = i) anns) = true
  ↔ i ∈ strawberry_ids anns.
Proof.
  unfold has_strawberry, strawberry_ids. simpl.
  rewrite existsb_exists, elem_of_list_to_set, list_elem_of_fmap. split.
  - intros (c & Hc%list_elem_of_In & Hs).
    apply list_elem_of_fmap in Hc as (a & -> & [<- Ha]%list_elem_of_filter).
    exists a. split; [done|]. by apply list_elem_of_filter.
  - intros (a & -> & [Hs Ha]%list_elem_of_filter). exists (category_id a).
    split; [|done]. apply list_elem_of_In, list_elem_of_fmap. exists a.
    split; [done|]. by apply list_elem_of_filter.
Qed.

Lemma has_peduncle_true anns i :
  has_peduncle (i, filter (fun ann => instance_id ann = i) anns) = true
  ↔ i ∈ peduncle_ids anns.
Proof.
  unfold has_peduncle, peduncle_ids. simpl.
  rewrite bool_decide_eq_true, elem_of_list_to_set, !list_elem_of_fmap. split.
  - intros (a & Hc & [<- Ha]%list_elem_of_filter).
    exists a. split; [done|]. by apply list_elem_of_filter.
  - intros (a & -> & [Hs Ha]%list_elem_of_filter). exists a.
    split; [done|]. by apply list_elem_of_filter.
Qed.

Lemma length_filter_fmap {A B} (f : A → B) (P : B → Prop) `{∀ b, Decision (P b)}
    (l : list A) :
  length (filter P (f <$> l)) = length (filter (fun a => P (f a)) l).
Proof.
  induction l as [|a l IH]; [done|].
  rewrite fmap_cons, !filter_cons. destruct (decide (P (f a))); simpl; by rewrite IH.
Qed.

Lemma length_filter_keys (P : Z → Prop) `{∀ i, Decision (P i)} (X : gset Z)
    (l : list Z) :
  NoDup l → (∀ i, i ∈ X ↔ i ∈ l ∧ P i) →
  length (filter P l) = size X.
Proof.
  intros Hnd HX.
  rewrite <- (size_list_to_set (C := gset Z)) by (by apply NoDup_filter).
  f_equal. apply set_eq. intros i.
  by rewrite elem_of_list_to_set, list_elem_of_filter, HX, (comm and).
Qed.

(** The pair counter of the checker counts instance ids: an id is paired
    when at least one strawberry record and at least one peduncle record
    of the image carry it, strawberry-only or peduncle-only when records of
    one kind alone do; [parent_id] is not read. *)
Theorem pairing_counts_instance_ids (anns : list annotation) :
  paired_count (pairing anns) = size (strawberry_ids anns ∩ peduncle_ids anns)
  ∧ strawberry_only (pairing anns) = size (strawberry_ids anns ∖ peduncle_ids anns)
  ∧ peduncle_only (pairing anns) = size (peduncle_ids anns ∖ strawberry_ids anns)
  ∧ (paired_count (pairing anns) + strawberry_only (pairing anns)
     + peduncle_only (pairing anns)
     = size (strawberry_ids anns ∪ peduncle_ids anns))%nat.
Proof.
  assert (Hcounts :
    paired_count (pairing anns) = size (strawberry_ids anns ∩ peduncle_ids anns)
    ∧ strawberry_only (pairing anns) = size (strawberry_ids anns ∖ peduncle_ids anns)
    ∧ peduncle_only (pairing anns) = size (peduncle_ids anns ∖ strawberry_ids anns)).
  { unfold pairing. rewrite fold_pairing_step, by_instance_items. simpl.
    pose proof (by_instance_wf anns) as [Hnd _].
    assert (Hsub_s : ∀ i, i ∈ strawberry_ids anns → i ∈ PyDict.keys (by_instance anns)).
    { intros i. rewrite elem_of_by_instance_keys. unfold strawberry_ids.
      rewrite elem_of_list_to_set, !list_elem_of_fmap.
      intros (a & -> & [_ Ha]%list_elem_of_filter). eauto. }
    assert (Hsub_p : ∀ i, i ∈ peduncle_ids anns → i ∈ PyDict.keys (by_instance anns)).
    { intros i. rewrite elem_of_by_instance_keys. unfold peduncle_ids.
      rewrite elem_of_list_to_set, !list_elem_of_fmap.
      intros (a & -> & [_ Ha]%list_elem_of_filter). eauto. }
    rewrite !length_filter_fmap.
    split_and!; apply length_filter_keys; try done; intros i;
      rewrite ?andb_true_iff, ?negb_true_iff, <- ?not_true_iff_false,
        has_strawberry_true, has_peduncle_true; set_solver. }
  destruct Hcounts as (-> & -> & ->). split_and!; try done.
  rewrite <- !size_union by set_solver. f_equal. apply set_eq. intros i.
  destruct (decide (i ∈ strawberry_ids anns)), (decide (i ∈ peduncle_ids anns));
    set_solver.
Qed.

End InstancePairing.

(** ** Order of the pairs and repeated peduncle ids *)

Module PairingOrder.
Import Coco TestDatasetFunctions PyDictFacts PairingClaims.

Section OfListLast.
Context {K V : Type} `{Countable K}.

Lemma of_list_snoc (l : list (K * V)) k v :
  PyDict.of_list (l ++ [(k, v)]) = PyDict.set k v (PyDict.of_list l).
Proof. unfold PyDict.of_list. by rewrite fold_left_app. Qed.

(** A dictionary built from a list of bindings holds, for each key, the
    last binding of that key in the list. *)
Lemma of_list_lookup_last (l : list (K * V)) k v :
  PyDict.get k (PyDict.of_list l) = Some v →
  ∃ l1 l2, l = l1 ++ (k, v) :: l2 ∧ k ∉ fst <$> l2.
Proof.
  induction l as [|[k' v'] l IH] using rev_ind.
  { unfold PyDict.get. cbn. by rewrite lookup_empty. }
  rewrite of_list_snoc. unfold PyDict.get. simpl.
  destruct (decide (k' = k)) as [->|Hne].
  - rewrite lookup_insert_eq. intros [= ->]. exists l, []. split; [done|].
    by intros ?%elem_of_nil.
  - rewrite lookup_insert_ne by done. intros (l1 & l2 & -> & Hl2)%IH.
    exists l1, (l2 ++ [(k', v')]). split; [by rewrite <- app_assoc|].
    rewrite fmap_app, elem_of_app. simpl. rewrite list_elem_of_singleton. naive_solver.
Qed.
End OfListLast.

(** The strawberries of the pairs are the matched strawberry records of the
    image, in annotation order, each once per record; and when several
    peduncle records of the image share an instance id, the pair holds the
    last of them. *)
Theorem pairs_follow_annotation_order (annotations : list annotation) (img : Z) :
  fst <$> find_matching_pairs annotations img
  = filter (fun s => parent_id s ∈ instance_id <$> peduncles annotations img)
           (strawberries annotations img)
  ∧ ∀ s p, (s, p) ∈ find_matching_pairs annotations img →
      ∃ before after,
        peduncles annotations img = before ++ p :: after
        ∧ instance_id p = parent_id s
        ∧ ∀ q, q ∈ after → instance_id q ≠ parent_id s.
Proof.
  split.
  - rewrite find_matching_pairs_omap.
    induction (strawberries annotations img) as [|s l IH]; [done|].
    rewrite filter_cons.
    change (omap ?f (s :: l))
      with (match f s with Some y => y :: omap f l | None => omap f l end).
    destruct (decide (parent_id s ∈ instance_id <$> peduncles annotations img))
      as [Hin|Hin].
    + destruct (proj2 (peduncle_map_is_Some annotations img (parent_id s)))
        as [p' Hp'].
      { apply list_elem_of_fmap in Hin as (p & -> & Hp). eauto. }
      rewrite Hp'. cbn [fmap option_fmap option_map list_fmap]. simpl. by rewrite <- IH.
    + destruct (PyDict.get (parent_id s) _) as [p'|] eqn:Hget; [|done].
      apply peduncle_map_lookup in Hget as [Hp Hid]. destruct Hin.
      apply list_elem_of_fmap. eauto.
  - intros s p Hin. rewrite find_matching_pairs_omap in Hin.
    apply list_elem_of_omap in Hin as (s' & _ & Heq).
    destruct (PyDict.get (parent_id s') _) as [p'|] eqn:Hget; [|done].
    simpl in Heq. injection Heq as -> ->.
    unfold peduncle_map in Hget.
    apply of_list_lookup_last in Hget as (l1 & l2 & Hl & Hnot).
    apply fmap_app_inv in Hl as (before & rest & Hb & Hrest & Hped).
    destruct rest as [|p' after]; [done|]. simpl in Hrest.
    injection Hrest as Hid -> Hafter.
    exists before, after. split_and!; [done|done|].
    intros q Hq Heq. apply Hnot. subst l2. rewrite <- list_fmap_compose.
    apply list_elem_of_fmap. exists q. split; [by rewrite <- Heq|done].
Qed.

End PairingOrder.

(** ** What the reconciler reports *)

Module ReconcilerFacts.
Import VerifyIncrementalMetadata PyDictFacts.

Lemma check_temp_file_app master_meta errors temp_file :
  check_temp_file master_meta errors temp_file
  = (found ← check_temp_file master_meta [] temp_file; inr (errors ++ found)).
Proof.
  unfold check_temp_file. destruct (PyDict.get _ master_meta) as [m_data|]; [|done].
  destruct (snd temp_file) as [e|t_data]; [done|]. simpl.
  destruct (min_meters t_data) as [e|t_min]; [done|]. simpl.
  destruct (min_meters m_data) as [e|m_min]; [done|]. simpl.
  destruct (min_differs t_min m_min) as [e|[]]; [done| |]; simpl; [done|].
  by rewrite app_nil_r.
Qed.

(** The loop over the shard files comes to its end exactly when no shard
    raises; the errors are then those of the shards, in order. *)
Lemma check_temp_files_inr master_meta temp_files errors out :
  check_temp_files master_meta temp_files errors = inr out
  ↔ ∃ found,
      Forall2 (fun temp_file es => check_temp_file master_meta [] temp_file = inr es)
              temp_files found
      ∧ out = errors ++ mjoin found.
Proof.
  revert errors. induction temp_files as [|tf l IH]; intros errors; simpl.
  { split.
    - intros [= <-]. exists []. split; [constructor|]. by rewrite app_nil_r.
    - intros (found & Hf & ->). apply Forall2_nil_inv_l in Hf as ->.
      by rewrite app_nil_r. }
  rewrite check_temp_file_app.
  destruct (check_temp_file master_meta [] tf) as [e|es] eqn:Htf; simpl.
  - split; [done|]. intros (found & Hf & _).
    apply Forall2_cons_inv_l in Hf as (es & found' & Hes & _ & _). congruence.
  - rewrite IH. split.
    + intros (found & Hf & ->). exists (es :: found). split; [by constructor|].
      simpl. by rewrite app_assoc.
    + intros (found & Hf & ->).
      apply Forall2_cons_inv_l in Hf as (es' & found' & Hes & Hf & ->).
      assert (es' = es) as -> by congruence.
      exists found'. split; [done|]. simpl. by rewrite app_assoc.
Qed.


Lemma fold_check_master_entry temp_exists l errors :
  fold_left (check_master_entry temp_exists) l errors
  = errors ++ (image_name ← l; check_master_entry temp_exists [] image_name).
Proof.
  revert errors. induction l as [|k l IH]; intros errors; simpl.
  { by rewrite app_nil_r. }
  rewrite IH, app_assoc. f_equal. unfold check_master_entry.
  by destruct (temp_exists _); rewrite ?app_nil_r.
Qed.

(** The image name a shard file stands for, and back. *)
Definition image_name_of (filename : string) : string :=
  PyStr.replace "_meta.json" ".png" filename.
Definition temp_filename_of (image_name : string) : string :=
  PyStr.replace ".png" "_meta.json" image_name.

(** The mismatches the reconciler looks for, once the master file has been
    read. *)
Inductive mismatch (ds : dataset) (master_meta : dict string json)
  : error → Prop :=
| mismatch_no_annotations :
    annotations ds = Missing → mismatch ds master_meta AnnotationsNotFound
| mismatch_bad_annotations :
    annotations ds = Malformed → mismatch ds master_meta AnnotationsParseFailed
| mismatch_count images :
    annotations ds = Parsed images →
    length images ≠ PyDict.len master_meta →
    mismatch ds master_meta (CountMismatch (length images) (PyDict.len master_meta))
| mismatch_not_in_master filename content :
    (filename, content) ∈ glob_meta (metadata_temp ds) →
    PyDict.get (image_name_of filename) master_meta = None →
    mismatch ds master_meta (TempNotInMaster filename (image_name_of filename))
| mismatch_min_depth filename t_data m_data t_min m_min :
    (filename, inr t_data) ∈ glob_meta (metadata_temp ds) →
    PyDict.get (image_name_of filename) master_meta = Some m_data →
    min_meters t_data = inr t_min →
    min_meters m_data = inr m_min →
    min_differs t_min m_min = inr true →
    mismatch ds master_meta (DataMismatch (image_name_of filename) t_min m_min)
| mismatch_no_shard image_name :
    image_name ∈ PyDict.keys master_meta →
    temp_exists ds (temp_filename_of image_name) = false →
    mismatch ds master_meta (TempMissing image_name (temp_filename_of image_name)).



Lemma elem_of_check_temp_file ds master_meta temp_file es e :
  temp_file ∈ glob_meta (metadata_temp ds) →
  check_temp_file master_meta [] temp_file = inr es →
  e ∈ es → mismatch ds master_meta e.
Proof.
  destruct temp_file as [filename content]. intros Hin.
  unfold check_temp_file. simpl. fold (image_name_of filename).
  destruct (PyDict.get _ master_meta) as [m_data|] eqn:Hg.
  2:{ intros [= <-] ->%list_elem_of_singleton. by econstructor. }
  destruct content as [e'|t_data]; [done|]. simpl.
  destruct (min_meters t_data) as [e'|t_min] eqn:Ht; [done|]. simpl.
  destruct (min_meters m_data) as [e'|m_min] eqn:Hm; [done|]. simpl.
  destruct (min_differs t_min m_min) as [e'|[]] eqn:Hd; [done| |]; simpl.
  - intros [= <-] ->%list_elem_of_singleton. by econstructor.
  - by intros [= <-] ?%elem_of_nil.
Qed.

Lemma found_unique master_meta temp_files found found' :
  Forall2 (fun temp_file es => check_temp_file master_meta [] temp_file = inr es)
          temp_files found →
  Forall2 (fun temp_file es => check_temp_file master_meta [] temp_file = inr es)
          temp_files found' →
  found = found'.
Proof.
  intros Hf. revert found'.
  induction Hf as [|tf es l found Hes Hf IH]; intros found' Hf'.
  - by apply Forall2_nil_inv_l in Hf' as ->.
  - apply Forall2_cons_inv_l in Hf' as (es' & found'' & Hes' & Hf' & ->).
    f_equal; [congruence|by apply IH].
Qed.

Lemma verify_dataset_reported ds master_meta errors :
  master ds = Parsed master_meta →
  verify_dataset ds = Reported errors
  ↔ ∃ found,
      Forall2 (fun temp_file es => check_temp_file master_meta [] temp_file = inr es)
              (glob_meta (metadata_temp ds)) found
      ∧ errors = check_annotations master_meta (annotations ds) []
                 ++ mjoin found
                 ++ (image_name ← PyDict.keys master_meta;
                     check_master_entry (temp_exists ds) [] image_name).
Proof.
  intros Hm. unfold verify_dataset. rewrite Hm.
  destruct (check_temp_files _ _ _) as [e|out] eqn:Hloop.
  - split; [done|]. intros (found & Hf & _).
    assert (Hinr : check_temp_files master_meta (glob_meta (metadata_temp ds))
                     (check_annotations master_meta (annotations ds) [])
                   = inr (check_annotations master_meta (annotations ds) [] ++ mjoin found))
      by (apply check_temp_files_inr; eauto).
    congruence.
  - apply check_temp_files_inr in Hloop as (found & Hf & ->).
    rewrite fold_check_master_entry, <- app_assoc. split.
    + intros [= <-]. eauto.
    + intros (found' & Hf' & ->). by rewrite (found_unique _ _ _ _ Hf Hf').
Qed.

Lemma reported_errors_are_mismatches ds master_meta errors e :
  master ds = Parsed master_meta →
  verify_dataset ds = Reported errors →
  e ∈ errors ↔ mismatch ds master_meta e.
Proof.
  intros Hm Hrun. apply (verify_dataset_reported _ _ _ Hm) in Hrun as (found & Hf & ->).
  rewrite !elem_of_app, list_elem_of_bind. split.
  - intros [Hann|[Hfound|(k & He & Hk)]].
    + unfold check_annotations in Hann.
      destruct (annotations ds) as [| |images] eqn:Ha; simpl in Hann.
      * apply list_elem_of_singleton in Hann as ->. by constructor.
      * apply list_elem_of_singleton in Hann as ->. by constructor.
      * case_bool_decide; [|by apply elem_of_nil in Hann].
        apply list_elem_of_singleton in Hann as ->. by econstructor.
    + apply list_elem_of_join in Hfound as (es & He & Hes).
      apply list_elem_of_lookup in Hes as [i Hi].
      destruct (Forall2_lookup_r _ _ _ _ _ Hf Hi) as (tf & Htf & Hcheck).
      eapply elem_of_check_temp_file; [|done..]. by eapply list_elem_of_lookup_2.
    + unfold check_master_entry in He. fold (temp_filename_of k) in He.
      destruct (temp_exists ds _) eqn:Hex; [by apply elem_of_nil in He|].
      apply list_elem_of_singleton in He as ->. by econstructor.
  - intros [Ha|Ha|images Ha Hlen|filename content Hin Hg
            |filename t_data m_data t_min m_min Hin Hg Ht Hmin Hd|k Hk Hno].
    + left. unfold check_annotations. rewrite Ha. simpl. left.
    + left. unfold check_annotations. rewrite Ha. simpl. left.
    + left. unfold check_annotations. rewrite Ha, bool_decide_true by done. left.
    + right. left. apply list_elem_of_lookup in Hin as [i Hi].
      destruct (Forall2_lookup_l _ _ _ _ _ Hf Hi) as (es & Hes & Hcheck).
      apply list_elem_of_join. exists es. split; [|by eapply list_elem_of_lookup_2].
      unfold check_temp_file in Hcheck. simpl in Hcheck.
      fold (image_name_of filename) in Hcheck. rewrite Hg in Hcheck.
      injection Hcheck as <-. left.
    + right. left. apply list_elem_of_lookup in Hin as [i Hi].
      destruct (Forall2_lookup_l _ _ _ _ _ Hf Hi) as (es & Hes & Hcheck).
      apply list_elem_of_join. exists es. split; [|by eapply list_elem_of_lookup_2].
      unfold check_temp_file in Hcheck. simpl in Hcheck.
      fold (image_name_of filename) in Hcheck. rewrite Hg in Hcheck. simpl in Hcheck.
      rewrite Ht in Hcheck. simpl in Hcheck. rewrite Hmin in Hcheck. simpl in Hcheck.
      rewrite Hd in Hcheck. simpl in Hcheck. injection Hcheck as <-. left.
    + right. right. exists k. split; [|done].
      unfold check_master_entry. fold (temp_filename_of k). rewrite Hno. left.
Qed.

Lemma bind_all_nil {A B} (g : A → list B) (l : list A) :
  (∀ x, x ∈ l → g x = []) → l ≫= g = [].
Proof.
  induction l as [|x l IH]; intros Hall; [done|].
  rewrite bind_cons, (Hall x), IH; [done| |left]. intros y Hy. apply Hall. by right.
Qed.

Lemma verify_dataset_all_in_order ds master_meta :
  master ds = Parsed master_meta →
  (∀ temp_file, temp_file ∈ glob_meta (metadata_temp ds) →
     check_temp_file master_meta [] temp_file = inr []) →
  verify_dataset ds
  = Reported (check_annotations master_meta (annotations ds) []
              ++ (image_name ← PyDict.keys master_meta;
                  check_master_entry (temp_exists ds) [] image_name)).
Proof.
  intros Hm Hall. apply (verify_dataset_reported _ _ _ Hm).
  exists ((fun _ => []) <$> glob_meta (metadata_temp ds)). split.
  - apply Forall2_fmap_r, Forall_Forall2_diag, Forall_forall. exact Hall.
  - assert (Hnil : mjoin ((fun _ => []) <$> glob_meta (metadata_temp ds))
                   = ([] : list error)).
    { clear Hall. induction (glob_meta (metadata_temp ds)) as [|tf l IH]; [done|].
      rewrite fmap_cons. exact IH. }
    by rewrite Hnil.
Qed.

Import ReconcilerClaims.

(** A dataset with two mismatches: a shard without master entry and a
    master entry without shard. *)
Definition two_mismatches : dataset :=
  Dataset [("00002_meta.json", inr (depth_record 0.5 5))]
          (fun name => bool_decide (name = "00002_meta.json"))
          (Parsed (PyDict.of_list [("00001.png", depth_record 0.5 5)]))
          (Parsed ["00001.png"]).

(** In a run that reads the master file and ends without exception, the
    errors reported are exactly the mismatches found: a missing or
    unreadable annotation file or an image count different from the number
    of master entries, every shard file whose image name has no master
    entry, every shard whose minimum depth differs from its master entry's
    by more than the tolerance, and every master entry whose shard path
    does not exist.  No mismatch hides another. *)
Theorem reconciler_reports_every_mismatch (ds : dataset)
    (master_meta : dict string json) (errors : list error) (e : error) :
  master ds = Parsed master_meta →
  verify_dataset ds = Reported errors →
  e ∈ errors ↔ mismatch ds master_meta e.
Proof. apply reported_errors_are_mismatches. Qed.

Lemma reconciler_reports_every_mismatch_witness :
  TempMissing "00001.png" "00001_meta.json"
    ∈ [TempNotInMaster "00002_meta.json" "00002.png";
       TempMissing "00001.png" "00001_meta.json"]
  ↔ mismatch two_mismatches (PyDict.of_list [("00001.png", depth_record 0.5 5)])
             (TempMissing "00001.png" "00001_meta.json").
Proof.
  apply (reconciler_reports_every_mismatch two_mismatches); by vm_compute.
Defined.


End ReconcilerFacts.

(** ** Rebuilding the master metadata file and reconciling against it *)

Module NameFacts.
Import VerifyIncrementalMetadata UpdateNotebooks ReconcilerClaims ReconcilerFacts.

(** The character [c] does not occur in [s]. *)
Fixpoint lacks (c : ascii) (s : string) : Prop :=
  match s with
  | EmptyString => True
  | String a s' => a ≠ c ∧ lacks c s'
  end.

(** A file-name stem without underscore and without dot, such as
    ["00001"]. *)
Definition clean (stem : string) : Prop :=
  lacks "_"%char stem ∧ lacks "."%char stem.

Lemma string_app_nil_r (s : string) : s +:+ "" = s.
Proof.
  induction s as [|c s IH]; [done|].
  change (String c s +:+ "") with (String c (s +:+ "")). by rewrite IH.
Qed.

Lemma string_app_assoc (s1 s2 s3 : string) : (s1 +:+ s2) +:+ s3 = s1 +:+ s2 +:+ s3.
Proof.
  induction s1 as [|c s1 IH]; [done|].
  change ((String c s1 +:+ s2) +:+ s3) with (String c ((s1 +:+ s2) +:+ s3)).
  by rewrite IH.
Qed.

Lemma startswith_app p s : PyStr.startswith p (p +:+ s) = true.
Proof.
  induction p as [|c p IH]; [done|].
  change (String c p +:+ s) with (String c (p +:+ s)). simpl.
  by rewrite bool_decide_true, IH.
Qed.

Lemma startswith_refl p : PyStr.startswith p p = true.
Proof. rewrite <- (string_app_nil_r p) at 2. apply startswith_app. Qed.

Lemma replace_from_skip_all skip old new s :
  (String.length s ≤ skip)%nat → PyStr.replace_from skip old new s = "".
Proof.
  revert skip. induction s as [|c s IH]; intros skip Hlen; [done|].
  simpl in *. destruct skip as [|skip]; [lia|]. apply IH. lia.
Qed.

(** Replacing in a stem followed by one occurrence of [old], when the
    first character of [old] does not occur in the stem. *)
Lemma replace_stem_suffix c old new stem :
  lacks c stem →
  PyStr.replace (String c old) new (stem +:+ String c old) = stem +:+ new.
Proof.
  unfold PyStr.replace. induction stem as [|a stem IH]; intros Hstem.
  - change ("" +:+ String c old) with (String c old). cbn [PyStr.replace_from].
    rewrite startswith_refl. rewrite replace_from_skip_all by (simpl; lia).
    by rewrite string_app_nil_r.
  - destruct Hstem as [Hne Hstem].
    change (String a stem +:+ String c old) with (String a (stem +:+ String c old)).
    cbn [PyStr.replace_from].
    replace (PyStr.startswith (String c old) (String a (stem +:+ String c old)))
      with false.
    + by rewrite IH.
    + simpl. by rewrite bool_decide_false by congruence.
Qed.

Lemma image_name_of_shard stem :
  lacks "_"%char stem → image_name_of (stem +:+ "_meta.json") = stem +:+ ".png".
Proof. apply replace_stem_suffix. Qed.

Lemma temp_filename_of_image stem :
  lacks "."%char stem → temp_filename_of (stem +:+ ".png") = stem +:+ "_meta.json".
Proof. apply replace_stem_suffix. Qed.

Lemma img_name_of_shard stem :
  lacks "_"%char stem →
  PyStr.replace "_meta.json" "" (stem +:+ "_meta.json") +:+ ".png" = stem +:+ ".png".
Proof.
  intros Hstem. rewrite (replace_stem_suffix "_"%char "meta.json" "" stem Hstem).
  by rewrite string_app_nil_r.
Qed.

(** The names of a shard file and of its image determine each other, for a
    stem without underscore and dot: the reconciler maps one to the other
    and back, and the rebuilt master file uses the same image name. *)
Theorem shard_and_image_names_round_trip (stem : string) :
  clean stem →
  image_name_of (stem +:+ "_meta.json") = stem +:+ ".png"
  ∧ temp_filename_of (stem +:+ ".png") = stem +:+ "_meta.json"
  ∧ temp_filename_of (image_name_of (stem +:+ "_meta.json")) = stem +:+ "_meta.json"
  ∧ image_name_of (temp_filename_of (stem +:+ ".png")) = stem +:+ ".png"
  ∧ PyStr.replace "_meta.json" "" (stem +:+ "_meta.json") +:+ ".png"
    = image_name_of (stem +:+ "_meta.json").
Proof.
  intros [Hu Hd].
  rewrite (img_name_of_shard _ Hu).
  rewrite !(image_name_of_shard _ Hu), !(temp_filename_of_image _ Hd).
  by rewrite (image_name_of_shard _ Hu).
Qed.

Lemma shard_and_image_names_round_trip_witness :
  image_name_of ("00001" +:+ "_meta.json") = "00001" +:+ ".png"
  ∧ temp_filename_of ("00001" +:+ ".png") = "00001" +:+ "_meta.json"
  ∧ temp_filename_of (image_name_of ("00001" +:+ "_meta.json"))
    = "00001" +:+ "_meta.json"
  ∧ image_name_of (temp_filename_of ("00001" +:+ ".png")) = "00001" +:+ ".png"
  ∧ PyStr.replace "_meta.json" "" ("00001" +:+ "_meta.json") +:+ ".png"
    = image_name_of ("00001" +:+ "_meta.json").
Proof.
  apply (shard_and_image_names_round_trip "00001"). unfold clean. simpl.
  repeat split; discriminate.
Defined.

(** Where the stem does contain the pattern, the two scripts disagree on
    the image name of a shard file. *)
Example names_disagree_on_repeated_suffix :
  image_name_of "a_meta.json_meta.json" = "a.png.png"
  ∧ PyStr.replace "_meta.json" "" "a_meta.json_meta.json" +:+ ".png" = "a.png".
Proof. by vm_compute. Qed.


(** *** Rebuilding the master file and reconciling against it *)

Lemma rev_app_app (s1 s2 acc : string) :
  String.rev_app (s1 +:+ s2) acc = String.rev_app s2 (String.rev_app s1 acc).
Proof.
  revert acc. induction s1 as [|c s1 IH]; intros acc; [done|].
  change (String c s1 +:+ s2) with (String c (s1 +:+ s2)). simpl. apply IH.
Qed.

Lemma rev_app_acc (s acc : string) : String.rev_app s acc = String.rev s +:+ acc.
Proof.
  unfold String.rev. revert acc. induction s as [|c s IH]; intros acc; [done|].
  simpl. rewrite (IH (String c "")), IH, string_app_assoc. done.
Qed.

Lemma endswith_app p s : PyStr.endswith p (s +:+ p) = true.
Proof.
  unfold PyStr.endswith.
  change (String.rev (s +:+ p)) with (String.rev_app (s +:+ p) "").
  rewrite rev_app_app, (rev_app_acc p). apply startswith_app.
Qed.

Lemma string_app_inj_r (s1 s2 s : string) : s1 +:+ s = s2 +:+ s → s1 = s2.
Proof.
  revert s2. induction s1 as [|c1 s1 IH]; intros [|c2 s2] Heq; [done| | |].
  - assert (Hlen : String.length s = String.length (String c2 s2 +:+ s))
      by (by rewrite <- Heq).
    rewrite SplitClaims.string_length_app in Hlen. simpl in Hlen. lia.
  - assert (Hlen : String.length (String c1 s1 +:+ s) = String.length s)
      by (by rewrite Heq).
    rewrite SplitClaims.string_length_app in Hlen. simpl in Hlen. lia.
  - change (String c1 (s1 +:+ s) = String c2 (s2 +:+ s)) in Heq.
    injection Heq as -> Heq. f_equal. by apply IH.
Qed.

#[local] Set Warnings "-inexact-float".
Lemma depth_differs_refl (x : float) : depth_differs x x = false.
Proof.
  unfold depth_differs. rewrite ltb_spec, abs_spec, sub_spec.
  unfold SF64sub. destruct (Prim2SF x) as [sx|sx| |sx mx ex]; simpl.
  - by destruct sx.
  - by destruct sx.
  - done.
  - rewrite Z.min_id. by destruct sx; rewrite Z.sub_diag.
Qed.
#[local] Set Warnings "inexact-float".

(** A record that holds a number as the minimum depth of its depth range. *)
Definition holds_min_depth (data : json) : Prop :=
  ∃ v n, min_meters data = inr v ∧ as_number v = Some n.

Lemma min_differs_refl v n : as_number v = Some n → min_differs v v = inr false.
Proof.
  intros Hn. unfold min_differs. rewrite Hn. destruct n as [n|x].
  - f_equal. apply Z.leb_gt. lia.
  - by rewrite depth_differs_refl.
Qed.

Lemma NoDup_fst_unique {A B} (l : list (A * B)) k v1 v2 :
  NoDup (fst <$> l) → (k, v1) ∈ l → (k, v2) ∈ l → v1 = v2.
Proof.
  induction l as [|[k0 v0] l IH]; intros Hnd H1 H2; [by apply elem_of_nil in H1|].
  simpl in Hnd. apply NoDup_cons in Hnd as [Hk0 Hnd].
  apply elem_of_cons in H1 as [H1|H1], H2 as [H2|H2].
  - congruence.
  - injection H1 as <- <-. destruct Hk0. apply list_elem_of_fmap. by exists (k, v2).
  - injection H2 as <- <-. destruct Hk0. apply list_elem_of_fmap. by exists (k, v1).
  - by apply IH.
Qed.

Section OfListNoDup.
Context {V : Type}.
Implicit Types (l : list (string * V)).

Lemma of_list_keys_NoDup l :
  NoDup (fst <$> l) → PyDict.keys (PyDict.of_list l) = fst <$> l.
Proof.
  induction l as [|[k v] l IH] using rev_ind; intros Hnd; [done|].
  rewrite fmap_app in Hnd. apply NoDup_app in Hnd as (Hnd & Hk & _).
  rewrite PairingOrder.of_list_snoc, fmap_app. unfold PyDict.keys, PyDict.set. simpl.
  replace (PyDict.mem k (PyDict.of_list l)) with false.
  - unfold PyDict.keys in IH. by rewrite IH.
  - symmetry. apply PyDictFacts.mem_false, eq_None_not_Some.
    intros Hs%(PairingClaims.of_list_is_Some l k).
    apply (Hk k Hs). simpl. left.
Qed.

Lemma of_list_get_NoDup l k v :
  NoDup (fst <$> l) → (k, v) ∈ l → PyDict.get k (PyDict.of_list l) = Some v.
Proof.
  intros Hnd Hin.
  destruct (proj2 (PairingClaims.of_list_is_Some l k)) as [v' Hv'].
  { apply list_elem_of_fmap. by exists (k, v). }
  rewrite Hv'. f_equal. apply PairingClaims.of_list_lookup in Hv'.
  by eapply NoDup_fst_unique.
Qed.

Lemma of_list_wf l : PyDict.wf (PyDict.of_list l).
Proof.
  induction l as [|[k v] l IH] using rev_ind; [apply PyDictFacts.wf_empty|].
  rewrite PairingOrder.of_list_snoc. by apply PyDictFacts.wf_set.
Qed.
End OfListNoDup.

(** The files of a shard directory: distinct names, each of them a clean
    stem followed by ["_meta.json"]. *)
Definition shard_dir {A} (dir : list (string * A)) : Prop :=
  NoDup (fst <$> dir)
  ∧ ∀ f, f ∈ dir → ∃ stem, clean stem ∧ fst f = stem +:+ "_meta.json".

(** The directory when every shard is read without exception. *)
Definition readable (dir : list (string * json)) : list (string * (exn + json)) :=
  (fun f => (fst f, inr (snd f))) <$> dir.

Definition master_entries (dir : list (string * json)) : list (string * json) :=
  (fun f => (image_name_of (fst f), snd f)) <$> dir.

Lemma filter_all {A} (P : A → Prop) `{∀ x, Decision (P x)} (l : list A) :
  (∀ x, x ∈ l → P x) → filter P l = l.
Proof.
  induction l as [|x l IH]; intros Hall; [done|].
  rewrite filter_cons, decide_True by (apply Hall; left).
  f_equal. apply IH. intros y Hy. apply Hall. by right.
Qed.

Lemma glob_meta_files_readable dir :
  shard_dir dir → glob_meta_files (readable dir) = readable dir.
Proof.
  intros [_ Hnames]. unfold glob_meta_files, readable.
  apply filter_all. intros f (f' & -> & Hf')%list_elem_of_fmap.
  destruct (Hnames _ Hf') as (stem & _ & ->). simpl. apply endswith_app.
Qed.

Lemma not_hidden stem : clean stem → PyStr.startswith "." (stem +:+ "_meta.json") = false.
Proof.
  intros [_ Hd]. destruct stem as [|c stem]; [done|]. destruct Hd as [Hc _].
  change (String c stem +:+ "_meta.json") with (String c (stem +:+ "_meta.json")).
  simpl. rewrite bool_decide_false by congruence. done.
Qed.

Lemma glob_meta_shard_dir {A} (dir : list (string * A)) :
  shard_dir dir → glob_meta dir = dir.
Proof.
  intros [_ Hnames]. unfold glob_meta.
  apply filter_all. intros f Hf.
  destruct (Hnames _ Hf) as (stem & Hclean & ->).
  split; [apply endswith_app | by apply not_hidden].
Qed.

Lemma shard_dir_readable dir : shard_dir dir → shard_dir (readable dir).
Proof.
  intros [Hnd Hnames]. unfold readable. split.
  - by rewrite <- list_fmap_compose.
  - intros f (g & -> & Hg)%list_elem_of_fmap. by apply Hnames.
Qed.

Lemma fold_add_shard_readable dir :
  shard_dir dir →
  fold_left add_shard (readable dir) PyDict.empty = PyDict.of_list (master_entries dir).
Proof.
  intros [_ Hnames]. unfold PyDict.of_list, master_entries, readable.
  generalize (PyDict.empty (K := string) (V := json)).
  induction dir as [|f dir IH]; intros d; [done|].
  simpl. rewrite <- IH by (intros f' Hf'; apply Hnames; by right). f_equal.
  unfold add_shard. simpl. destruct (Hnames f) as (stem & [Hu Hd] & ->); [left|].
  by rewrite (img_name_of_shard _ Hu), (image_name_of_shard _ Hu).
Qed.

Lemma master_entries_NoDup dir : shard_dir dir → NoDup (fst <$> master_entries dir).
Proof.
  intros [Hnd Hnames]. unfold master_entries. rewrite <- list_fmap_compose.
  apply (NoDup_fmap_2_strong _ dir); [|exact (NoDup_fmap_1 fst dir Hnd)].
  intros f1 f2 Hf1 Hf2 Heq. simpl in Heq.
  destruct (Hnames _ Hf1) as (stem1 & [Hu1 _] & Hn1).
  destruct (Hnames _ Hf2) as (stem2 & [Hu2 _] & Hn2).
  rewrite Hn1, Hn2, !image_name_of_shard in Heq by done.
  apply string_app_inj_r in Heq. subst stem2.
  destruct f1 as [n1 t1], f2 as [n2 t2]. simpl in *. subst n1 n2. f_equal.
  by eapply NoDup_fst_unique.
Qed.

Lemma reconstruct_readable dir :
  shard_dir dir → dir ≠ [] →
  reconstruct_metadata (Some (readable dir)) = Some (PyDict.of_list (master_entries dir))
  ∧ PyDict.len (PyDict.of_list (master_entries dir)) = length dir.
Proof.
  intros Hdir Hne.
  assert (Hlen : PyDict.len (PyDict.of_list (master_entries dir)) = length dir).
  { rewrite PyDictFacts.wf_len by apply of_list_wf.
    change (d_keys ?d) with (PyDict.keys d).
    rewrite of_list_keys_NoDup by (by apply master_entries_NoDup).
    unfold master_entries. by rewrite !length_fmap. }
  split; [|done]. unfold reconstruct_metadata.
  rewrite glob_meta_files_readable, fold_add_shard_readable by done.
  rewrite bool_decide_false; [done|]. rewrite Hlen. by destruct dir.
Qed.

(** A shard whose file is in the directory the master was rebuilt from,
    and which holds a number as minimum depth, raises no error. *)
Lemma shard_in_master dir f :
  shard_dir dir → f ∈ dir → holds_min_depth (snd f) →
  check_temp_file (PyDict.of_list (master_entries dir)) [] (fst f, inr (snd f)) = inr [].
Proof.
  intros Hdir Hf (v & n & Hv & Hn). unfold check_temp_file. simpl.
  fold (image_name_of (fst f)).
  rewrite (of_list_get_NoDup _ _ (snd f)).
  - simpl. rewrite Hv. simpl. by rewrite (min_differs_refl v n Hn).
  - by apply master_entries_NoDup.
  - unfold master_entries. apply list_elem_of_fmap. by exists f.
Qed.

Lemma master_entry_shard_name {A} (dir : list (string * A)) f :
  shard_dir dir → f ∈ dir → temp_filename_of (image_name_of (fst f)) = fst f.
Proof.
  intros [_ Hnames] Hf. destruct (Hnames _ Hf) as (stem & [Hu Hd] & ->).
  by rewrite (image_name_of_shard _ Hu), (temp_filename_of_image _ Hd).
Qed.

Definition three_shards : list (string * json) :=
  [("00001_meta.json", depth_record 0.5 5);
   ("00002_meta.json", JObject [("depth_range", JObject [("min_meters", JInt 2)])]);
   ("00003_meta.json", depth_record 1 8)].

Lemma three_shards_dir : shard_dir three_shards.
Proof.
  split.
  - apply (bool_decide_unpack _). by vm_compute.
  - intros f Hf. unfold three_shards in Hf. set_unfold in Hf.
    destruct Hf as [-> | [-> | [-> | []]]]; simpl;
      [exists "00001" | exists "00002" | exists "00003"];
      (split; [unfold clean; simpl; repeat split; discriminate | done]).
Qed.

Lemma three_shards_min_depth f : f ∈ three_shards → holds_min_depth (snd f).
Proof.
  intros Hf. unfold three_shards in Hf. set_unfold in Hf.
  destruct Hf as [-> | [-> | [-> | []]]]; simpl; eexists _, _; by vm_compute.
Qed.

Lemma shard_dir_perm {A} (dir listing : list (string * A)) :
  listing ≡ₚ dir → shard_dir dir → shard_dir listing.
Proof.
  intros Hp [Hnd Hnames]. split.
  - by rewrite Hp.
  - intros f Hf. apply Hnames. by rewrite <- Hp.
Qed.

Lemma bind_single {A B} (h : A → list B) (l : list A) (a : A) :
  NoDup l → a ∈ l → (∀ x, x ∈ l → x ≠ a → h x = []) → l ≫= h = h a.
Proof.
  induction 1 as [|x l Hx Hnd IH]; intros Ha Hall; [by apply elem_of_nil in Ha|].
  rewrite bind_cons. apply elem_of_cons in Ha as [<- | Ha].
  - rewrite (bind_all_nil h l); [by rewrite app_nil_r|].
    intros y Hy. apply Hall; [by right|]. by intros ->.
  - rewrite (Hall x), IH; [done..| |left|by intros ->].
    intros y Hy. apply Hall. by right.
Qed.

(** The shards of [listing], all from [dir], are in order against the
    master file rebuilt from [dir]. *)
Lemma listing_in_order dir listing temp_file :
  shard_dir dir → (∀ g, g ∈ listing → g ∈ dir) →
  (∀ g, g ∈ listing → holds_min_depth (snd g)) →
  temp_file ∈ glob_meta (readable listing) →
  check_temp_file (PyDict.of_list (master_entries dir)) [] temp_file = inr [].
Proof.
  intros Hdir Hsub Hmin [_ Hin]%list_elem_of_filter.
  apply list_elem_of_fmap in Hin as (g & -> & Hg).
  apply shard_in_master; auto.
Qed.

(** Rebuilding the master file from a shard directory (distinct files
    named by a clean stem and ["_meta.json"], all read without exception,
    each holding a number as minimum depth, at least one) and then
    reconciling the directory against the file written finds no shard or
    entry mismatch, in whatever order the reconciler lists the directory
    and as long as the files it lists exist: the master has one entry per
    shard, and the only errors left are those of the annotation file;
    with as many images as shards there is none. *)
Theorem reconstruct_then_reconcile (dir listing : list (string * json))
    (temp_exists : string → bool) (anns : json_file (list string)) :
  shard_dir dir → dir ≠ [] → listing ≡ₚ dir →
  (∀ f, f ∈ dir → holds_min_depth (snd f)) →
  (∀ f, f ∈ listing → temp_exists (fst f) = true) →
  ∃ master_meta,
    reconstruct_metadata (Some (readable dir)) = Some master_meta
    ∧ PyDict.len master_meta = length dir
    ∧ verify_dataset (Dataset (readable listing) temp_exists (Parsed master_meta) anns)
      = Reported (check_annotations master_meta anns [])
    ∧ ∀ images, anns = Parsed images → length images = length dir →
        verify_dataset (Dataset (readable listing) temp_exists (Parsed master_meta) anns)
        = Reported [].
Proof.
  intros Hdir Hne Hp Hmin Hexists.
  destruct (reconstruct_readable dir Hdir Hne) as [Hrec Hlen].
  exists (PyDict.of_list (master_entries dir)).
  assert (Hrun : verify_dataset
                   (Dataset (readable listing) temp_exists
                      (Parsed (PyDict.of_list (master_entries dir))) anns)
                 = Reported (check_annotations (PyDict.of_list (master_entries dir)) anns [])).
  { rewrite (verify_dataset_all_in_order (Dataset (readable listing) temp_exists _ anns)
               (PyDict.of_list (master_entries dir)) eq_refl).
    - simpl. rewrite bind_all_nil; [by rewrite app_nil_r|].
      intros k Hk. rewrite of_list_keys_NoDup in Hk by (by apply master_entries_NoDup).
      unfold master_entries in Hk. rewrite <- list_fmap_compose in Hk.
      apply list_elem_of_fmap in Hk as (f & -> & Hf). simpl.
      unfold check_master_entry. fold (temp_filename_of (image_name_of (fst f))).
      rewrite (master_entry_shard_name dir f Hdir Hf).
      rewrite Hexists; [done|]. by rewrite Hp.
    - simpl. intros tf Htf. apply (listing_in_order dir listing); [done| | |done].
      + intros g Hg. by rewrite <- Hp.
      + intros g Hg. apply Hmin. by rewrite <- Hp. }
  split_and!; [done..|].
  intros images -> Himg. rewrite Hrun. unfold check_annotations.
  by rewrite bool_decide_false by lia.
Qed.

Definition three_images : json_file (list string) :=
  Parsed ["00001.png"; "00002.png"; "00003.png"].

(** A flat directory: a name exists when the listing has it. *)
Definition listed {A} (listing : list (string * A)) (name : string) : bool :=
  bool_decide (name ∈ fst <$> listing).

Lemma listed_true {A} (listing : list (string * A)) f :
  f ∈ listing → listed listing (fst f) = true.
Proof.
  intros Hf. apply bool_decide_eq_true, list_elem_of_fmap. eauto.
Qed.

Lemma reconstruct_then_reconcile_witness :
  ∃ master_meta,
    reconstruct_metadata (Some (readable three_shards)) = Some master_meta
    ∧ PyDict.len master_meta = length three_shards
    ∧ verify_dataset (Dataset (readable (reverse three_shards))
                        (listed (reverse three_shards)) (Parsed master_meta) three_images)
      = Reported (check_annotations master_meta three_images [])
    ∧ ∀ images, three_images = Parsed images →
        length images = length three_shards →
        verify_dataset (Dataset (readable (reverse three_shards))
                          (listed (reverse three_shards)) (Parsed master_meta) three_images)
        = Reported [].
Proof.
  apply (reconstruct_then_reconcile three_shards (reverse three_shards)
           (listed (reverse three_shards)) three_images);
    [apply three_shards_dir|done|apply reverse_Permutation
    |apply three_shards_min_depth|apply listed_true].
Defined.

(** After the master file has been rebuilt from a shard directory,
    deleting one shard file makes the reconciler report exactly one more
    error, the missing shard of that file's image, whatever the other
    shards are and in whatever order the directory is listed. *)
Theorem deleted_shard_is_reported (dir listing : list (string * json))
    (f : string * json) (temp_exists : string → bool)
    (anns : json_file (list string)) (master_meta : dict string json) :
  shard_dir dir → f :: listing ≡ₚ dir →
  (∀ g, g ∈ listing → holds_min_depth (snd g)) →
  (∀ g, g ∈ listing → temp_exists (fst g) = true) →
  temp_exists (fst f) = false →
  reconstruct_metadata (Some (readable dir)) = Some master_meta →
  verify_dataset (Dataset (readable listing) temp_exists (Parsed master_meta) anns)
  = Reported (check_annotations master_meta anns []
              ++ [TempMissing (image_name_of (fst f)) (fst f)]).
Proof.
  intros Hdir Hp Hmin Hexists Hgone Hrec.
  destruct (reconstruct_readable dir Hdir) as [Hrec' _].
  { intros ->. by apply Permutation_nil_r in Hp. }
  rewrite Hrec' in Hrec. injection Hrec as <-.
  assert (Hfdir : f ∈ dir) by (rewrite <- Hp; left).
  assert (Hsub : ∀ g, g ∈ listing → g ∈ dir) by (intros g Hg; rewrite <- Hp; by right).
  rewrite (verify_dataset_all_in_order (Dataset (readable listing) temp_exists _ anns)
             (PyDict.of_list (master_entries dir)) eq_refl).
  2:{ simpl. intros tf Htf. by apply (listing_in_order dir listing). }
  simpl. rewrite of_list_keys_NoDup by (by apply master_entries_NoDup).
  set (master_meta := PyDict.of_list _).
  rewrite (bind_single _ _ (image_name_of (fst f))).
  - do 2 f_equal.
    unfold check_master_entry. fold (temp_filename_of (image_name_of (fst f))).
    rewrite (master_entry_shard_name _ f Hdir Hfdir). by rewrite Hgone.
  - by apply master_entries_NoDup.
  - unfold master_entries. rewrite <- list_fmap_compose.
    apply list_elem_of_fmap. by exists f.
  - intros k Hk Hne. unfold master_entries in Hk. rewrite <- list_fmap_compose in Hk.
    apply list_elem_of_fmap in Hk as (g & -> & Hg). simpl in *.
    unfold check_master_entry. fold (temp_filename_of (image_name_of (fst g))).
    rewrite (master_entry_shard_name _ g Hdir Hg).
    rewrite Hexists; [done|]. rewrite <- Hp in Hg.
    apply elem_of_cons in Hg as [-> | Hg]; done.
Qed.

Definition two_shards_left : list (string * json) :=
  [("00003_meta.json", depth_record 1 8); ("00001_meta.json", depth_record 0.5 5)].

Lemma deleted_shard_is_reported_witness :
  verify_dataset
    (Dataset (readable two_shards_left) (listed two_shards_left)
       (Parsed (PyDict.of_list (master_entries three_shards))) three_images)
  = Reported (check_annotations (PyDict.of_list (master_entries three_shards))
                three_images []
              ++ [TempMissing (image_name_of "00002_meta.json") "00002_meta.json"]).
Proof.
  apply (deleted_shard_is_reported three_shards two_shards_left
           ("00002_meta.json", JObject [("depth_range", JObject [("min_meters", JInt 2)])])
           (listed two_shards_left) three_images).
  - apply three_shards_dir.
  - unfold three_shards, two_shards_left.
    etrans; [apply perm_skip, perm_swap | apply perm_swap].
  - intros g Hg. apply three_shards_min_depth.
    unfold two_shards_left, three_shards in *. set_unfold in Hg. set_unfold. tauto.
  - apply listed_true.
  - by vm_compute.
  - apply (reconstruct_readable three_shards three_shards_dir). done.
Defined.

End NameFacts.

(** ** More on splitting and joining *)

Module SplitFacts.
Import SplitDataset VerifySplit SplitClaims.

Lemma chunked_tail n c parts : chunked n (c :: parts) → chunked n parts.
Proof.
  intros [Hsize Hfull]. split.
  - intros c' Hc'. apply Hsize. by right.
  - intros i c' Hi Hlt. apply (Hfull (S i) c' Hi). simpl. lia.
Qed.

Lemma chunked_head n c c' parts : chunked n (c :: c' :: parts) → length c = n.
Proof. intros [_ Hfull]. apply (Hfull 0%nat c); [done|simpl; lia]. Qed.

(** The parts of a split are the consecutive slices of the input. *)
Lemma chunked_lookup n parts i c :
  chunked n parts → parts !! i = Some c →
  c = take n (drop (i * n) (concat parts)).
Proof.
  revert i. induction parts as [|c0 parts IH]; intros i Hch Hi; [done|].
  destruct parts as [|c1 parts].
  - destruct i as [|i]; [|done]. injection Hi as ->. simpl. rewrite app_nil_r.
    destruct Hch as [Hsize _]. rewrite take_ge; [done|]. apply Hsize. left.
  - pose proof (chunked_head _ _ _ _ Hch) as Hlen.
    destruct i as [|i].
    + injection Hi as ->. cbn [concat]. change (0 * n)%nat with 0%nat.
      by rewrite drop_0, take_app_length'.
    + cbn [concat]. replace (S i * n)%nat with (length c0 + i * n)%nat by lia.
      rewrite drop_app_add'; [|done]. apply IH; [by eapply chunked_tail|done].
Qed.

Lemma chunked_length n parts :
  (0 < n)%nat → chunked n parts →
  length parts = ((length (concat parts) + n - 1) / n)%nat.
Proof.
  intros Hn. induction parts as [|c0 parts IH]; intros Hch.
  - simpl. symmetry. apply Nat.div_small. lia.
  - destruct parts as [|c1 parts].
    + simpl. rewrite app_nil_r. destruct Hch as [Hsize _].
      assert (0 < length c0 ≤ n)%nat by (apply Hsize; left).
      apply (Nat.div_unique _ _ _ (length c0 - 1)); lia.
    + pose proof (chunked_head _ _ _ _ Hch) as Hlen.
      apply chunked_tail in Hch. specialize (IH Hch).
      remember (c1 :: parts) as ps eqn:Hps. clear Hps.
      cbn [concat List.length]. rewrite length_app, Hlen, IH.
      replace (n + length (concat ps) + n - 1)%nat
        with (1 * n + (length (concat ps) + n - 1))%nat by lia.
      rewrite Nat.div_add_l by lia. done.
Qed.

Lemma write_parts_frame file_path part_num parts (fs : files) name :
  (∀ j, (part_num ≤ j < part_num + length parts)%nat → name ≠ part_name file_path j) →
  write_parts file_path part_num parts fs !! name = fs !! name.
Proof.
  revert part_num fs. induction parts as [|c parts IH]; intros part_num fs Hname; [done|].
  simpl in *. rewrite IH by (intros j Hj; apply Hname; lia).
  apply lookup_insert_ne. intros Heq. by apply (Hname part_num); [lia|].
Qed.

(** The number of parts [split_file] writes for an input of [len] bytes. *)
Definition part_count (chunk_size : Z) (len : nat) : nat :=
  ((len + Z.to_nat chunk_size - 1) / Z.to_nat chunk_size)%nat.

Lemma split_file_written (fs : files) file_path chunk_size data :
  0 < chunk_size → fs !! file_path = Some data →
  ∃ parts, split_file file_path chunk_size fs = write_parts file_path 1 parts fs
           ∧ concat parts = data
           ∧ length parts = part_count chunk_size (length data)
           ∧ ∀ i c, parts !! i = Some c
                    → c = take (Z.to_nat chunk_size) (drop (i * Z.to_nat chunk_size) data).
Proof.
  intros Hpos Hfile. unfold split_file. rewrite Hfile.
  destruct (split_loop_spec chunk_size file_path data 1 fs Hpos)
    as (parts & Hloop & Hcat & Hch).
  exists parts. split_and!; [done..| |].
  - unfold part_count. rewrite <- Hcat. apply chunked_length; [lia|done].
  - intros i c Hi. rewrite <- Hcat. by apply chunked_lookup.
Qed.

(** Splitting a file with a positive chunk size writes part [j], for [j]
    from 1 to the number of chunks (the length divided by the chunk size,
    rounded up), with the [j]-th slice of [chunk_size] bytes of the input,
    and leaves every other file of the directory as it was: the input
    itself, and any older part with a higher number. *)
Theorem split_file_writes_slices (fs : files) (file_path : string)
    (chunk_size : Z) (data : list Byte.byte) :
  0 < chunk_size → fs !! file_path = Some data →
  let fs' := split_file file_path chunk_size fs in
  let n := Z.to_nat chunk_size in
  let count := ((length data + n - 1) / n)%nat in
  (∀ j, (j < count)%nat →
     fs' !! part_name file_path (S j) = Some (take n (drop (j * n) data))
     ∧ take n (drop (j * n) data) ≠ [])
  ∧ (∀ name, (∀ j, (j < count)%nat → name ≠ part_name file_path (S j)) →
     fs' !! name = fs !! name).
Proof.
  intros Hpos Hfile fs' n count.
  destruct (split_file_written fs file_path chunk_size data Hpos Hfile)
    as (parts & Hfs' & Hcat & Hlen & Hslice).
  fold fs' in Hfs'. unfold part_count in Hlen. fold n count in Hlen, Hslice.
  split.
  - intros j Hj. rewrite Hfs', write_parts_lookup_part, decide_True by lia.
    replace (S j - 1)%nat with j by lia.
    destruct (lookup_lt_is_Some_2 parts j) as [c Hc]; [lia|].
    rewrite Hc, <- (Hslice j c Hc). split; [done|]. intros ->.
    assert (Hpos' : (0 < length (take n (drop (j * n) data)))%nat).
    { rewrite length_take, length_drop.
      assert (j * n < length data)%nat; [|lia].
      assert (Hdm := Nat.div_mod_eq (length data + n - 1) n). fold count in Hdm.
      assert (Hmod : ((length data + n - 1) mod n < n)%nat) by (apply Nat.mod_upper_bound; lia).
      nia. }
    rewrite <- (Hslice j [] Hc) in Hpos'. simpl in Hpos'. lia.
  - intros name Hname. rewrite Hfs'.
    apply write_parts_frame. intros [|j] Hj; [lia|]. apply Hname. lia.
Qed.

Lemma split_file_writes_slices_witness :
  let data := [Byte.x01; Byte.x02; Byte.x03; Byte.x04; Byte.x05] in
  let fs : files := {[ "a.zip" := data ]} in
  let fs' := split_file "a.zip" 2 fs in
  let n := Z.to_nat 2 in
  let count := ((length data + n - 1) / n)%nat in
  (∀ j, (j < count)%nat →
     fs' !! part_name "a.zip" (S j) = Some (take n (drop (j * n) data))
     ∧ take n (drop (j * n) data) ≠ [])
  ∧ (∀ name, (∀ j, (j < count)%nat → name ≠ part_name "a.zip" (S j)) →
     fs' !! name = fs !! name).
Proof.
  intros data fs.
  apply (split_file_writes_slices fs "a.zip" 2 data); [lia|done].
Defined.


(** *** The joiner on any directory *)

(** With whatever fuel, the search returns a run of existing parts; it
    stops short of an existing part only when the fuel is used up. *)
Lemma find_parts_is_run fuel (fs : files) base_name i :
  ∃ k, find_parts fuel fs base_name i = part_name base_name <$> seq i k
       ∧ (∀ j, (i ≤ j < i + k)%nat → is_Some (fs !! part_name base_name j))
       ∧ ((k < fuel)%nat → fs !! part_name base_name (i + k) = None).
Proof.
  revert i. induction fuel as [|fuel IH]; intros i.
  { exists 0%nat. split_and!; [done|lia|lia]. }
  simpl. destruct (decide (is_Some (fs !! part_name base_name i))) as [Hi|Hi].
  - destruct (IH (S i)) as (k & -> & Hsome & Hnone). exists (S k). split_and!; [done| |].
    + intros j Hj. destruct (decide (j = i)) as [->|]; [done|]. apply Hsome. lia.
    + intros Hk. replace (i + S k)%nat with (S i + k)%nat by lia. apply Hnone. lia.
  - exists 0%nat. split_and!; [done|lia|].
    intros _. rewrite Nat.add_0_r. by apply eq_None_not_Some.
Qed.

(** On any directory the joiner finds the parts numbered 1, 2, ... up to
    the first number that has no file (parts after a gap are not seen),
    and writes their contents one after the other; without part 1 it
    writes nothing.  The search never needs more steps than the directory
    has files. *)
Theorem joiner_reads_first_run (fs : files) (base_name : string) :
  ∃ k : nat,
    find_parts (S (size fs)) fs base_name 1 = part_name base_name <$> seq 1 k
    ∧ (k ≤ size fs)%nat
    ∧ (∀ j, (1 ≤ j ≤ k)%nat → is_Some (fs !! part_name base_name j))
    ∧ fs !! part_name base_name (S k) = None
    ∧ verify_split_files fs base_name
      = if decide (k = 0%nat) then None
        else Some (concat ((fun j => default [] (fs !! part_name base_name j))
                             <$> seq 1 k)).
Proof.
  destruct (find_parts_is_run (S (size fs)) fs base_name 1) as (k & Hfind & Hsome & Hnone).
  pose proof (parts_le_size fs base_name 1 k Hsome) as Hle.
  exists k. split_and!; [done|done| |apply Hnone; lia|].
  - intros j Hj. apply Hsome. lia.
  - unfold verify_split_files. rewrite Hfind.
    destruct k as [|k]; [done|]. rewrite decide_False by done.
    rewrite recombine_concat, <- list_fmap_compose. done.
Qed.

(** *** Older parts *)

(** [split_file] removes nothing: when the directory already holds parts
    with higher numbers than the split writes (say from an earlier split
    of a longer file), the joiner reads them after the new parts, and the
    joined file is the input followed by the old bytes. *)
Theorem stale_parts_are_joined (fs : files) (file_path : string)
    (chunk_size : Z) (data : list Byte.byte) (stale : list (list Byte.byte)) :
  0 < chunk_size → fs !! file_path = Some data →
  let count := ((length data + Z.to_nat chunk_size - 1) / Z.to_nat chunk_size)%nat in
  (∀ i, fs !! part_name file_path (S count + i) = stale !! i) →
  verify_split_files (split_file file_path chunk_size fs) file_path
  = if decide (data = [] ∧ stale = []) then None else Some (data ++ concat stale).
Proof.
  intros Hpos Hfile count Hstale.
  destruct (split_file_written fs file_path chunk_size data Hpos Hfile)
    as (parts & -> & Hcat & Hlen & _).
  unfold part_count in Hlen. fold count in Hlen.
  set (fs' := write_parts file_path 1 parts fs).
  assert (Hnew : ∀ i, (i < count)%nat → fs' !! part_name file_path (S i) = parts !! i).
  { intros i Hi. unfold fs'. rewrite write_parts_lookup_part, decide_True by lia.
    by replace (S i - 1)%nat with i by lia. }
  assert (Hold : ∀ i, fs' !! part_name file_path (S count + i) = stale !! i).
  { intros i. unfold fs'. rewrite write_parts_lookup_part, decide_False by lia.
    apply Hstale. }
  assert (Hsome : ∀ j, (1 ≤ j < 1 + (count + length stale))%nat
                       → is_Some (fs' !! part_name file_path j)).
  { intros [|j] Hj; [lia|]. destruct (decide (j < count)%nat) as [Hlt|Hge].
    - rewrite Hnew by done. apply lookup_lt_is_Some. lia.
    - replace (S j) with (S count + (j - count))%nat by lia.
      rewrite Hold. apply lookup_lt_is_Some. lia. }
  assert (Hfind : find_parts (S (size fs')) fs' file_path 1
                  = part_name file_path <$> seq 1 (count + length stale)).
  { apply find_parts_run; [done| |].
    - replace (1 + (count + length stale))%nat with (S count + length stale)%nat by lia.
      rewrite Hold. by apply lookup_ge_None.
    - pose proof (parts_le_size fs' file_path 1 _ Hsome). lia. }
  assert (Hjoin : recombine fs' (part_name file_path <$> seq 1 (count + length stale))
                  = data ++ concat stale).
  { rewrite recombine_concat, <- list_fmap_compose, seq_app, fmap_app, concat_app.
    rewrite <- Hcat. f_equal; f_equal; apply list_eq; intros i;
      rewrite list_lookup_fmap.
    - destruct (decide (i < count)%nat) as [Hi|Hi].
      + rewrite lookup_seq_lt by done. simpl. rewrite Hnew by done.
        destruct (lookup_lt_is_Some_2 parts i) as [c ->]; [lia|]. done.
      + rewrite lookup_seq_ge by lia. simpl. symmetry. apply lookup_ge_None. lia.
    - destruct (decide (i < length stale)%nat) as [Hi|Hi].
      + rewrite lookup_seq_lt by done. simpl.
        replace (S (count + i)) with (S count + i)%nat by lia. rewrite Hold.
        destruct (lookup_lt_is_Some_2 stale i Hi) as [c ->]. done.
      + rewrite lookup_seq_ge by lia. simpl. symmetry. apply lookup_ge_None. lia. }
  unfold verify_split_files. rewrite Hfind.
  destruct (decide (data = [] ∧ stale = [])) as [[-> ->]|Hne].
  - destruct parts as [|c parts]; [|simpl in Hlen; unfold count in Hlen; simpl in Hlen].
    + simpl in *. by rewrite <- Hlen.
    + rewrite Nat.div_small in Hlen by lia. done.
  - rewrite Hjoin. destruct (count + length stale)%nat as [|k] eqn:Hk; [|done].
    exfalso. apply Hne. split.
    + rewrite <- Hcat. destruct parts; [done|simpl in Hlen; lia].
    + destruct stale; [done|simpl in Hk; lia].
Qed.

Lemma stale_parts_are_joined_witness :
  let data := [Byte.x01; Byte.x02; Byte.x03] in
  let fs : files := {[ "a.zip" := data; "a.zip.003" := [Byte.x09] ]} in
  verify_split_files (split_file "a.zip" 2 fs) "a.zip"
  = if decide (data = [] ∧ [[Byte.x09]] = []) then None
    else Some (data ++ concat [[Byte.x09]]).
Proof.
  intros data fs.
  apply (stale_parts_are_joined fs "a.zip" 2 data [[Byte.x09]]); [lia|done|].
  intros [|i]; [done|]. simpl. subst fs.
  rewrite lookup_insert_ne by (intros Heq; symmetry in Heq;
                               by apply part_name_not_file in Heq).
  apply lookup_singleton_ne. change "a.zip.003" with (part_name "a.zip" 3).
  intros Heq%part_name_inj. lia.
Defined.

(** *** Nothing to write *)

(** With a non-negative chunk size and no part 1 in the directory,
    [split_file] leaves the directory as it was exactly when the file is
    missing, the file is empty, or the chunk size is zero (then
    [f.read(0)] returns no byte and the loop ends at once). *)
Theorem split_writes_nothing_iff (fs : files) (file_path : string) (chunk_size : Z) :
  0 ≤ chunk_size → fs !! part_name file_path 1 = None →
  split_file file_path chunk_size fs = fs
  ↔ chunk_size = 0 ∨ fs !! file_path = None ∨ fs !! file_path = Some [].
Proof.
  intros Hnonneg Hfresh. unfold split_file.
  destruct (fs !! file_path) as [data|] eqn:Hfile; [|by intuition].
  rewrite split_loop_unfold. unfold f_read.
  destruct (chunk_size <? 0) eqn:Hneg; [apply Z.ltb_lt in Hneg; lia|].
  destruct (decide (chunk_size = 0)) as [->|Hnz].
  { simpl. by intuition. }
  destruct data as [|b data].
  { rewrite take_nil. by intuition. }
  destruct (Z.to_nat chunk_size) as [|n] eqn:Hn; [lia|]. simpl. split.
  - intros Heq. exfalso.
    assert (Hpart : fs !! part_name file_path 1 = Some (b :: take n data)).
    { rewrite <- Heq at 1.
      destruct (split_loop_spec chunk_size file_path (drop n data) 2
                  (<[part_name file_path 1 := b :: take n data]> fs))
        as (parts & -> & _); [lia|].
      rewrite write_parts_lookup_part, decide_False by lia.
      apply lookup_insert_eq. }
    by rewrite Hfresh in Hpart.
  - intros [?|[?|?]]; [lia|done|done].
Qed.

Lemma split_writes_nothing_iff_witness :
  split_file "a.zip" 0 {[ "a.zip" := [Byte.x01] ]} = {[ "a.zip" := [Byte.x01] ]}
  ↔ 0 = 0 ∨ ({[ "a.zip" := [Byte.x01] ]} : files) !! "a.zip" = None
    ∨ ({[ "a.zip" := [Byte.x01] ]} : files) !! "a.zip" = Some [].
Proof.
  apply (split_writes_nothing_iff {[ "a.zip" := [Byte.x01] ]} "a.zip" 0); [lia|].
  apply lookup_singleton_ne. intros Heq. symmetry in Heq.
  by apply part_name_not_file in Heq.
Defined.

End SplitFacts.

(** ** The visualizer and the checker on the same mask *)

Module VisualizerFacts.
Import ComprehensiveCheck VisualizeSample VisualizeSampleLoop PyDictFacts ScanFacts.
Import ChannelSeparation.

Definition object_types : list string := ["ripe"; "unripe"; "half_ripe"; "peduncle"].

(** A mask without a pixel of an invalid category (a [B] channel other
    than 0, 1, 2, 3). *)
Definition no_fault (m : mask) : Prop :=
  ∀ y x, (y < rows m)%nat → (x < cols m)%nat → ∀ b, decode_pixel (at_ m y x) ≠ Fault b.

Lemma decode_pixel_cases p :
  (decode_pixel p = Background ∧ instance_of p = 0)
  ∨ (∃ b, decode_pixel p = Fault b)
  ∨ (∃ t, t ∈ object_types ∧ decode_pixel p = Object (t, instance_of p)).
Proof.
  destruct p as [[b g] r]. unfold decode_pixel, decode, instance_of.
  destruct (b =? 3) eqn:H3.
  { apply Z.eqb_eq in H3 as ->. simpl. right. right. exists "peduncle".
    split; [|done]. unfold object_types. set_solver. }
  destruct (b =? 0) eqn:H0.
  { apply Z.eqb_eq in H0 as ->. simpl.
    destruct ((g =? 0) && (r =? 0)) eqn:Hgr.
    - left. apply andb_true_iff in Hgr as [_ Hr%Z.eqb_eq]. done.
    - right. right. exists "ripe". split; [|done]. unfold object_types. set_solver. }
  rewrite andb_false_l.
  destruct (b =? 1) eqn:H1.
  { apply Z.eqb_eq in H1 as ->. simpl. right. right. exists "unripe".
    split; [|done]. unfold object_types. set_solver. }
  destruct (b =? 2) eqn:H2.
  { apply Z.eqb_eq in H2 as ->. simpl. right. right. exists "half_ripe".
    split; [|done]. unfold object_types. set_solver. }
  simpl. right. left. eauto.
Qed.

Definition indicator (P : Prop) `{Decision P} : nat := if decide P then 1%nat else 0%nat.

Lemma count_key_cons k v vs :
  count_key k (v :: vs) = (indicator (key_of (snd v) = Some k) + count_key k vs)%nat.
Proof.
  unfold count_key, indicator. rewrite filter_cons. by destruct (decide _).
Qed.

Lemma object_pixels_count vs k :
  default 0%nat (PyDict.get k (object_pixels (scan_from scan_init vs))) = count_key k vs.
Proof.
  unfold PyDict.get. rewrite object_pixels_lookup. by destruct (decide _).
Qed.

(** For one pixel that is no fault: it belongs to instance [inst_id] in
    the visualizer exactly when the checker counts it for one of the four
    objects of that id. *)
Lemma pixel_instance_indicator p inst_id :
  (∀ b, decode_pixel p ≠ Fault b) → inst_id ≠ 0 →
  indicator (instance_of p = inst_id)
  = sum_list ((fun t => indicator (key_of p = Some (t, inst_id))) <$> object_types).
Proof.
  intros Hnf Hid. unfold key_of.
  destruct (decode_pixel_cases p) as [[-> Hz]|[[b Hb]|(t & Ht & ->)]].
  - unfold indicator. rewrite decide_False by congruence. done.
  - by destruct (Hnf b).
  - unfold indicator. destruct (decide (instance_of p = inst_id)) as [->|Hne].
    + unfold object_types in *. set_unfold in Ht.
      destruct Ht as [->|[->|[->|[->|[]]]]]; simpl;
        repeat first [rewrite decide_True by done | rewrite decide_False by (intros [=])];
        done.
    + simpl. rewrite !decide_False by congruence. done.
Qed.


Lemma no_fault_visits m v :
  no_fault m → v ∈ visits m → ∀ b, decode_pixel (snd v) ≠ Fault b.
Proof.
  intros Hnf Hv. destruct v as [[y x] p].
  apply elem_of_visits in Hv as (Hy & Hx & ->). by apply Hnf.
Qed.

(** On a mask without invalid categories, the pixel count the visualizer
    prints for an instance id other than 0 is the sum of the pixel counts
    the checker holds for the objects of that id: the ripe, unripe and
    half-ripe strawberry and the peduncle of that number are one instance
    to the visualizer. *)
Theorem visualizer_count_is_checker_sum (m : mask) (inst_id : Z) :
  no_fault m → inst_id ≠ 0 →
  pixel_count m inst_id
  = sum_list ((fun t => default 0%nat
                          (PyDict.get (t, inst_id) (object_pixels (scan m))))
                <$> object_types).
Proof.
  intros Hnf Hid. unfold pixel_count, scan, object_types.
  cbn [fmap list_fmap sum_list]. rewrite !object_pixels_count.
  assert (Hvs : ∀ v, v ∈ visits m → ∀ b, decode_pixel (snd v) ≠ Fault b)
    by (intros v Hv; by apply (no_fault_visits m)).
  induction (visits m) as [|v vs IH]; [done|].
  rewrite filter_cons, !count_key_cons.
  assert (Hv := pixel_instance_indicator (snd v) inst_id (Hvs v ltac:(left)) Hid).
  unfold indicator, object_types in *. cbn [fmap list_fmap sum_list] in Hv.
  assert (IH' := IH (fun v' Hv' => Hvs v' ltac:(by right))).
  unfold id in *.
  clear IH Hvs. repeat case_decide; cbn [length]; first [lia | done].
Qed.

Definition two_instances : mask :=
  mask_of_rows 3 [[(0, 0, 5); (1, 0, 5); (3, 5, 0)]; [(0, 0, 0); (3, 7, 0); (2, 0, 7)]].

Lemma two_instances_no_fault : no_fault two_instances.
Proof.
  intros y x Hy Hx b. simpl in *.
  destruct y as [|[|y]]; [| |lia]; destruct x as [|[|[|x]]]; try lia; by vm_compute.
Qed.

Lemma visualizer_count_is_checker_sum_witness :
  pixel_count two_instances 5
  = sum_list ((fun t => default 0%nat
                          (PyDict.get (t, 5) (object_pixels (scan two_instances))))
                <$> object_types).
Proof.
  apply (visualizer_count_is_checker_sum two_instances 5);
    [apply two_instances_no_fault|lia].
Defined.

(** On a mask without invalid categories, the ids the visualizer lists
    for the mask are exactly the positive ids of the objects the checker
    holds. *)
Theorem visualizer_ids_are_checker_ids (m : mask) (i : Z) :
  no_fault m →
  i ∈ unique_ids m
  ↔ 0 < i ∧ ∃ t, (t, i) ∈ PyDict.keys (object_pixels (scan m)).
Proof.
  intros Hnf. unfold unique_ids, scan.
  rewrite elem_of_list_to_set, list_elem_of_filter, list_elem_of_fmap.
  setoid_rewrite elem_of_keys_object_pixels. setoid_rewrite elem_of_keys_seen.
  split.
  - intros [Hpos (v & -> & Hv)]. split; [done|].
    destruct (decode_pixel_cases (snd v)) as [[_ Hz]|[[b Hb]|(t & _ & Ht)]].
    + simpl in *. lia.
    + by destruct (no_fault_visits m v Hnf Hv b).
    + exists t, (snd v). split; [apply list_elem_of_fmap; eauto|].
      by apply key_of_Some.
  - intros [Hpos (t & p & (v & -> & Hv)%list_elem_of_fmap & Hk)]. split; [done|].
    exists v. split; [|done]. apply key_of_Some in Hk.
    destruct (decode_pixel_cases (snd v)) as [[Hb _]|[[b Hb]|(t' & _ & Ht')]];
      simpl; congruence.
Qed.

Lemma visualizer_ids_are_checker_ids_witness :
  7 ∈ unique_ids two_instances
  ↔ 0 < 7 ∧ ∃ t, (t, 7) ∈ PyDict.keys (object_pixels (scan two_instances)).
Proof.
  apply (visualizer_ids_are_checker_ids two_instances 7), two_instances_no_fault.
Defined.

End VisualizerFacts.

(** ** The sample of filtered objects *)

Module FilteredSample.
Import ComprehensiveCheck PyDictFacts ScanFacts ChannelSeparation.

Definition by_count (a b : object_key * nat) : Prop := (snd a ≤ snd b)%nat.

Lemma insert_by_count_perm x l : insert_by_count x l ≡ₚ x :: l.
Proof.
  induction l as [|y l IH]; [done|]. simpl.
  destruct (snd x <=? snd y)%nat; [done|]. by rewrite IH, Permutation_swap.
Qed.

Lemma sorted_by_count_perm l : sorted_by_count l ≡ₚ l.
Proof.
  induction l as [|x l IH]; [done|]. unfold sorted_by_count in *. simpl.
  by rewrite insert_by_count_perm, IH.
Qed.

Lemma insert_by_count_sorted x l :
  StronglySorted by_count l → StronglySorted by_count (insert_by_count x l).
Proof.
  induction 1 as [|y l Hl IH Hy]; simpl.
  { repeat constructor. }
  destruct (snd x <=? snd y)%nat eqn:Hle.
  - apply Nat.leb_le in Hle. constructor; [by constructor|].
    constructor; [done|]. eapply Forall_impl; [exact Hy|].
    intros z Hz. unfold by_count in *. lia.
  - apply Nat.leb_gt in Hle. constructor; [done|].
    rewrite insert_by_count_perm. constructor; [|done]. unfold by_count. lia.
Qed.

Lemma sorted_by_count_sorted l : StronglySorted by_count (sorted_by_count l).
Proof.
  induction l as [|x l IH]; [constructor|]. by apply insert_by_count_sorted.
Qed.

Lemma StronglySorted_filter {A} (R : relation A) (P : A → Prop)
    `{∀ x, Decision (P x)} (l : list A) :
  StronglySorted R l → StronglySorted R (filter P l).
Proof.
  induction 1 as [|x l Hl IH Hx]; [constructor|].
  rewrite filter_cons. destruct (decide (P x)); [|done].
  constructor; [done|]. apply Forall_forall. intros y [_ Hy]%list_elem_of_filter.
  by eapply Forall_forall in Hx.
Qed.

Lemma length_items {K V} `{Countable K} (d : dict K V) :
  PyDict.wf d → length (PyDict.items d) = PyDict.len d.
Proof.
  intros Hwf. rewrite (wf_len d Hwf). destruct Hwf as [_ Hdom]. unfold PyDict.items.
  assert (Hall : ∀ k, k ∈ d_keys d → is_Some (d_map d !! k)) by (intros k; apply Hdom).
  clear Hdom. revert Hall. generalize (d_keys d). intros ks.
  induction ks as [|k ks IH]; intros Hall; [done|]. simpl.
  destruct (Hall k) as [v ->]; [left|]. simpl. f_equal. apply IH.
  intros k' Hk'. apply Hall. by right.
Qed.

(** The sample of filtered objects the checker prints (labelled as below
    15 pixels and correctly excluded) holds at most ten entries, in
    ascending order of pixel count; each is an object of the mask, with
    its pixel count, that has no annotation, whatever that count is.  Any
    mask object without annotation that has fewer pixels than a listed one
    is listed too, and when the mask has at most ten objects every mask
    object without annotation is listed. *)
Theorem filtered_sample_characterised (m : mask) (json : gset object_key) :
  let sample := missing (scan m) json in
  let count k := PyDict.get k (object_pixels (scan m)) in
  (length sample ≤ 10)%nat
  ∧ StronglySorted (fun a b => (snd a ≤ snd b)%nat) sample
  ∧ (∀ t i n, (t, i, n) ∈ sample →
       ((t, i) ∉ json) ∧ count (t, i) = Some n ∧ (0 < n)%nat)
  ∧ (∀ t i n t' i' n', (t, i, n) ∈ sample → (t', i') ∉ json →
       count (t', i') = Some n' → (n' < n)%nat → (t', i', n') ∈ sample)
  ∧ ((PyDict.len (object_pixels (scan m)) ≤ 10)%nat →
     ∀ t i n, (t, i) ∉ json → count (t, i) = Some n → (t, i, n) ∈ sample).
Proof.
  intros sample count. subst sample count. unfold missing, PyDict.get.
  pose proof (proj2 (scan_init_wf (visits m))) as Hwf. fold (scan m) in Hwf.
  set (its := PyDict.items (object_pixels (scan m))).
  assert (Hits : ∀ k n, (k, n) ∈ sorted_by_count its ↔ d_map (object_pixels (scan m)) !! k = Some n).
  { intros k n. rewrite sorted_by_count_perm. by apply elem_of_items. }
  assert (Hsorted := sorted_by_count_sorted its).
  rewrite <- (take_drop 10 (sorted_by_count its)) in Hsorted.
  assert (Hin : ∀ t i n,
            (t, i, n) ∈ (λ kc : object_key * nat, (kc.1.1, kc.1.2, kc.2))
                          <$> filter (λ kc, kc.1 ∉ json) (take 10 (sorted_by_count its))
            ↔ ((t, i) ∉ json) ∧ (t, i, n) ∈ take 10 (sorted_by_count its)).
  { intros t i n. rewrite list_elem_of_fmap. split.
    - intros ([[t' i'] n'] & [= -> -> ->] & [Hj Hk]%list_elem_of_filter). done.
    - intros [Hj Hk]. exists (t, i, n). split; [done|]. by apply list_elem_of_filter. }
  split_and!.
  - rewrite length_fmap. etrans; [apply length_filter|]. rewrite length_take. lia.
  - apply (StronglySorted_fmap _ by_count); [by intros [[??] ?] [[??] ?]|].
    apply StronglySorted_filter. by apply StronglySorted_app_1_l in Hsorted.
  - intros t i n [Hj Hk]%Hin. split; [done|].
    apply subseteq_take, Hits in Hk. split; [done|].
    unfold scan in Hk. rewrite object_pixels_lookup in Hk.
    destruct (decide _); [done|]. injection Hk as <-. lia.
  - intros t i n t' i' n' [Hj Hk]%Hin Hj' Hc' Hlt. apply Hin. split; [done|].
    apply Hits in Hc'. rewrite <- (take_drop 10 (sorted_by_count its)) in Hc'.
    apply elem_of_app in Hc' as [Hc'|Hc']; [done|].
    pose proof (StronglySorted_app_1_elem_of _ _ _ _ _ Hsorted Hk Hc') as Hle.
    unfold by_count in Hle. simpl in Hle. lia.
  - intros Hlen t i n Hj Hc. apply Hin. split; [done|].
    rewrite take_ge; [by apply Hits|].
    rewrite sorted_by_count_perm. unfold its. by rewrite length_items.
Qed.

End FilteredSample.

(** ** Image indices, duplicate ids and the depth decoder *)

Module DatasetAnalysisFacts.
Import AnalyzeCurrentDataset ChannelSeparation.

Lemma max_index_fold stems x :
  fold_left (fun max_index stem =>
               match stem with
               | Some index => Z.max max_index index
               | None => max_index
               end) stems x
  = fold_left Z.max (indices stems) x.
Proof.
  revert x. induction stems as [|[i|] stems IH]; intros x; simpl; [done|apply IH..].
Qed.

Lemma max_index_spec stems :
  0 ≤ max_index stems
  ∧ (∀ i, i ∈ indices stems → i ≤ max_index stems)
  ∧ (max_index stems = 0 ∨ max_index stems ∈ indices stems).
Proof.
  unfold max_index. rewrite max_index_fold.
  destruct (fold_left_max_spec (indices stems) 0) as (Hin & Hle & Hub). tauto.
Qed.

Lemma indices_in_range stems i :
  (∀ j, j ∈ indices stems → 0 ≤ j) →
  i ∈ indices stems → i ∈ seqZ 0 (max_index stems + 1).
Proof.
  intros Hnonneg Hi. apply elem_of_seqZ.
  destruct (max_index_spec stems) as (_ & Hub & _).
  specialize (Hub i Hi). specialize (Hnonneg i Hi). lia.
Qed.

(** The image files whose name is no number. *)
Definition non_numeric (stems : list (option Z)) : nat :=
  length (filter (fun stem => stem = None) stems).

Lemma current_split stems :
  current stems = (length (indices stems) + non_numeric stems)%nat.
Proof.
  unfold current, indices, non_numeric.
  induction stems as [|[i|] stems IH]; [done| |].
  - rewrite filter_cons, decide_False by done. cbn [omap list_omap id length] in *. lia.
  - rewrite filter_cons, decide_True by done. cbn [omap list_omap id length] in *. lia.
Qed.

(** With at least one image file, and the numeric names giving pairwise
    distinct indices, none negative: the image files found and the gaps
    reported add up to [max_index + 1] plus the files whose name is no
    number.  So the number of images "remaining to generate" that the
    summary prints is the target minus the files found, less one for each
    gap and plus one for each file whose name is no number; and no gap is
    reported exactly when the numeric names are 0 to [max_index]. *)
Theorem images_and_gaps_add_up (stems : list (option Z)) :
  stems ≠ [] →
  NoDup (indices stems) → (∀ i, i ∈ indices stems → 0 ≤ i) →
  Z.of_nat (current stems) + Z.of_nat (size (gaps stems))
  = max_index stems + 1 + Z.of_nat (non_numeric stems)
  ∧ remaining stems
    = target - Z.of_nat (current stems) - Z.of_nat (size (gaps stems))
      + Z.of_nat (non_numeric stems)
  ∧ (gaps stems = ∅
     ↔ Z.of_nat (current stems) = max_index stems + 1 + Z.of_nat (non_numeric stems))
  ∧ (gaps stems = ∅ → non_numeric stems = 0%nat →
     remaining stems = target - Z.of_nat (current stems)).
Proof.
  intros _ Hnd Hnonneg.
  destruct (max_index_spec stems) as (Hmax & _ & _).
  assert (Hsize : size (gaps stems)
                  = (Z.to_nat (max_index stems + 1) - length (indices stems))%nat).
  { unfold gaps. rewrite size_difference.
    - rewrite !size_list_to_set by (done || apply NoDup_seqZ). by rewrite length_seqZ.
    - intros i. rewrite !elem_of_list_to_set. by apply indices_in_range. }
  assert (Hle : (length (indices stems) ≤ Z.to_nat (max_index stems + 1))%nat).
  { rewrite <- (length_seqZ 0). apply submseteq_length, NoDup_submseteq; [done|].
    intros i. by apply indices_in_range. }
  pose proof (current_split stems) as Hcur.
  assert (Hempty : gaps stems = ∅ ↔ size (gaps stems) = 0%nat)
    by (by rewrite <- leibniz_equiv_iff, <- size_empty_iff).
  split_and!.
  - lia.
  - unfold remaining. lia.
  - rewrite Hempty. lia.
  - rewrite Hempty. unfold remaining. lia.
Qed.

Lemma images_and_gaps_add_up_witness :
  let stems := [Some 0; Some 1; None; Some 4] in
  Z.of_nat (current stems) + Z.of_nat (size (gaps stems))
  = max_index stems + 1 + Z.of_nat (non_numeric stems)
  ∧ remaining stems
    = target - Z.of_nat (current stems) - Z.of_nat (size (gaps stems))
      + Z.of_nat (non_numeric stems)
  ∧ (gaps stems = ∅
     ↔ Z.of_nat (current stems) = max_index stems + 1 + Z.of_nat (non_numeric stems))
  ∧ (gaps stems = ∅ → non_numeric stems = 0%nat →
     remaining stems = target - Z.of_nat (current stems)).
Proof.
  intros stems. apply (images_and_gaps_add_up stems).
  - done.
  - apply (bool_decide_unpack _). by vm_compute.
  - intros i Hi. unfold stems, indices in Hi. simpl in Hi. set_unfold in Hi. lia.
Defined.

Lemma size_list_to_set_le (l : list Z) : (size (list_to_set l : gset Z) ≤ length l)%nat.
Proof.
  induction l as [|x l IH]; [done|]. simpl.
  rewrite size_union_alt, size_singleton.
  assert (Hsub : (list_to_set l ∖ {[x]} : gset Z) ⊆ list_to_set l) by set_solver.
  apply subseteq_size in Hsub. lia.
Qed.

(** The duplicate check of the id lists reports a duplicate exactly when
    some id occurs at two positions of the list. *)
Theorem has_duplicates_iff (ids : list Z) :
  has_duplicates ids = true
  ↔ ∃ i j x, (i < j)%nat ∧ ids !! i = Some x ∧ ids !! j = Some x.
Proof.
  unfold has_duplicates. rewrite bool_decide_eq_true.
  induction ids as [|x ids IH].
  { split; [done|]. by intros (i & j & y & _ & Hi & _). }
  simpl. destruct (decide (x ∈ ids)) as [Hx|Hx].
  - assert (Heq : ({[x]} ∪ list_to_set ids : gset Z) = list_to_set ids) by set_solver.
    rewrite Heq. pose proof (size_list_to_set_le ids). split; [|lia].
    intros _. apply list_elem_of_lookup in Hx as [j Hj].
    exists 0%nat, (S j), x. split_and!; [lia|done..].
  - rewrite size_union, size_singleton by set_solver. split.
    + intros Hne. destruct (proj1 IH) as (i & j & y & Hlt & Hi & Hj); [lia|].
      exists (S i), (S j), y. split_and!; [lia|done..].
    + intros (i & j & y & Hlt & Hi & Hj). destruct i as [|i].
      * injection Hi as ->. destruct j as [|j]; [lia|]. simpl in Hj.
        destruct Hx. by eapply list_elem_of_lookup_2.
      * destruct j as [|j]; [lia|]. simpl in *.
        assert (length ids ≠ size (list_to_set ids : gset Z)); [|lia].
        apply IH. exists i, j, y. split_and!; [lia|done..].
Qed.

End DatasetAnalysisFacts.

Module DepthFacts.
Import DepthUtils.

Lemma land_shifted_byte (h l : Z) : 0 ≤ l < 256 → Z.land (h * 2 ^ 8) l = 0.
Proof.
  intros Hl. apply Z.bits_inj'. intros n Hn. rewrite Z.land_spec, Z.bits_0.
  destruct (Z.lt_ge_cases n 8) as [Hlt|Hge].
  - by rewrite Z.mul_pow2_bits_low.
  - destruct (decide (l = 0)) as [->|Hnz]; [by rewrite Z.bits_0, andb_false_r|].
    rewrite (Z.bits_above_log2 l n); [apply andb_false_r|lia|].
    apply Z.log2_lt_pow2; [lia|].
    assert (2 ^ 8 ≤ 2 ^ n) by (apply Z.pow_le_mono_r; lia). lia.
Qed.

(** The depth decoder puts the red channel in the high byte and the green
    channel in the low byte of a 16-bit number of millimetres: for two
    byte values the shift does not wrap, the result is [256 * high + low],
    and both channels are read back from it by [>> 8] and [& 0xFF], the
    encoding the docstring describes.  Every millimetre value below 65536
    is the decoding of its two bytes. *)
Theorem depth_mm_round_trip (high low : Z) :
  0 ≤ high < 256 → 0 ≤ low < 256 →
  depth_mm high low = 256 * high + low
  ∧ 0 ≤ depth_mm high low < 65536
  ∧ Z.shiftr (depth_mm high low) 8 = high
  ∧ Z.land (depth_mm high low) 255 = low
  ∧ ∀ mm, 0 ≤ mm < 65536 → depth_mm (Z.shiftr mm 8) (Z.land mm 255) = mm.
Proof.
  assert (Hdec : ∀ h l, 0 ≤ h < 256 → 0 ≤ l < 256 → depth_mm h l = 256 * h + l).
  { intros h l Hh Hl. unfold depth_mm. rewrite Z.shiftl_mul_pow2 by lia.
    rewrite Z.mod_small by lia.
    rewrite <- Z.add_nocarry_lor by (by apply land_shifted_byte). lia. }
  intros Hh Hl. rewrite (Hdec high low Hh Hl). split_and!; [done|lia..| | |].
  - rewrite Z.shiftr_div_pow2 by lia. symmetry. apply (Z.div_unique _ _ _ low); lia.
  - change 255 with (Z.ones 8). rewrite Z.land_ones by lia.
    symmetry. apply (Z.mod_unique _ _ high); lia.
  - intros mm Hmm. change 255 with (Z.ones 8).
    rewrite Z.land_ones, Z.shiftr_div_pow2 by lia.
    assert (Hdiv : 0 ≤ mm `div` 2 ^ 8 < 256).
    { split; [apply Z.div_pos; lia|apply Z.div_lt_upper_bound; lia]. }
    assert (Hmod : 0 ≤ mm `mod` 2 ^ 8 < 256) by (apply Z.mod_pos_bound; lia).
    rewrite Hdec by done. pose proof (Z.div_mod mm (2 ^ 8)). lia.
Qed.

Lemma depth_mm_round_trip_witness :
  depth_mm 4 210 = 256 * 4 + 210
  ∧ 0 ≤ depth_mm 4 210 < 65536
  ∧ Z.shiftr (depth_mm 4 210) 8 = 4
  ∧ Z.land (depth_mm 4 210) 255 = 210
  ∧ ∀ mm, 0 ≤ mm < 65536 → depth_mm (Z.shiftr mm 8) (Z.land mm 255) = mm.
Proof. apply (depth_mm_round_trip 4 210); lia. Defined.

End DepthFacts.

(** ** Exceptions out of the reconciler *)

Module ReconcilerExceptions.
Import VerifyIncrementalMetadata PyDictFacts ReconcilerClaims ReconcilerFacts.



(** Integers are compared exactly, an integer next to a float is rounded
    first, and what is no number cannot be subtracted. *)
Example min_differs_on_numbers :
  min_differs (JInt (2 ^ 53 + 1)) (JInt (2 ^ 53)) = inr true
  ∧ min_differs (JInt (2 ^ 53 + 1)) (JFloat 9007199254740992) = inr false
  ∧ min_differs (JBool true) (JFloat 1) = inr false
  ∧ min_differs (JInt (2 ^ 1024)) (JFloat 0) = inl OverflowError
  ∧ min_differs (JString "0.5") (JFloat 0.5) = inl TypeError.
Proof. by vm_compute. Qed.

(** Three shards: the second, of an image without master entry, and the
    third cannot be parsed. *)
Definition unreadable_shards : dataset :=
  Dataset [("00001_meta.json", inr (depth_record 0.5 5));
           ("00002_meta.json", inl (LoadError "JSONDecodeError"));
           ("00003_meta.json", inl (LoadError "JSONDecodeError"))]
          (fun _ => true)
          (Parsed (PyDict.of_list [("00001.png", depth_record 0.5 5);
                                   ("00003.png", depth_record 1 8)]))
          (Parsed ["00001.png"; "00003.png"]).

Example unreadable_shards_raise :
  verify_dataset unreadable_shards = Raised (LoadError "JSONDecodeError")
  ∧ check_temp_file (PyDict.of_list [("00001.png", depth_record 0.5 5);
                                     ("00003.png", depth_record 1 8)])
      [] ("00002_meta.json", inl (LoadError "JSONDecodeError"))
    = inr [TempNotInMaster "00002_meta.json" "00002.png"].
Proof. by vm_compute. Qed.


End ReconcilerExceptions.
